(** * run-remote-task: the task mailbox protocol of [index.js]

    A shallow embedding of the object naming codec ([getTaskFileUrl],
    [convertUrls]), the task assembler ([toTasks]), the garbage collector
    ([deleteExpiredFiles]), the server side ([runTask], [uploadTaskResult],
    the loop of [startServer]) and the client side ([runRemoteTask]:
    submission, poll loop, result handling with its [finally] block).

    Conventions of the embedding.
    - Numbers are integers ([Z]); a [Date] is its time value in epoch
      milliseconds.  An Invalid Date (a name whose digits exceed the Date
      range) is not modelled.
    - Buffers and strings are [string]s (byte sequences).
    - A JS object used as a dictionary whose key order is observed through
      [Object.values] is an association list in insertion order; the retry
      table, the store and the temporary directory, which are only read and
      written by key, are [gmap]s.  Property names inherited from
      [Object.prototype] are not modelled: task ids are own keys.
    - Asynchronous code is run to completion: a computation takes a world
      (store, temporary files, retry table, clock, trace of requests and
      command runs) and returns a completion, normal or thrown, with the
      new world.  The two endless loops take a bound on their iterations.
    - What comes from outside the repository is a parameter ([Env]): the
      configuration, the signature scheme, the backend's decision to accept
      or reject each request, and the external command.
    - The clock moves only in [timeout]; between two steps of one process
      no other process touches the store.
    - [console.log] / [console.error] calls are omitted. *)

From Stdlib Require Import ZArith String Ascii List Bool Lia.
From Stdlib Require Import Decimal DecimalString DecimalPos DecimalN.
From stdpp Require Import gmap strings list sorting.

Local Open Scope Z_scope.

(** ** Part I. Definitions *)

(** *** JavaScript objects and arrays *)

Module JS.

Section Obj.
Context {K V : Type} `{EqDecision K}.

(** [o[k]] *)
Fixpoint get (o : list (K * V)) (k : K) : option V :=
  match o with
  | [] => None
  | (k', v) :: r => if decide (k = k') then Some v else get r k
  end.

(** [o[k] = v]: an existing key keeps its position, a new key is
    appended. *)
Fixpoint set (o : list (K * V)) (k : K) (v : V) : list (K * V) :=
  match o with
  | [] => [(k, v)]
  | (k', v') :: r =>
      if decide (k = k') then (k, v) :: r else (k', v') :: set r k v
  end.

(** [Object.values(o)] for an object without integer-like keys. *)
Definition values (o : list (K * V)) : list V := map snd o.
End Obj.

(** [Array.prototype.sort] with a consistent comparator is a stable sort:
    [insert_sorted] puts [x] before the first element that is strictly
    greater, so elements that compare equal keep their order. *)
Section Sort.
Context {A : Type} (key : A -> Z).

Fixpoint insert_sorted (x : A) (l : list A) : list A :=
  match l with
  | [] => [x]
  | y :: r => if key x <=? key y then x :: l else y :: insert_sorted x r
  end.

Definition sort (l : list A) : list A := foldr insert_sorted [] l.

(** The order the comparator [(x, y) => key(x) - key(y)] sorts by. *)
Definition key_le (a b : A) : Prop := key a <= key b.
End Sort.

(** A property key is an array index when it is the canonical decimal
    form of an integer in [0, 2^32 - 2]. *)
Definition array_index (s : string) : option Z :=
  match NilEmpty.uint_of_string s with
  | Some d =>
      let n := Z.of_uint d in
      if String.eqb (NilZero.string_of_uint (N.to_uint (Z.to_N n))) s
         && (n <=? 4294967294)
      then Some n else None
  | None => None
  end.

Definition index_key {V} (kv : string * V) : Z :=
  default 0 (array_index kv.1).

Definition is_index {V} (kv : string * V) : bool :=
  bool_decide (is_Some (array_index kv.1)).

(** [Object.values(o)] for string keys: array indices in ascending numeric
    order first, then the other keys in insertion order. *)
Definition values_ordered {V} (o : list (string * V)) : list V :=
  map snd (sort index_key (List.filter is_index o))
  ++ map snd (List.filter (fun kv => negb (is_index kv)) o).

(** [s.replace(pat, rep)] with a string pattern: the first occurrence. *)
Fixpoint replace (pat rep s : string) : string :=
  if String.prefix pat s
  then rep +:+ String.substring (String.length pat)
                                (String.length s - String.length pat) s
  else match s with
       | EmptyString => EmptyString
       | String c r => String c (replace pat rep r)
       end.

(** [String(n)] for an integer time value. *)
Definition number_toString (n : Z) : string :=
  NilZero.string_of_int (Z.to_int n).

(** [+s] for a string of decimal digits. *)
Definition digits_value (s : string) : Z :=
  match NilEmpty.uint_of_string s with
  | Some d => Z.of_uint d
  | None => 0
  end.

End JS.

(** *** Object naming codec *)

Inductive direction := dir_in | dir_out.
Inductive kind := Dat | Sig | Err.

#[global] Instance direction_eq_dec : EqDecision direction.
Proof. solve_decision. Defined.
#[global] Instance kind_eq_dec : EqDecision kind.
Proof. solve_decision. Defined.

Definition inout_str (d : direction) : string :=
  match d with dir_in => "in" | dir_out => "out" end.

Definition ext_str (k : kind) : string :=
  match k with Dat => "dat" | Sig => "sig" | Err => "err" end.

(** The object built by [convertUrls]:
    [{ date: new Date(+date), taskId, inout, ext, url }]. *)
Record file := mkFile {
  date : Z;
  taskId : string;
  inout : direction;
  ext : kind;
  url : string
}.

#[global] Instance file_eq_dec : EqDecision file.
Proof. solve_decision. Defined.

(** [getTaskFileUrl(time, taskId, inout, ext)] with [time] the Date's time
    value: [`${time}-${taskId}.${inout}.${ext}`]. *)
Definition getTaskFileUrl (time : Z) (taskId : string)
    (inout : direction) (ext : kind) : string :=
  JS.number_toString time +:+ "-" +:+ taskId +:+ "."
    +:+ inout_str inout +:+ "." +:+ ext_str ext.

(** [\d] and [\w] of a JS regular expression without the unicode flag. *)
Definition is_digit (c : ascii) : bool :=
  let n := N_of_ascii c in ((48 <=? n) && (n <=? 57))%N.

Definition is_word (c : ascii) : bool :=
  let n := N_of_ascii c in
  (((65 <=? n) && (n <=? 90)) || ((97 <=? n) && (n <=? 122))
   || ((48 <=? n) && (n <=? 57)) || (n =? 95))%N.

Fixpoint all_chars (p : ascii -> bool) (s : string) : bool :=
  match s with
  | EmptyString => true
  | String c r => p c && all_chars p r
  end.

(** The longest prefix of [s] whose characters satisfy [p], and the rest:
    how a greedy [\d+] or [\w+] consumes its input when the next pattern
    character is outside the class. *)
Fixpoint span (p : ascii -> bool) (s : string) : string * string :=
  match s with
  | EmptyString => (EmptyString, EmptyString)
  | String c r =>
      if p c then let '(a, b) := span p r in (String c a, b)
      else (EmptyString, s)
  end.

(** [(in|out)\.(dat|sig|err)$] *)
Definition match_tail (s : string) : option (direction * kind) :=
  if String.eqb s "in.dat" then Some (dir_in, Dat)
  else if String.eqb s "in.sig" then Some (dir_in, Sig)
  else if String.eqb s "in.err" then Some (dir_in, Err)
  else if String.eqb s "out.dat" then Some (dir_out, Dat)
  else if String.eqb s "out.sig" then Some (dir_out, Sig)
  else if String.eqb s "out.err" then Some (dir_out, Err)
  else None.

(** One step of [convertUrls]:
    [url.match(/^(\d+)-(\w+)\.(in|out)\.(dat|sig|err)$/)], [undefined]
    when there is no match. *)
Definition convertUrl (u : string) : option file :=
  let '(ds, r1) := span is_digit u in
  match ds, r1 with
  | String _ _, String "-" r2 =>
      let '(id, r3) := span is_word r2 in
      match id, r3 with
      | String _ _, String "." r4 =>
          match match_tail r4 with
          | Some (io, ex) =>
              Some (mkFile (JS.digits_value ds) id io ex u)
          | None => None
          end
      | _, _ => None
      end
  | _, _ => None
  end.

(** [urls.map(...).filter((task) => task)] *)
Definition convertUrls (urls : list string) : list file :=
  omap convertUrl urls.

(** The grammar of the regular expression, stated on its own: a name
    matches when it splits into the four fields and the two delimiters. *)
Definition matches_grammar (u : string) : Prop :=
  exists ds id io ex,
    u = ds +:+ "-" +:+ id +:+ "." +:+ inout_str io +:+ "." +:+ ext_str ex
    /\ ds <> EmptyString /\ all_chars is_digit ds = true
    /\ id <> EmptyString /\ all_chars is_word id = true.

(** A task id as the grammar accepts it: a non-empty run of word
    characters. *)
Definition word_token (s : string) : bool :=
  negb (String.eqb s "") && all_chars is_word s.

(** *** Task assembler *)

(** [tasks[taskId][inout]]: the files of one direction keyed by [ext], in
    insertion order. *)
Abbreviation slots := (list (kind * file)).

(** [tasks[taskId]]: an object with the optional properties [in] and
    [out]. *)
Record group := mkGroup { g_in : option slots; g_out : option slots }.

Definition group_get (g : group) (d : direction) : option slots :=
  match d with dir_in => g_in g | dir_out => g_out g end.

Definition group_set (g : group) (d : direction) (s : slots) : group :=
  match d with
  | dir_in => mkGroup (Some s) (g_out g)
  | dir_out => mkGroup (g_in g) (Some s)
  end.

(** The body of the [for (const file of files)] loop of [toTasks]. *)
Definition add_file (tasks : list (string * group)) (f : file)
    : list (string * group) :=
  let g := default (mkGroup None None) (JS.get tasks (taskId f)) in
  let s := default [] (group_get g (inout f)) in
  JS.set tasks (taskId f) (group_set g (inout f) (JS.set s (ext f) f)).

(** [{ ...task, date: task.in.sig.date, id: task.in.sig.taskId }] *)
Record task := mkTask {
  task_in : option slots;
  task_out : option slots;
  task_date : Z;
  task_id : string
}.

(** [.filter((task) => task.in && task.in.sig && task.in.dat)] followed by
    the [.map] on a group that passed the filter. *)
Definition to_task (g : group) : option task :=
  match g_in g with
  | Some s =>
      match JS.get s Sig, JS.get s Dat with
      | Some sg, Some _ => Some (mkTask (g_in g) (g_out g) (date sg) (taskId sg))
      | _, _ => None
      end
  | None => None
  end.

Definition toTasks (files : list file) : list task :=
  let tasks := foldl add_file [] files in
  JS.sort task_date (omap to_task (JS.values_ordered tasks)).

(** The files a task record holds for one direction (none when the
    property is absent). *)
Definition task_slot (t : task) (d : direction) : option slots :=
  match d with dir_in => task_in t | dir_out => task_out t end.

(** The last-listed file of one slot of one task id: the one that the
    assignment [tasks[taskId][inout][ext] = file] leaves in place. *)
Definition in_slot (id : string) (d : direction) (k : kind) (f : file) : bool :=
  bool_decide (taskId f = id) && bool_decide (inout f = d)
  && bool_decide (ext f = k).

Definition last_listed (files : list file) (id : string) (d : direction)
    (k : kind) : option file :=
  last (List.filter (in_slot id d k) files).

(** [(task) => task.id === id] *)
Definition has_id (id : string) (t : task) : bool :=
  bool_decide (task_id t = id).

(** The listing holds an object of task [id] with the given direction and
    kind. *)
Definition has_object (files : list file) (id : string) (d : direction)
    (k : kind) : Prop :=
  exists f, f ∈ files /\ taskId f = id /\ inout f = d /\ ext f = k.

(** [tasks[id][d]] and [tasks[id][d][k]] read through the optional
    levels. *)
Definition side_of (o : list (string * group)) (id : string) (d : direction)
    : option slots :=
  g ← JS.get o id; group_get g d.

Definition slot_of (o : list (string * group)) (id : string) (d : direction)
    (k : kind) : option file :=
  s ← side_of o id d; JS.get s k.

(** *** The world: store, local files, process state *)

(** A request to the storage backend ([upload], [downloadFile],
    [deleteFile] and the listing of [listFiles]). *)
Inductive request :=
| PUT (u : string) (data : string)
| GET (u : string)
| DELETE (u : string)
| LIST.

(** What a process did to its surroundings, most recent first. *)
Inductive event :=
| Sent (r : request) (accepted : bool)
| Exec (input output : string).

Record World := mkWorld {
  store : gmap string string;    (* the shared object store: name -> blob *)
  tmp : gmap string string;      (* the files under os.tmpdir() *)
  retries : gmap string Z;       (* runTask.retries *)
  initialized : bool;            (* runRemoteTask.initialized *)
  now : Z;                       (* the clock read by Date.now() *)
  trace : list event
}.

Definition with_store (w : World) (s : gmap string string) : World :=
  mkWorld s (tmp w) (retries w) (initialized w) (now w) (trace w).
Definition with_tmp (w : World) (t : gmap string string) : World :=
  mkWorld (store w) t (retries w) (initialized w) (now w) (trace w).
Definition with_retries (w : World) (r : gmap string Z) : World :=
  mkWorld (store w) (tmp w) r (initialized w) (now w) (trace w).
Definition with_initialized (w : World) (b : bool) : World :=
  mkWorld (store w) (tmp w) (retries w) b (now w) (trace w).
Definition with_now (w : World) (n : Z) : World :=
  mkWorld (store w) (tmp w) (retries w) (initialized w) n (trace w).
Definition log (e : event) (w : World) : World :=
  mkWorld (store w) (tmp w) (retries w) (initialized w) (now w) (e :: trace w).

(** The configuration object.  The key properties hold the contents of
    the key files they name. *)
Record config := mkConfig {
  clientPrivateKey : string;
  clientPublicKey : string;
  serverPrivateKey : string;
  serverPublicKey : string;
  pollMillis : Z;
  taskExpirationMillis : Z;
  commandRetries : Z
}.

(** What one run of the external command did: its exit status, what it
    wrote to the file named by [OUTPUT] (if anything) and the message of
    the error [execSync] throws on a non-zero exit. *)
Record cmd_result := mkCmd {
  exit_ok : bool;
  written : option string;
  message : string
}.

(** Everything the code takes from outside the repository: the
    configuration, the signature scheme of [crypto], the answer of the
    storage backend to a request in a given world, and the external
    command. *)
Record Env := mkEnv {
  cfg : config;
  sign : string -> string -> string;
  verify : string -> string -> string -> bool;
  rejects : World -> request -> bool;
  command : World -> string -> string -> cmd_result
}.

(** *** Computations that change the world and may throw *)

Inductive exn :=
| HttpError (r : request)     (* the rejection of a backend promise *)
| Error (msg : string)        (* new Error(msg) *)
| FsError (path : string)     (* a missing local file *)
| TypeError.                  (* a property read on undefined *)

Definition exn_toString (e : exn) : string :=
  match e with
  | Error msg => "Error: " +:+ msg
  | HttpError _ => "HTTP status code"
  | FsError p => "Error: ENOENT: no such file or directory, " +:+ p
  | TypeError => "TypeError"
  end.

Inductive completion (A : Type) :=
| Normal (a : A)
| Throw (e : exn).
Arguments Normal {A} a.
Arguments Throw {A} e.

Definition M (A : Type) : Type := World -> completion A * World.

Definition ret {A} (a : A) : M A := fun w => (Normal a, w).

#[global] Instance M_ret : MRet M := @ret.

#[global] Instance M_bind : MBind M := fun A B k c w =>
  match c w with
  | (Normal a, w') => k a w'
  | (Throw e, w') => (Throw e, w')
  end.

Definition throw {A} (e : exn) : M A := fun w => (Throw e, w).

(** [try { body } catch (e) { handler }] *)
Definition try_catch {A} (body : M A) (handler : exn -> M A) : M A :=
  fun w =>
    match body w with
    | (Normal a, w') => (Normal a, w')
    | (Throw e, w') => handler e w'
    end.

(** [try { body } finally { cleanup }]: the completion of [body], unless
    [cleanup] throws. *)
Definition try_finally {A} (body : M A) (cleanup : M unit) : M A :=
  fun w =>
    let '(r, w1) := body w in
    match cleanup w1 with
    | (Normal _, w2) => (r, w2)
    | (Throw e, w2) => (Throw e, w2)
    end.

(** [for (const x of l) { body(x) }] *)
Fixpoint for_each {A} (l : list A) (body : A -> M unit) : M unit :=
  match l with
  | [] => ret tt
  | x :: r => body x ;; for_each r body
  end.

(** [Date.now()], [new Date()] *)
Definition Date_now : M Z := fun w => (Normal (now w), w).

(** [await timeout(ms)]: [setTimeout] fires after [ms] milliseconds, after
    one millisecond when [ms] is outside [1, 2^31 - 1]. *)
Definition delay (ms : Z) : Z :=
  if (1 <=? ms) && (ms <=? 2147483647) then ms else 1.

Definition timeout (ms : Z) : M unit := fun w =>
  (Normal tt, with_now w (now w + delay ms)).

(** [fs.readFileSync], [fs.unlinkSync], [fs.existsSync] on the temporary
    directory. *)
Definition readFileSync (p : string) : M string := fun w =>
  match tmp w !! p with
  | Some d => (Normal d, w)
  | None => (Throw (FsError p), w)
  end.

Definition unlinkSync (p : string) : M unit := fun w =>
  match tmp w !! p with
  | Some _ => (Normal tt, with_tmp w (delete p (tmp w)))
  | None => (Throw (FsError p), w)
  end.

Definition existsSync (p : string) : M bool := fun w =>
  (Normal (bool_decide (is_Some (tmp w !! p))), w).

(** The expiration policy in the words of the specification: an object is
    expired when [now - object.createdAt > 2 * expirationMillis]. *)
Definition spec_expired (nowMillis expirationMillis : Z) (f : file) : bool :=
  bool_decide (nowMillis - date f > 2 * expirationMillis).

(** The names of the [DELETE] and [PUT] requests of a trace and the
    commands run, each in the order they happened. *)
Definition deletes (t : list event) : list string :=
  reverse (omap (fun e => match e with
                          | Sent (DELETE u) _ => Some u
                          | _ => None
                          end) t).

Definition puts (t : list event) : list (string * string) :=
  reverse (omap (fun e => match e with
                          | Sent (PUT u d) _ => Some (u, d)
                          | _ => None
                          end) t).

Definition execs (t : list event) : list (string * string) :=
  reverse (omap (fun e => match e with
                          | Exec i o => Some (i, o)
                          | _ => None
                          end) t).

(** The completions the specification calls terminal for a session that
    found a resolved task: a returned result, or a raised [Error] (remote
    error, bad signature). *)
Definition terminal {A} (r : completion A) : Prop :=
  match r with
  | Normal _ => True
  | Throw (Error _) => True
  | Throw _ => False
  end.

(** [w'] continues the trace of [w] with events that satisfy [P], and
    a computation causes only such events. *)
Definition extends (P : event -> Prop) (w w' : World) : Prop :=
  exists evs, trace w' = evs ++ trace w /\ Forall P evs.

Definition causes {A} (P : event -> Prop) (c : M A) : Prop :=
  forall w r w', c w = (r, w') -> extends P w w'.

(** The events a call of [runTask] on [t] may cause: downloads, runs of
    the command on the task's downloaded input, and uploads of the task's
    own output objects. *)
Definition runTask_event (t : task) (e : event) : Prop :=
  match e with
  | Sent (GET _) _ => True
  | Sent (PUT u _) _ =>
      exists k, u = getTaskFileUrl (task_date t) (task_id t) dir_out k
  | Sent (DELETE _) _ => False
  | Sent LIST _ => False
  | Exec i _ =>
      exists s fd, task_in t = Some s /\ JS.get s Dat = Some fd /\ i = url fd
  end.

Section Protocol.
Variable E : Env.

(** *** Store operations

    Each one sends one request; the promise is rejected when the backend
    rejects the request.  A file downloaded from the store is written
    under os.tmpdir() with the object's name (the names [convertUrls]
    accepts hold no path separator). *)

Definition upload (fileUrl data : string) : M unit := fun w =>
  if rejects E w (PUT fileUrl data)
  then (Throw (HttpError (PUT fileUrl data)),
        log (Sent (PUT fileUrl data) false) w)
  else (Normal tt,
        log (Sent (PUT fileUrl data) true)
            (with_store w (<[fileUrl := data]> (store w)))).

Definition downloadFile (fileUrl : string) : M string := fun w =>
  if rejects E w (GET fileUrl)
  then (Throw (HttpError (GET fileUrl)), log (Sent (GET fileUrl) false) w)
  else match store w !! fileUrl with
       | Some data =>
           (Normal fileUrl,
            log (Sent (GET fileUrl) true)
                (with_tmp w (<[fileUrl := data]> (tmp w))))
       | None =>
           (Throw (HttpError (GET fileUrl)),
            log (Sent (GET fileUrl) false) w)
       end.

Definition deleteFile (fileUrl : string) : M unit := fun w =>
  if rejects E w (DELETE fileUrl)
  then (Throw (HttpError (DELETE fileUrl)),
        log (Sent (DELETE fileUrl) false) w)
  else (Normal tt,
        log (Sent (DELETE fileUrl) true)
            (with_store w (delete fileUrl (store w)))).

(** The listing request of [listFiles]: the names in the store. *)
Definition list_urls : M (list string) := fun w =>
  if rejects E w LIST
  then (Throw (HttpError LIST), log (Sent LIST false) w)
  else (Normal (map fst (map_to_list (store w))), log (Sent LIST true) w).

(** *** Garbage collector *)

(** The [for (const file of files)] loop of [deleteExpiredFiles]. *)
Fixpoint sweep (expirationDate : Z) (files res : list file)
    : M (list file) :=
  match files with
  | [] => ret res
  | f :: r =>
      if date f <? expirationDate
      then try_catch (deleteFile (url f)) (fun _ => ret tt) ;;
           sweep expirationDate r res
      else sweep expirationDate r (res ++ [f])
  end.

(** The policy of the sweep at time [n]: [file.date < expirationDate]. *)
Definition expired (n : Z) (f : file) : bool :=
  date f <? n - taskExpirationMillis (cfg E) * 2.

Definition deleteExpiredFiles (files : list file) : M (list file) :=
  n ← Date_now;
  let expirationDate := n - taskExpirationMillis (cfg E) * 2 in
  sweep expirationDate files [].

Definition listFiles : M (list file) :=
  urls ← list_urls;
  deleteExpiredFiles (convertUrls urls).

(** *** Server *)

(** [uploadTaskResult(config, task, outFile, error, serverPrivateKey)];
    [outFile] is [None] for [null]. *)
Definition uploadTaskResult (t : task) (outFile : option string)
    (error : string) : M unit :=
  data ← match outFile with
         | Some p => readFileSync p
         | None => ret error
         end;
  let dataExt := match outFile with Some _ => Dat | None => Err end in
  let signature := sign E data (serverPrivateKey (cfg E)) in
  upload (getTaskFileUrl (task_date t) (task_id t) dir_out dataExt) data ;;
  upload (getTaskFileUrl (task_date t) (task_id t) dir_out Sig) signature.

(** [execSync(config.command, { env: { INPUT, OUTPUT } })] *)
Definition execSync (inFile outFile : string) : M unit := fun w =>
  let r := command E w inFile outFile in
  let w1 := match written r with
            | Some d => with_tmp w (<[outFile := d]> (tmp w))
            | None => w
            end in
  let w2 := log (Exec inFile outFile) w1 in
  if exit_ok r then (Normal tt, w2) else (Throw (Error (message r)), w2).

(** [task[inout][ext]], throwing when [task[inout]] is undefined. *)
Definition task_file (t : task) (d : direction) (k : kind)
    : M (option file) :=
  match task_slot t d with
  | Some s => ret (JS.get s k)
  | None => throw TypeError
  end.

Definition task_file_url (t : task) (d : direction) (k : kind) : M string :=
  f ← task_file t d k;
  match f with
  | Some f => ret (url f)
  | None => throw TypeError
  end.

(** The [catch (e)] block of [runTask]. *)
Definition on_failure (t : task) (inFile : string) (e : exn) : M unit :=
  fun w =>
    let retryCount := default 0 (retries w !! task_id t) in
    let w1 := with_retries w (<[task_id t := retryCount + 1]> (retries w)) in
    if retryCount >=? commandRetries (cfg E)
    then (unlinkSync inFile ;;
          uploadTaskResult t None (exn_toString e))
           (with_retries w1 (delete (task_id t) (retries w1)))
    else (Normal tt, w1).

Definition runTask (t : task) : M unit :=
  inUrl ← task_file_url t dir_in Dat;
  inFile ← downloadFile inUrl;
  sigUrl ← task_file_url t dir_in Sig;
  sigFile ← downloadFile sigUrl;
  signature ← readFileSync sigFile;
  unlinkSync sigFile ;;
  data ← readFileSync inFile;
  if verify E data signature (clientPublicKey (cfg E))
  then
    let outFile := JS.replace ".in.dat" ".out.dat" inFile in
    try_catch
      (execSync inFile outFile ;;
       created ← existsSync outFile;
       (if (created : bool) then ret tt
        else throw (Error "Output file was not created") : M unit) ;;
       unlinkSync inFile ;;
       uploadTaskResult t (Some outFile) "" ;;
       unlinkSync outFile)
      (on_failure t inFile)
  else
    unlinkSync inFile ;;
    uploadTaskResult t None "Bad signature".

(** [runTask] called [n] times in a row on the same task: the attempts
    of a server that finds this task first in every iteration. *)
Fixpoint attempts (t : task) (n : nat) : M unit :=
  match n with
  | O => ret tt
  | S n => attempts t n ;; runTask t
  end.

(** A run of the command in world [w] counts as a failure for [runTask]:
    a non-zero exit, or no file at [outFile] afterwards. *)
Definition cmd_fails (w : World) (inFile outFile : string) : Prop :=
  let r := command E w inFile outFile in
  exit_ok r = false \/ (written r = None /\ tmp w !! outFile = None).

(** [toTasks(...).filter((task) => !task.out)] *)
Definition pending (tasks : list task) : list task :=
  List.filter (fun t => negb (bool_decide (is_Some (task_out t)))) tasks.

(** The body of the [while (true)] loop of [startServer]. *)
Definition server_iteration : M unit :=
  try_catch
    (files ← listFiles;
     let tasks := pending (toTasks files) in
     match head tasks with
     | Some t => runTask t
     | None => ret tt
     end ;;
     timeout (pollMillis (cfg E)))
    (fun _ => timeout (pollMillis (cfg E))).

(** [testSign(privateKey, publicKey, otherPublicKey)] *)
Definition testSign (privateKey publicKey otherPublicKey : string)
    : M unit :=
  let data := "test" in
  let signature := sign E data privateKey in
  if negb (verify E data signature publicKey)
  then throw (Error "Could not verify data signed by private key, make sure keypair is correct")
  else if verify E data signature otherPublicKey
  then throw (Error "Looks like client and server keys are the same")
  else ret tt.

(** [startServer] with a bound on the number of iterations of its
    loop. *)
Fixpoint server_loop (iterations : nat) : M unit :=
  match iterations with
  | O => ret tt
  | S n => server_iteration ;; server_loop n
  end.

Definition startServer (iterations : nat) : M unit :=
  (if String.eqb (serverPrivateKey (cfg E)) ""
   then throw (Error "config.serverPrivateKey is empty")
   else if String.eqb (serverPublicKey (cfg E)) ""
   then throw (Error "config.serverPublicKey is empty")
   else if String.eqb (clientPublicKey (cfg E)) ""
   then throw (Error "config.clientPublicKey is empty")
   else if pollMillis (cfg E) =? 0
   then throw (Error "config.pollMillis is empty")
   else ret tt : M unit) ;;
  testSign (serverPrivateKey (cfg E)) (serverPublicKey (cfg E))
           (clientPublicKey (cfg E)) ;;
  server_loop iterations.

(** *** Client *)

(** Signing and writing the two input objects; the result is [dt], the
    submission time. *)
Definition submit (inputData taskId : string) : M Z :=
  let inputSignature := sign E inputData (clientPrivateKey (cfg E)) in
  dt ← Date_now;
  upload (getTaskFileUrl dt taskId dir_in Dat) inputData ;;
  upload (getTaskFileUrl dt taskId dir_in Sig) inputSignature ;;
  ret dt.

(** [(task) => task.id === taskId && task.out && task.out.sig] *)
Definition resolved (taskId : string) (t : task) : bool :=
  bool_decide (task_id t = taskId)
  && match task_out t with
     | Some s => bool_decide (is_Some (JS.get s Sig))
     | None => false
     end.

(** The [while (true)] loop of [runRemoteTask], with a bound on the
    number of its cycles; [None] when the bound is reached with the loop
    still running. *)
Fixpoint poll (cycles : nat) (dt : Z) (taskId : string) : M (option task) :=
  match cycles with
  | O => ret None
  | S n =>
      t ← Date_now;
      if t - dt >? taskExpirationMillis (cfg E)
      then throw (Error "Timed out")
      else
        timeout (pollMillis (cfg E)) ;;
        found ← try_catch
                  (files ← listFiles;
                   ret (head (List.filter (resolved taskId) (toTasks files))))
                  (fun _ => ret None);
        match found with
        | Some task => ret (Some task)
        | None => poll n dt taskId
        end
  end.

(** The [finally] block of [runRemoteTask]. *)
Definition cleanup (t : task) : M unit :=
  for_each [dir_in; dir_out] (fun d =>
    match task_slot t d with
    | Some s => for_each (JS.values s) (fun f => deleteFile (url f))
    | None => ret tt
    end).

(** The part of [runRemoteTask] after the loop: the result is
    [{ file: outFile, data: outData }]. *)
Definition receive (t : task) : M (string * string) :=
  sigUrl ← task_file_url t dir_out Sig;
  sigFile ← downloadFile sigUrl;
  signature ← readFileSync sigFile;
  unlinkSync sigFile ;;
  try_finally
    (dat ← task_file t dir_out Dat;
     match dat with
     | Some datf =>
         outFile ← downloadFile (url datf);
         outData ← readFileSync outFile;
         if negb (verify E outData signature (serverPublicKey (cfg E)))
         then throw (Error "Received a result with a bad signature")
         else ret (outFile, outData)
     | None =>
         err ← task_file t dir_out Err;
         match err with
         | Some errf =>
             errFile ← downloadFile (url errf);
             errData ← readFileSync errFile;
             unlinkSync errFile ;;
             if negb (verify E errData signature (serverPublicKey (cfg E)))
             then throw (Error "Received an error with a bad signature")
             else throw (Error errData)
         | None => throw (Error "No output or error file found")
         end
     end)
    (cleanup t).

(** The key set-up guarded by [runRemoteTask.initialized]. *)
Definition initialize : M unit :=
  done ← (fun w => (Normal (initialized w), w)) : M bool;
  if (done : bool) then ret tt
  else
    testSign (clientPrivateKey (cfg E)) (clientPublicKey (cfg E))
             (serverPublicKey (cfg E)) ;;
    ((fun w => (Normal tt, with_initialized w true)) : M unit).

(** [runRemoteTask(config, inputData)]; [taskId] is the value of
    [crypto.randomBytes(16).toString('hex')], [cycles] bounds the poll
    loop. *)
Definition runRemoteTask (cycles : nat) (inputData taskId : string)
    : M (option (string * string)) :=
  (if String.eqb (clientPrivateKey (cfg E)) ""
   then throw (Error "config.clientPrivateKey is empty")
   else if String.eqb (clientPublicKey (cfg E)) ""
   then throw (Error "config.clientPublicKey is empty")
   else if String.eqb (serverPublicKey (cfg E)) ""
   then throw (Error "config.serverPublicKey is empty")
   else if pollMillis (cfg E) =? 0
   then throw (Error "config.pollMillis is empty")
   else ret tt : M unit) ;;
  initialize ;;
  dt ← submit inputData taskId;
  found ← poll cycles dt taskId;
  match found with
  | Some t => r ← receive t; ret (Some r)
  | None => ret None
  end.

(** *** Worlds and conditions the properties are stated with *)

(** What a sweep that sent [DELETE] for [urls] did to the world. *)
Definition swept (urls : list string) (w w' : World) : Prop :=
  tmp w' = tmp w /\ retries w' = retries w /\ now w' = now w
  /\ initialized w' = initialized w
  /\ deletes (trace w') = deletes (trace w) ++ urls
  /\ puts (trace w') = puts (trace w)
  /\ execs (trace w') = execs (trace w)
  /\ (forall u, store w' !! u = None \/ store w' !! u = store w !! u)
  /\ (forall u, u ∉ urls -> store w' !! u = store w !! u)
  /\ (forall u, (forall w0, rejects E w0 (DELETE u) = true) ->
                store w' !! u = store w !! u)
  /\ ((forall w0 u, rejects E w0 (DELETE u) = false) ->
      forall u, u ∈ urls -> store w' !! u = None).

(** The world once [runTask] has downloaded both input objects, read the
    signature and removed its local copy. *)
Definition fetched (fd fs : file) (data sg : string) (w : World) : World :=
  with_tmp (log (Sent (GET (url fs)) true) (log (Sent (GET (url fd)) true) w))
           (delete (url fs) (<[url fs := sg]> (<[url fd := data]> (tmp w)))).

(** What every theorem about [runTask] assumes of the task and the world:
    the task record holds both input files, the store holds their objects,
    and the backend serves downloads. *)
Definition ready (t : task) (fd fs : file) (data sg : string) (w : World)
    : Prop :=
  (exists s, task_in t = Some s /\ JS.get s Dat = Some fd
             /\ JS.get s Sig = Some fs)
  /\ url fd <> url fs
  /\ store w !! url fd = Some data /\ store w !! url fs = Some sg
  /\ (forall w0 u, rejects E w0 (GET u) = false).

(** The world once [uploadTaskResult] has published the error text [msg]
    and its signature. *)
Definition published (t : task) (msg : string) (w : World) : World :=
  let errUrl := getTaskFileUrl (task_date t) (task_id t) dir_out Err in
  let sigUrl := getTaskFileUrl (task_date t) (task_id t) dir_out Sig in
  let signature := sign E msg (serverPrivateKey (cfg E)) in
  let w1 := log (Sent (PUT errUrl msg) true)
                (with_store w (<[errUrl := msg]> (store w))) in
  log (Sent (PUT sigUrl signature) true)
      (with_store w1 (<[sigUrl := signature]> (store w1))).

(** The error caught by [runTask] when the command run in [w] fails. *)
Definition failure (w : World) (inFile outFile : string) : exn :=
  let r := command E w inFile outFile in
  if exit_ok r then Error "Output file was not created"
  else Error (message r).

(** The world after the sleep and the listing of one cycle. *)
Definition after_cycle (w : World) : World :=
  (listFiles (timeout (pollMillis (cfg E)) w).2).2.

End Protocol.

(** The store holds no output signature for task [id]: no listing of it
    shows the task as resolved. *)
Definition unresolved (st : gmap string string) (id : string) : Prop :=
  forall u f, is_Some (st !! u) -> convertUrl u = Some f ->
              taskId f = id -> inout f = dir_out -> ext f <> Sig.

(** A toy environment for running the model: a signature is the payload
    followed by the key, a public key equals its private key, the backend
    accepts every request and the command greets its input. *)
Module Toy.
Definition toy_cfg : config :=
  mkConfig "ck" "ck" "sk" "sk" 5000 600000 2.

Definition toy_sign (data key : string) : string := data +:+ "/" +:+ key.

Definition toy_verify (data signature key : string) : bool :=
  String.eqb signature (toy_sign data key).

Definition accept_all (w : World) (r : request) : bool := false.

Definition reject_deletes (w : World) (r : request) : bool :=
  match r with DELETE _ => true | _ => false end.

(** The task [ab12] submitted at time 1000, as [toTasks] assembles it,
    and two stores that hold its input: one signed by the client, one
    signed with another key. *)
Definition in_dat : file := mkFile 1000 "ab12" dir_in Dat "1000-ab12.in.dat".
Definition in_sig : file := mkFile 1000 "ab12" dir_in Sig "1000-ab12.in.sig".

Definition submitted_task : task :=
  mkTask (Some [(Dat, in_dat); (Sig, in_sig)]) None 1000 "ab12".

Definition submitted_world : World :=
  mkWorld (<["1000-ab12.in.dat" := "alice"]>
             (<["1000-ab12.in.sig" := "alice/ck"]> ∅)) ∅ ∅ false 2000 [].

Definition forged_world : World :=
  mkWorld (<["1000-ab12.in.dat" := "alice"]>
             (<["1000-ab12.in.sig" := "alice/evil"]> ∅)) ∅ ∅ false 2000 [].

(** The same task once the server has published a signed error. *)
Definition out_err : file := mkFile 1000 "ab12" dir_out Err "1000-ab12.out.err".
Definition out_sig : file := mkFile 1000 "ab12" dir_out Sig "1000-ab12.out.sig".

Definition resolved_task : task :=
  mkTask (Some [(Dat, in_dat); (Sig, in_sig)])
         (Some [(Err, out_err); (Sig, out_sig)]) 1000 "ab12".

Definition resolved_world : World :=
  mkWorld (<["1000-ab12.in.dat" := "alice"]>
             (<["1000-ab12.in.sig" := "alice/ck"]>
                (<["1000-ab12.out.err" := "boom"]>
                   (<["1000-ab12.out.sig" := "boom/sk"]> ∅))))
          ∅ ∅ true 9000 [].

(** A configuration with an expiration window of 100 ms and a listing
    around the sweep threshold at time 1000: ages 201, 200 and 199. *)
Definition short_cfg : config := mkConfig "ck" "ck" "sk" "sk" 10 100 2.

Definition old_file : file := mkFile 799 "a" dir_in Dat "799-a.in.dat".
Definition edge_file : file := mkFile 800 "b" dir_in Dat "800-b.in.dat".
Definition young_file : file := mkFile 801 "c" dir_in Dat "801-c.in.dat".

Definition aged_world : World :=
  mkWorld (<["799-a.in.dat" := "x"]> (<["800-b.in.dat" := "y"]>
             (<["801-c.in.dat" := "z"]> ∅))) ∅ ∅ false 1000 [].

Definition hello (w : World) (inFile outFile : string) : cmd_result :=
  match tmp w !! inFile with
  | Some name => mkCmd true (Some ("Hello, " +:+ name +:+ "!")) ""
  | None => mkCmd false None "Command failed"
  end.

Definition failing (w : World) (inFile outFile : string) : cmd_result :=
  mkCmd false None "Command failed".

Definition env (c : config) (reject : World -> request -> bool)
    (cmd : World -> string -> string -> cmd_result) : Env :=
  mkEnv c toy_sign toy_verify reject cmd.

Definition empty_world (n : Z) : World := mkWorld ∅ ∅ ∅ false n [].

(** A listing with a resolved task [a], a pending task [c] submitted
    later, and a task [b] whose signature has not been written yet. *)
Definition listing : list file :=
  convertUrls ["30-c.in.sig"; "20-b.in.dat"; "10-a.in.sig"; "10-a.out.sig";
               "30-c.in.dat"; "10-a.out.err"; "10-a.in.dat"; "notes.txt"].

(** The same objects listed in the opposite order. *)
Definition listing' : list file := reverse listing.

(** A store that holds the objects of [listing], at a time when none of
    them is expired, and what [listFiles] returns for it. *)
Definition busy_world : World :=
  mkWorld (list_to_map ((fun f => (url f, "x")) <$> listing))
          ∅ ∅ false 1000 [].

Definition busy_files : list file :=
  match (listFiles (env toy_cfg accept_all hello) busy_world).1 with
  | Normal files => files
  | Throw _ => []
  end.
End Toy.

(** *** Conditions on whole computations *)

(** Every run of [c] relates the world before to the world after by [R];
    every exception [c] throws satisfies [P]. *)
Definition keeps {A} (R : World -> World -> Prop) (c : M A) : Prop :=
  forall w r w', c w = (r, w') -> R w w'.

Definition raises {A} (P : exn -> Prop) (c : M A) : Prop :=
  forall w e w', c w = (Throw e, w') -> P e.

(** An exception of the transport or of the local file system, as opposed
    to one raised by the code itself. *)
Definition io_error (e : exn) : Prop :=
  match e with
  | HttpError _ | FsError _ => True
  | Error _ | TypeError => False
  end.

(** Between [w] and [w'] the clock stands still, the store changes at most
    at the names in [names], and the retry table at most at [id]. *)
Definition touches_only (names : string -> Prop) (id : string)
    (w w' : World) : Prop :=
  now w' = now w
  /\ (forall u, ~ names u -> store w' !! u = store w !! u)
  /\ (forall id', id' <> id -> retries w' !! id' = retries w !! id').

(** The names of the output objects of task [t]. *)
Definition output_name (t : task) (u : string) : Prop :=
  exists k, u = getTaskFileUrl (task_date t) (task_id t) dir_out k.

(** [u] names an object past the sweep threshold at time [T]; [u] names an
    object of task [id]. *)
Definition expired_name (E : Env) (T : Z) (u : string) : Prop :=
  exists f, convertUrl u = Some f /\ expired E T f = true.

Definition task_name (id u : string) : Prop :=
  exists f, convertUrl u = Some f /\ taskId f = id.

(** Between [w] and [w'] the clock does not go back, and every [DELETE]
    sent names an object in [own] or one that is expired at the time of
    [w']. *)
Definition deletes_only (E : Env) (own : string -> Prop) (w w' : World)
    : Prop :=
  now w <= now w'
  /\ exists ds, deletes (trace w') = deletes (trace w) ++ ds
                /\ forall u, u ∈ ds -> own u \/ expired_name E (now w') u.

(** One schedule of the two processes: the client submits, the server runs
    one iteration of its loop, and the client then polls and receives (the
    part of [runRemoteTask] that follows the key set-up, with the server's
    iteration falling between the submission and the first poll). *)
Definition exchange (E : Env) (cycles : nat) (inputData taskId : string)
    : M (option (string * string)) :=
  dt ← submit E inputData taskId;
  server_iteration E ;;
  found ← poll E cycles dt taskId;
  match found with
  | Some t => r ← receive E t; ret (Some r)
  | None => ret None
  end.

(** ** Part II. Properties *)

(** *** Object naming codec *)

Section CodecFacts.

Lemma append_cons c a b : String c a +:+ b = String c (a +:+ b).
Proof. reflexivity. Qed.

Lemma append_nil b : "" +:+ b = b.
Proof. reflexivity. Qed.

Lemma span_spec p s a b :
  span p s = (a, b) -> s = a +:+ b /\ all_chars p a = true.
Proof.
  revert a b. induction s as [|c r IH]; simpl; intros a b Hs.
  - inversion Hs. auto.
  - destruct (p c) eqn:Hc.
    + destruct (span p r) as [a' b'] eqn:Hr. inversion Hs; subst.
      destruct (IH a' b eq_refl) as [-> Ha]. simpl. rewrite Hc, Ha. auto.
    + inversion Hs; subst. auto.
Qed.

(** A run of [p]-characters followed by a character outside [p] (or by
    nothing) is consumed whole. *)
Lemma span_app p a b :
  all_chars p a = true ->
  match b with EmptyString => True | String c _ => p c = false end ->
  span p (a +:+ b) = (a, b).
Proof.
  intros Ha Hb. induction a as [|c r IH]; simpl in *.
  - destruct b as [|c r]; [reflexivity|]. simpl. now rewrite Hb.
  - apply andb_true_iff in Ha as [Hc Hr]. rewrite Hc, (IH Hr). reflexivity.
Qed.

Lemma string_of_uint_digits d :
  all_chars is_digit (NilEmpty.string_of_uint d) = true.
Proof. induction d; simpl; auto. Qed.

Lemma number_toString_nonneg t :
  0 <= t ->
  exists d, JS.number_toString t = NilEmpty.string_of_uint d
            /\ d <> Nil /\ Z.of_uint d = t.
Proof.
  intros Ht. unfold JS.number_toString. destruct t as [|p|p]; [| |lia].
  - exists (D0 Nil). simpl. repeat split; congruence.
  - exists (Pos.to_uint p). simpl.
    pose proof (DecimalPos.Unsigned.to_uint_nonnil p) as Hn.
    repeat split; auto.
    + unfold NilZero.string_of_uint. destruct (Pos.to_uint p); congruence.
    + unfold Z.of_uint. now rewrite DecimalPos.Unsigned.of_to.
Qed.

Lemma number_toString_digits t :
  0 <= t ->
  all_chars is_digit (JS.number_toString t) = true
  /\ JS.number_toString t <> EmptyString
  /\ JS.digits_value (JS.number_toString t) = t.
Proof.
  intros Ht. destruct (number_toString_nonneg t Ht) as (d & -> & Hd & Hv).
  repeat split.
  - apply string_of_uint_digits.
  - destruct d; simpl; congruence.
  - unfold JS.digits_value. now rewrite NilEmpty.usu.
Qed.

Lemma match_tail_spec s io ex :
  match_tail s = Some (io, ex) <-> s = inout_str io +:+ "." +:+ ext_str ex.
Proof.
  unfold match_tail. split.
  - repeat match goal with
           | |- context [String.eqb s ?x] =>
               destruct (String.eqb_spec s x) as [->|_];
               [intros [= <- <-]; reflexivity|]
           end.
    discriminate.
  - intros ->. destruct io, ex; reflexivity.
Qed.

Lemma convertUrl_fields ds id io ex :
  ds <> EmptyString -> all_chars is_digit ds = true ->
  id <> EmptyString -> all_chars is_word id = true ->
  let u := ds +:+ "-" +:+ id +:+ "." +:+ inout_str io +:+ "." +:+ ext_str ex in
  convertUrl u = Some (mkFile (JS.digits_value ds) id io ex u).
Proof.
  intros Hds Hd Hid Hw u. unfold convertUrl. subst u.
  rewrite (span_app is_digit ds) by (auto; reflexivity).
  destruct ds as [|c ds']; [congruence|].
  rewrite (append_cons "-" "" _), append_nil.
  rewrite (span_app is_word id) by (auto; reflexivity).
  destruct id as [|c' id']; [congruence|].
  rewrite (append_cons "." "" _), append_nil.
  rewrite (proj2 (match_tail_spec _ io ex) eq_refl). reflexivity.
Qed.

(** What a successful match says of the name and of the decoded file. *)
Lemma convertUrl_inv u f :
  convertUrl u = Some f ->
  exists ds id io ex,
    u = ds +:+ "-" +:+ id +:+ "." +:+ inout_str io +:+ "." +:+ ext_str ex
    /\ ds <> EmptyString /\ all_chars is_digit ds = true
    /\ id <> EmptyString /\ all_chars is_word id = true
    /\ f = mkFile (JS.digits_value ds) id io ex u.
Proof.
  unfold convertUrl. destruct (span is_digit u) as [ds r1] eqn:H1.
  destruct ds as [|c ds']; [discriminate|].
  destruct r1 as [|c1 r2]; [discriminate|].
  destruct (Ascii.eqb_spec c1 "-") as [->|Hne].
  2:{ destruct c1 as [[] [] [] [] [] [] [] []]; try discriminate.
      congruence. }
  destruct (span is_word r2) as [id r3] eqn:H2.
  destruct id as [|c' id']; [discriminate|].
  destruct r3 as [|c3 r4]; [discriminate|].
  destruct (Ascii.eqb_spec c3 ".") as [->|Hne].
  2:{ destruct c3 as [[] [] [] [] [] [] [] []]; try discriminate.
      congruence. }
  destruct (match_tail r4) as [[io ex]|] eqn:H3; [|discriminate].
  intros [= <-].
  apply span_spec in H1 as [-> Hd]. apply span_spec in H2 as [-> Hw].
  apply match_tail_spec in H3 as ->.
  exists (String c ds'), (String c' id'), io, ex.
  repeat split; auto; congruence.
Qed.

(** The decoder accepts exactly the names of the grammar. *)
Lemma convertUrl_matches u :
  is_Some (convertUrl u) <-> matches_grammar u.
Proof.
  split.
  - intros [f Hf]. apply convertUrl_inv in Hf
      as (ds & id & io & ex & Hu & Hds & Hd & Hid & Hw & _).
    exists ds, id, io, ex. auto.
  - intros (ds & id & io & ex & -> & Hds & Hd & Hid & Hw).
    rewrite convertUrl_fields by assumption. eauto.
Qed.

Lemma convertUrl_getTaskFileUrl t id io ex :
  0 <= t -> word_token id = true ->
  convertUrl (getTaskFileUrl t id io ex)
  = Some (mkFile t id io ex (getTaskFileUrl t id io ex)).
Proof.
  intros Ht Hid. unfold word_token in Hid.
  apply andb_true_iff in Hid as [Hne Hw].
  destruct (number_toString_digits t Ht) as (Hd & Hn & Hv).
  unfold getTaskFileUrl.
  rewrite convertUrl_fields; auto.
  + now rewrite Hv.
  + intros ->. discriminate.
Qed.

Lemma convertUrl_url u f : convertUrl u = Some f -> url f = u.
Proof. now intros (ds & id & io & ex & _ & _ & _ & _ & _ & ->)%convertUrl_inv. Qed.

(** A decoded file has a non-negative date and a word token as task id:
    encoding these two fields again gives a name of the grammar. *)
Lemma convertUrl_valid u f :
  convertUrl u = Some f -> 0 <= date f /\ word_token (taskId f) = true.
Proof.
  intros (ds & id & io & ex & _ & _ & _ & Hid & Hw & ->)%convertUrl_inv.
  simpl. split.
  - unfold JS.digits_value.
    destruct (NilEmpty.uint_of_string ds); [|lia]. unfold Z.of_uint. lia.
  - unfold word_token. rewrite Hw. now destruct id.
Qed.

End CodecFacts.

(** C6 (object naming codec).  For every timestamp in epoch milliseconds,
    every task id that is a token of word characters, every direction and
    every kind, decoding the name built by the encoder gives back exactly
    the four fields; and a name outside the grammar
    [{epochMillis}-{taskId}.{in|out}.{dat|sig|err}] decodes to nothing. *)
Theorem codec_round_trip_and_rejection :
  (forall (epochMillis : N) id io ex,
      word_token id = true ->
      let t := Z.of_N epochMillis in
      convertUrl (getTaskFileUrl t id io ex)
      = Some (mkFile t id io ex (getTaskFileUrl t id io ex)))
  /\ (forall u, ~ matches_grammar u -> convertUrl u = None).
Proof.
  split.
  - intros n id io ex Hid t. apply convertUrl_getTaskFileUrl; [lia|exact Hid].
  - intros u Hu. destruct (convertUrl u) eqn:Hc; [|reflexivity].
    exfalso. apply Hu, convertUrl_matches. eauto.
Qed.

Lemma codec_round_trip_and_rejection_witness :
  convertUrl (getTaskFileUrl 1604500000000 "9f3ab2" dir_out Err)
  = Some (mkFile 1604500000000 "9f3ab2" dir_out Err
                 "1604500000000-9f3ab2.out.err")
  /\ convertUrl "index.html" = None.
Proof.
  split.
  - apply (proj1 codec_round_trip_and_rejection 1604500000000%N "9f3ab2").
    reflexivity.
  - apply (proj2 codec_round_trip_and_rejection).
    intros Hm. apply convertUrl_matches in Hm. destruct Hm as [f Hf].
    vm_compute in Hf. discriminate.
Defined.

(** *** JavaScript objects and sorting *)

Section ObjFacts.
Context {K V : Type} `{EqDecision K}.
Implicit Types (o : list (K * V)) (k : K) (v : V).

Lemma get_set o k v k' :
  JS.get (JS.set o k v) k' = if decide (k' = k) then Some v else JS.get o k'.
Proof.
  induction o as [|[k0 v0] r IH]; simpl.
  - destruct (decide (k' = k)); reflexivity.
  - destruct (decide (k = k0)) as [->|Hne]; simpl.
    + destruct (decide (k' = k0)); reflexivity.
    + rewrite IH. destruct (decide (k' = k0)) as [->|]; [|reflexivity].
      destruct (decide (k0 = k)); congruence.
Qed.

Lemma set_keys o k v k' :
  k' ∈ (JS.set o k v).*1 <-> k' = k \/ k' ∈ o.*1.
Proof.
  induction o as [|[k0 v0] r IH]; simpl.
  - rewrite list_elem_of_singleton, elem_of_nil. tauto.
  - destruct (decide (k = k0)) as [->|Hne]; simpl;
      rewrite !elem_of_cons; [|rewrite IH]; tauto.
Qed.

Lemma set_NoDup o k v : NoDup o.*1 -> NoDup (JS.set o k v).*1.
Proof.
  induction o as [|[k0 v0] r IH]; simpl; intros Hnd.
  - apply NoDup_singleton.
  - apply NoDup_cons in Hnd as [Hk0 Hr].
    destruct (decide (k = k0)) as [->|Hne]; simpl.
    + apply NoDup_cons; auto.
    + apply NoDup_cons. split; [|auto].
      rewrite set_keys. intros [->|?]; auto.
Qed.

Lemma get_Some_elem_of o k v : JS.get o k = Some v -> (k, v) ∈ o.
Proof.
  induction o as [|[k0 v0] r IH]; simpl; [discriminate|].
  destruct (decide (k = k0)) as [->|Hne].
  - intros [= ->]. apply list_elem_of_here.
  - intros Hg. apply list_elem_of_further; auto.
Qed.

Lemma elem_of_get o k v : NoDup o.*1 -> (k, v) ∈ o -> JS.get o k = Some v.
Proof.
  induction o as [|[k0 v0] r IH]; simpl; intros Hnd Hin.
  - inversion Hin.
  - apply NoDup_cons in Hnd as [Hk0 Hr].
    apply elem_of_cons in Hin as [[= -> ->]|Hin].
    + destruct (decide (k0 = k0)); congruence.
    + destruct (decide (k = k0)) as [->|Hne]; [|auto].
      exfalso. apply Hk0. apply list_elem_of_fmap. exists (k0, v). auto.
Qed.
End ObjFacts.

Section SortFacts.
Context {A : Type} (key : A -> Z).
Implicit Types (l : list A).

Lemma insert_sorted_perm x l : JS.insert_sorted key x l ≡ₚ x :: l.
Proof.
  induction l as [|y r IH]; simpl; [reflexivity|].
  destruct (key x <=? key y); [reflexivity|].
  rewrite IH. apply Permutation_swap.
Qed.

Lemma sort_perm l : JS.sort key l ≡ₚ l.
Proof.
  induction l as [|x r IH]; simpl; [reflexivity|].
  unfold JS.sort in *. simpl. now rewrite insert_sorted_perm, IH.
Qed.

Lemma insert_sorted_sorted x l :
  StronglySorted (JS.key_le key) l -> StronglySorted (JS.key_le key) (JS.insert_sorted key x l).
Proof.
  induction 1 as [|y r Hr IH Hy]; simpl.
  - repeat constructor.
  - destruct (Z.leb_spec (key x) (key y)) as [Hle|Hgt].
    + constructor; [constructor; auto|].
      constructor; [exact Hle|].
      eapply Forall_impl; [exact Hy|]. unfold JS.key_le. intros; lia.
    + constructor; [exact IH|].
      rewrite insert_sorted_perm. constructor; [unfold JS.key_le; lia|exact Hy].
Qed.

Lemma sort_sorted l : StronglySorted (JS.key_le key) (JS.sort key l).
Proof.
  induction l as [|x r IH]; [constructor|].
  apply insert_sorted_sorted, IH.
Qed.

Lemma sorted_lookup_le l (i j : nat) a b :
  StronglySorted (JS.key_le key) l -> (i < j)%nat ->
  l !! i = Some a -> l !! j = Some b -> key a <= key b.
Proof.
  intros Hs. revert i j. induction Hs as [|y r Hr IH Hy]; intros i j Hij Hi Hj.
  - discriminate.
  - destruct j as [|j]; [lia|]. destruct i as [|i]; simpl in *.
    + injection Hi as ->. rewrite Forall_forall in Hy.
      apply Hy. eapply list_elem_of_lookup_2; eauto.
    + eapply (IH i j); eauto; lia.
Qed.

(** In a sorted array an element with a strictly smaller key comes
    first. *)
Lemma sorted_lookup_lt l (i j : nat) a b :
  StronglySorted (JS.key_le key) l ->
  l !! i = Some a -> l !! j = Some b -> key a < key b -> (i < j)%nat.
Proof.
  intros Hs Hi Hj Hlt.
  destruct (Nat.lt_trichotomy i j) as [?|[->|Hji]]; [assumption| |].
  - rewrite Hi in Hj. injection Hj as ->. lia.
  - pose proof (sorted_lookup_le l j i b a Hs Hji Hj Hi). lia.
Qed.
End SortFacts.

Lemma filter_partition_perm {A} (p : A -> bool) (l : list A) :
  List.filter p l ++ List.filter (fun x => negb (p x)) l ≡ₚ l.
Proof.
  induction l as [|x r IH]; simpl; [reflexivity|].
  destruct (p x); simpl.
  - now rewrite IH.
  - rewrite <- Permutation_middle. now rewrite IH.
Qed.

Lemma filter_perm {A} (p : A -> bool) (l l' : list A) :
  l ≡ₚ l' -> List.filter p l ≡ₚ List.filter p l'.
Proof.
  induction 1 as [|x l l' _ IH|x y l|l l' l'' _ IH1 _ IH2]; simpl.
  - reflexivity.
  - destruct (p x); [now rewrite IH|exact IH].
  - destruct (p x), (p y); try reflexivity. apply Permutation_swap.
  - now rewrite IH1.
Qed.

Lemma values_ordered_perm {V} (o : list (string * V)) :
  JS.values_ordered o ≡ₚ o.*2.
Proof.
  unfold JS.values_ordered.
  change (map snd ?l) with (l.*2).
  rewrite sort_perm, <- fmap_app. now rewrite filter_partition_perm.
Qed.

(** *** Task assembler *)

Section AssemblerFacts.
Implicit Types (o : list (string * group)) (files : list file).

Lemma group_get_set g d s d' :
  group_get (group_set g d s) d' = if decide (d' = d) then Some s else group_get g d'.
Proof. destruct d, d'; reflexivity. Qed.

Lemma side_add_file o f id d :
  side_of (add_file o f) id d
  = if decide (id = taskId f /\ d = inout f)
    then Some (JS.set (default [] (side_of o (taskId f) (inout f))) (ext f) f)
    else side_of o id d.
Proof.
  unfold side_of, add_file. rewrite get_set.
  destruct (decide (id = taskId f)) as [->|Hid]; simpl.
  - rewrite group_get_set.
    destruct (decide (d = inout f)) as [->|Hd].
    + rewrite decide_True by auto.
      destruct (JS.get o (taskId f)); [reflexivity|].
      simpl. now destruct (inout f).
    + rewrite decide_False by tauto.
      destruct (JS.get o (taskId f)); [reflexivity|]. now destruct d.
  - rewrite decide_False by tauto. reflexivity.
Qed.

Lemma slot_add_file o f id d k :
  slot_of (add_file o f) id d k
  = if in_slot id d k f then Some f else slot_of o id d k.
Proof.
  unfold slot_of. rewrite side_add_file. unfold in_slot.
  destruct (decide (id = taskId f /\ d = inout f)) as [[-> ->]|Hne]; simpl.
  - rewrite !bool_decide_eq_true_2 by reflexivity. simpl.
    rewrite get_set.
    destruct (decide (k = ext f)) as [->|Hk].
    + now rewrite bool_decide_eq_true_2.
    + rewrite bool_decide_eq_false_2 by congruence.
      destruct (side_of o (taskId f) (inout f)); reflexivity.
  - destruct (bool_decide_reflect (taskId f = id)) as [<-|?]; [|reflexivity].
    destruct (bool_decide_reflect (inout f = d)) as [<-|?]; [|reflexivity].
    tauto.
Qed.

Lemma last_listed_snoc files f id d k :
  last_listed (files ++ [f]) id d k
  = if in_slot id d k f then Some f else last_listed files id d k.
Proof.
  unfold last_listed. rewrite List.filter_app. simpl.
  destruct (in_slot id d k f).
  - apply last_snoc.
  - now rewrite app_nil_r.
Qed.

(** A slot of the assembled object holds the last-listed file of that
    slot. *)
Lemma slot_foldl files id d k :
  slot_of (foldl add_file [] files) id d k = last_listed files id d k.
Proof.
  induction files as [|f files IH] using rev_ind; [reflexivity|].
  now rewrite foldl_snoc, slot_add_file, last_listed_snoc, IH.
Qed.

(** A direction is present in a group exactly when some file of that
    task and direction was listed. *)
Lemma side_foldl files id d :
  is_Some (side_of (foldl add_file [] files) id d)
  <-> exists f, f ∈ files /\ taskId f = id /\ inout f = d.
Proof.
  induction files as [|f files IH] using rev_ind.
  - split; [intros [? [=]]|intros (f & Hf & _); inversion Hf].
  - rewrite foldl_snoc, side_add_file.
    destruct (decide (id = taskId f /\ d = inout f)) as [[-> ->]|Hne].
    + split; [|eauto]. intros _. exists f. rewrite elem_of_app, list_elem_of_singleton. auto.
    + rewrite IH. split.
      * intros (f' & Hf' & ? & ?). exists f'. rewrite elem_of_app. auto.
      * intros (f' & Hf' & ? & ?).
        apply elem_of_app in Hf' as [Hf'|Hf']; [eauto|].
        apply list_elem_of_singleton in Hf' as ->. exfalso. apply Hne. auto.
Qed.

Lemma add_file_NoDup o f : NoDup o.*1 -> NoDup (add_file o f).*1.
Proof. apply set_NoDup. Qed.

Lemma foldl_NoDup files : NoDup (foldl add_file [] files).*1.
Proof.
  induction files as [|f files IH] using rev_ind; [constructor|].
  rewrite foldl_snoc. now apply add_file_NoDup.
Qed.

Lemma last_listed_Some files id d k f :
  last_listed files id d k = Some f ->
  f ∈ files /\ taskId f = id /\ inout f = d /\ ext f = k.
Proof.
  unfold last_listed. intros Hl. apply last_Some_elem_of in Hl.
  apply list_elem_of_In, filter_In in Hl as [Hin Hp].
  apply list_elem_of_In in Hin. unfold in_slot in Hp.
  apply andb_true_iff in Hp as [Hp H3]. apply andb_true_iff in Hp as [H1 H2].
  apply bool_decide_eq_true_1 in H1, H2, H3. auto.
Qed.

Lemma last_listed_is_Some files id d k :
  has_object files id d k <-> is_Some (last_listed files id d k).
Proof.
  split.
  - intros (f & Hin & H1 & H2 & H3).
    assert (In f (List.filter (in_slot id d k) files)) as Hf.
    { apply filter_In. split; [now apply list_elem_of_In|].
      unfold in_slot. now rewrite !bool_decide_eq_true_2. }
    unfold last_listed.
    destruct (List.filter (in_slot id d k) files) as [|x r] using rev_ind;
      [inversion Hf|]. rewrite last_snoc. eauto.
  - intros [f Hf]. exists f. now apply last_listed_Some in Hf.
Qed.

Lemma get_None {V} (o' : list (string * V)) k : k ∉ o'.*1 -> JS.get o' k = None.
Proof.
  intros Hk. destruct (JS.get o' k) as [v|] eqn:Hg; [|reflexivity].
  exfalso. apply Hk. apply get_Some_elem_of in Hg.
  apply list_elem_of_fmap. exists (k, v). auto.
Qed.

(** What [filter] and [map] make of the group of task [id]. *)
Lemma to_task_foldl files id g t :
  JS.get (foldl add_file [] files) id = Some g ->
  to_task g = Some t ->
  exists sg, last_listed files id dir_in Sig = Some sg
             /\ is_Some (last_listed files id dir_in Dat)
             /\ t = mkTask (g_in g) (g_out g) (date sg) (taskId sg).
Proof.
  intros Hg Ht. unfold to_task in Ht.
  destruct (g_in g) as [s|] eqn:Hin; [|discriminate].
  destruct (JS.get s Sig) as [sg|] eqn:Hs; [|discriminate].
  destruct (JS.get s Dat) as [dt|] eqn:Hd; [|discriminate].
  injection Ht as <-. exists sg.
  rewrite <- !slot_foldl. unfold slot_of, side_of. rewrite Hg. simpl.
  rewrite Hin. simpl. rewrite Hs, Hd. eauto.
Qed.

Lemma to_task_complete files id :
  has_object files id dir_in Dat -> has_object files id dir_in Sig ->
  exists g t, JS.get (foldl add_file [] files) id = Some g
              /\ to_task g = Some t.
Proof.
  intros [dt Hd]%last_listed_is_Some [sg Hs]%last_listed_is_Some.
  rewrite <- slot_foldl in Hd, Hs. unfold slot_of, side_of in Hd, Hs.
  destruct (JS.get (foldl add_file [] files) id) as [g|]; [|discriminate].
  simpl in Hd, Hs. exists g. unfold to_task.
  destruct (g_in g) as [s|]; [|discriminate]. simpl in Hd, Hs.
  rewrite Hs, Hd. eauto.
Qed.

Lemma task_id_key files id g t :
  JS.get (foldl add_file [] files) id = Some g ->
  to_task g = Some t -> task_id t = id.
Proof.
  intros Hg Ht. destruct (to_task_foldl _ _ _ _ Hg Ht) as (sg & Hs & _ & ->).
  apply last_listed_Some in Hs. simpl. tauto.
Qed.

Lemma toTasks_perm files :
  toTasks files ≡ₚ omap to_task (foldl add_file [] files).*2.
Proof.
  unfold toTasks. rewrite sort_perm. now rewrite values_ordered_perm.
Qed.

Lemma elem_of_toTasks files t :
  t ∈ toTasks files
  <-> exists id g, JS.get (foldl add_file [] files) id = Some g
                   /\ to_task g = Some t.
Proof.
  rewrite toTasks_perm, list_elem_of_omap. split.
  - intros (g & Hg & Ht). apply list_elem_of_fmap in Hg as ([k g'] & -> & Hin).
    exists k, g'. split; [|exact Ht].
    apply elem_of_get; [apply foldl_NoDup|exact Hin].
  - intros (id & g & Hg & Ht). exists g. split; [|exact Ht].
    apply list_elem_of_fmap. exists (id, g). split; [reflexivity|].
    now apply get_Some_elem_of.
Qed.

Lemma filter_id_keys o id :
  NoDup o.*1 ->
  (forall k g t, (k, g) ∈ o -> to_task g = Some t -> task_id t = k) ->
  List.filter (has_id id) (omap to_task o.*2)
  = match JS.get o id ≫= to_task with Some t => [t] | None => [] end.
Proof.
  induction o as [|[k0 g0] r IH]; simpl; intros Hnd Hkey; [reflexivity|].
  apply NoDup_cons in Hnd as [Hk0 Hr].
  assert (forall k g t, (k, g) ∈ r -> to_task g = Some t -> task_id t = k)
    as Hkey' by (intros k g t Hin; apply Hkey; now apply list_elem_of_further).
  specialize (IH Hr Hkey').
  destruct (decide (id = k0)) as [->|Hne]; simpl.
  - rewrite (get_None r k0 Hk0) in IH. simpl in IH.
    destruct (to_task g0) as [t|] eqn:Ht; simpl; [|exact IH].
    unfold has_id at 1.
    rewrite bool_decide_eq_true_2
      by (eapply Hkey; [apply list_elem_of_here|exact Ht]).
    f_equal. exact IH.
  - destruct (to_task g0) as [t|] eqn:Ht; simpl; [|exact IH].
    unfold has_id at 1. rewrite bool_decide_eq_false_2; [exact IH|].
    erewrite Hkey; [| apply list_elem_of_here | exact Ht]. congruence.
Qed.

(** The tasks of one id in the assembler's output: at most one, built
    from the group of that id. *)
Lemma toTasks_filter_id files id :
  List.filter (has_id id) (toTasks files)
  = match JS.get (foldl add_file [] files) id ≫= to_task with
    | Some t => [t]
    | None => []
    end.
Proof.
  pose proof (filter_perm (has_id id) _ _ (toTasks_perm files)) as Hp.
  rewrite filter_id_keys in Hp.
  - destruct (JS.get (foldl add_file [] files) id ≫= to_task).
    + now apply Permutation_singleton_r.
    + now apply Permutation_nil_r.
  - apply foldl_NoDup.
  - intros k g t Hin Ht. eapply task_id_key; [|exact Ht].
    apply elem_of_get; [apply foldl_NoDup|exact Hin].
Qed.

Lemma toTasks_ids files id :
  id ∈ task_id <$> toTasks files
  <-> has_object files id dir_in Dat /\ has_object files id dir_in Sig.
Proof.
  rewrite list_elem_of_fmap. split.
  - intros (t & -> & Ht). apply elem_of_toTasks in Ht as (id & g & Hg & Ht).
    rewrite (task_id_key _ _ _ _ Hg Ht).
    destruct (to_task_foldl _ _ _ _ Hg Ht) as (sg & Hs & Hd & _).
    rewrite !last_listed_is_Some. eauto.
  - intros [Hd Hs]. destruct (to_task_complete _ _ Hd Hs) as (g & t & Hg & Ht).
    exists t. split; [symmetry; eapply task_id_key; eauto|].
    apply elem_of_toTasks. eauto.
Qed.

(** A task whose input data object is not listed is not assembled: the
    client finds a resolved task only while both input objects are still
    in the store. *)
Lemma toTasks_needs_input files id :
  ~ has_object files id dir_in Dat ->
  forall t, t ∈ toTasks files -> task_id t <> id.
Proof.
  intros Hno t Ht <-. apply Hno.
  apply (toTasks_ids files (task_id t)). apply list_elem_of_fmap. eauto.
Qed.

Lemma ids_NoDup o :
  NoDup o.*1 ->
  (forall k g t, (k, g) ∈ o -> to_task g = Some t -> task_id t = k) ->
  NoDup (task_id <$> omap to_task o.*2).
Proof.
  induction o as [|[k0 g0] r IH]; simpl; intros Hnd Hkey; [constructor|].
  apply NoDup_cons in Hnd as [Hk0 Hr].
  assert (forall k g t, (k, g) ∈ r -> to_task g = Some t -> task_id t = k)
    as Hkey' by (intros k g t Hin; apply Hkey; now apply list_elem_of_further).
  destruct (to_task g0) as [t|] eqn:Ht; simpl; [|auto].
  apply NoDup_cons. split; [|auto].
  rewrite (Hkey k0 g0 t (list_elem_of_here _ _) Ht).
  intros Hin. apply Hk0.
  apply list_elem_of_fmap in Hin as (t' & Hid & Hin).
  apply list_elem_of_omap in Hin as (g' & Hg' & Ht').
  apply list_elem_of_fmap in Hg' as ([k' g''] & -> & Hin').
  apply list_elem_of_fmap. exists (k', g''). split; [|exact Hin'].
  simpl. rewrite Hid. eapply Hkey'; eauto.
Qed.

Lemma toTasks_ids_NoDup files : NoDup (task_id <$> toTasks files).
Proof.
  rewrite toTasks_perm. apply ids_NoDup; [apply foldl_NoDup|].
  intros k g t Hin Ht. eapply task_id_key; [|exact Ht].
  apply elem_of_get; [apply foldl_NoDup|exact Hin].
Qed.

Lemma has_object_perm files files' id d k :
  files ≡ₚ files' -> has_object files id d k -> has_object files' id d k.
Proof.
  intros Hp (f & Hin & H). exists f. split; [|exact H]. now rewrite <- Hp.
Qed.
End AssemblerFacts.





(** *** Garbage collector *)

Section SweepFacts.
Variable E : Env.

Lemma bind_unfold {A B} (c : M A) (k : A -> M B) w :
  (c ≫= k) w
  = match c w with
    | (Normal a, w') => k a w'
    | (Throw e, w') => (Throw e, w')
    end.
Proof. reflexivity. Qed.

Lemma swept_nil w : swept E [] w w.
Proof.
  unfold swept. rewrite app_nil_r. repeat split; auto.
  intros _ u Hu. inversion Hu.
Qed.

Lemma deletes_cons_delete u b t : deletes (Sent (DELETE u) b :: t) = deletes t ++ [u].
Proof. unfold deletes. simpl. now rewrite reverse_cons. Qed.

(** One guarded [deleteFile] followed by the rest of the sweep. *)
Lemma swept_cons u urls w w1 w' :
  (w1 = log (Sent (DELETE u) false) w /\ rejects E w (DELETE u) = true
   \/ w1 = log (Sent (DELETE u) true) (with_store w (delete u (store w)))
      /\ rejects E w (DELETE u) = false) ->
  swept E urls w1 w' -> swept E (u :: urls) w w'.
Proof.
  intros Hw1 (Ht & Hr & Hn & Hi & Hd & Hp & He & Hmono & Hframe & Hrej & Hacc).
  assert (tmp w1 = tmp w /\ retries w1 = retries w /\ now w1 = now w
          /\ initialized w1 = initialized w
          /\ deletes (trace w1) = deletes (trace w) ++ [u]
          /\ puts (trace w1) = puts (trace w)
          /\ execs (trace w1) = execs (trace w)) as (Ht1 & Hr1 & Hn1 & Hi1 & Hd1 & Hp1 & He1).
  { destruct Hw1 as [[-> _]|[-> _]]; simpl; rewrite deletes_cons_delete; auto 10. }
  assert (forall v, store w1 !! v = None \/ store w1 !! v = store w !! v) as Hm1.
  { intros v. destruct Hw1 as [[-> _]|[-> _]]; simpl; [auto|].
    destruct (decide (u = v)) as [->|Hne].
    - left. apply lookup_delete_eq.
    - right. now apply lookup_delete_ne. }
  unfold swept. rewrite Ht, Hr, Hn, Hi, Hd, Hp, He, Hd1, <- app_assoc.
  repeat split; auto.
  - intros v. destruct (Hmono v) as [-> | ->]; auto.
  - intros v Hv. apply not_elem_of_cons in Hv as [Hne Hv].
    rewrite (Hframe v Hv).
    destruct Hw1 as [[-> _]|[-> _]]; simpl; [auto|].
    now apply lookup_delete_ne.
  - intros v Hv. rewrite (Hrej v Hv).
    destruct Hw1 as [[-> _]|[-> Hacc1]]; simpl; [auto|].
    destruct (decide (u = v)) as [->|Hne]; [|now apply lookup_delete_ne].
    rewrite Hv in Hacc1. discriminate.
  - intros Hall v Hv. apply elem_of_cons in Hv as [->|Hv]; [|now apply Hacc].
    destruct (Hmono u) as [-> | ->]; [reflexivity|].
    destruct Hw1 as [[-> Hr1']|[-> _]]; simpl.
    + rewrite Hall in Hr1'. discriminate.
    + apply lookup_delete_eq.
Qed.

Lemma sweep_spec expirationDate files res w :
  exists w',
    sweep E expirationDate files res w
    = (Normal (res ++ List.filter (fun f => negb (date f <? expirationDate)) files), w')
    /\ swept E (url <$> List.filter (fun f => date f <? expirationDate) files) w w'.
Proof.
  revert res w. induction files as [|f r IH]; intros res w; simpl.
  - exists w. rewrite app_nil_r. split; [reflexivity|apply swept_nil].
  - destruct (date f <? expirationDate) eqn:Hexp; simpl.
    + rewrite bind_unfold. unfold try_catch, deleteFile.
      destruct (rejects E w (DELETE (url f))) eqn:Hrej.
      * destruct (IH res (log (Sent (DELETE (url f)) false) w)) as (w' & Heq & Hs).
        exists w'. split; [exact Heq|].
        eapply swept_cons; [|exact Hs]. auto.
      * destruct (IH res (log (Sent (DELETE (url f)) true)
                             (with_store w (delete (url f) (store w)))))
          as (w' & Heq & Hs).
        exists w'. split; [exact Heq|].
        eapply swept_cons; [|exact Hs]. auto.
    + destruct (IH (res ++ [f]) w) as (w' & Heq & Hs).
      exists w'. rewrite Heq, <- app_assoc. auto.
Qed.

Lemma deleteExpiredFiles_spec files w :
  exists w',
    deleteExpiredFiles E files w
    = (Normal (List.filter (fun f => negb (expired E (now w) f)) files), w')
    /\ swept E (url <$> List.filter (expired E (now w)) files) w w'.
Proof.
  unfold deleteExpiredFiles. rewrite bind_unfold. unfold Date_now.
  destruct (sweep_spec (now w - taskExpirationMillis (cfg E) * 2) files [] w)
    as (w' & Heq & Hs).
  exists w'. rewrite Heq. auto.
Qed.

Lemma expired_iff n f :
  expired E n f = true <-> n - date f > 2 * taskExpirationMillis (cfg E).
Proof. unfold expired. rewrite Z.ltb_lt. lia. Qed.
End SweepFacts.

Lemma filter_ext_in {A} (p q : A -> bool) (l : list A) :
  (forall x, p x = q x) -> List.filter p l = List.filter q l.
Proof. intros H. induction l as [|x r IH]; simpl; [|rewrite H, IH]; reflexivity. Qed.

Lemma expired_spec E n f :
  expired E n f = spec_expired n (taskExpirationMillis (cfg E)) f.
Proof.
  unfold expired, spec_expired.
  destruct (Z.ltb_spec (date f) (n - taskExpirationMillis (cfg E) * 2));
    [rewrite bool_decide_eq_true_2|rewrite bool_decide_eq_false_2]; auto; lia.
Qed.

(** C3 (expiration policy).  A sweep at time [now] with window
    [expirationMillis] sends a delete for exactly the listed objects with
    [now - createdAt > 2 * expirationMillis], in listing order, and returns
    all the others; no other object of the store changes, and when the
    backend accepts the deletes the expired objects are gone.  An object of
    age [2 * expirationMillis + 1] is swept, one of age
    [2 * expirationMillis - 1] is kept. *)
Theorem sweep_expiration (E : Env) (files : list file) (w : World) r w' :
  deleteExpiredFiles E files w = (r, w') ->
  let x := taskExpirationMillis (cfg E) in
  let old := List.filter (spec_expired (now w) x) files in
  let kept := List.filter (fun f => negb (spec_expired (now w) x f)) files in
  r = Normal kept
  /\ deletes (trace w') = deletes (trace w) ++ (url <$> old)
  /\ (forall u, u ∉ url <$> old -> store w' !! u = store w !! u)
  /\ ((forall w0 u, rejects E w0 (DELETE u) = false) ->
      forall f, f ∈ old -> store w' !! url f = None)
  /\ (forall f, f ∈ files -> now w - date f = 2 * x + 1 -> f ∈ old /\ f ∉ kept)
  /\ (forall f, f ∈ files -> now w - date f = 2 * x - 1 -> f ∈ kept /\ f ∉ old).
Proof.
  intros Hrun x old kept.
  destruct (deleteExpiredFiles_spec E files w) as (w1 & Heq & Hs).
  rewrite Heq in Hrun. injection Hrun as <- <-.
  destruct Hs as (_ & _ & _ & _ & Hd & _ & _ & _ & Hframe & _ & Hacc).
  rewrite (filter_ext_in _ _ files (expired_spec E (now w))) in Hd, Hframe, Hacc.
  rewrite (filter_ext_in _ (fun f => negb (spec_expired (now w) x f)) files)
    by (intros f; now rewrite expired_spec).
  repeat split; auto.
  - intros Hall f Hf. apply (Hacc Hall). apply list_elem_of_fmap. eauto.
  - apply list_elem_of_In, filter_In. split; [now apply list_elem_of_In|].
    unfold spec_expired. apply bool_decide_eq_true_2. lia.
  - intros Hin. apply list_elem_of_In, filter_In in Hin as [_ Hin].
    unfold spec_expired in Hin. rewrite bool_decide_eq_true_2 in Hin by lia.
    discriminate.
  - apply list_elem_of_In, filter_In. split; [now apply list_elem_of_In|].
    unfold spec_expired. rewrite bool_decide_eq_false_2 by lia. reflexivity.
  - intros Hin. apply list_elem_of_In, filter_In in Hin as [_ Hin].
    unfold spec_expired in Hin. apply bool_decide_eq_true_1 in Hin. lia.
Qed.

Lemma sweep_expiration_witness :
  let E := Toy.env Toy.short_cfg Toy.accept_all Toy.failing in
  let run := deleteExpiredFiles E
               [Toy.old_file; Toy.edge_file; Toy.young_file] Toy.aged_world in
  run.1 = Normal [Toy.edge_file; Toy.young_file]
  /\ deletes (trace run.2) = ["799-a.in.dat"]
  /\ store run.2 !! "799-a.in.dat" = None
  /\ store run.2 !! "800-b.in.dat" = Some "y".
Proof.
  intros E run.
  destruct (sweep_expiration E [Toy.old_file; Toy.edge_file; Toy.young_file]
              Toy.aged_world run.1 run.2 (surjective_pairing run))
    as (Hr & Hd & Hframe & Hacc & _).
  split; [exact Hr|]. split; [exact Hd|]. split.
  - apply (Hacc (fun _ _ => eq_refl) Toy.old_file). apply list_elem_of_here.
  - rewrite (Hframe "800-b.in.dat"); [reflexivity|].
    intros Hin. apply list_elem_of_singleton in Hin. discriminate.
Defined.

(** C2 as stated fails: the sweep below lists an expired object whose
    delete the backend rejects; the sweep runs to its end, and the list it
    returns does not hold that object. *)
Lemma sweep_failed_delete_counterexample :
  let E := Toy.env Toy.short_cfg Toy.reject_deletes Toy.failing in
  let files := [Toy.old_file; Toy.young_file] in
  let run := deleteExpiredFiles E files Toy.aged_world in
  Toy.old_file ∈ files
  /\ now Toy.aged_world - date Toy.old_file > 2 * taskExpirationMillis (cfg E)
  /\ rejects E Toy.aged_world (DELETE (url Toy.old_file)) = true
  /\ exists res, run.1 = Normal res /\ Toy.old_file ∉ res.
Proof.
  cbv zeta. split; [apply list_elem_of_here|].
  split; [vm_compute; reflexivity|]. split; [reflexivity|].
  exists [Toy.young_file]. split; [vm_compute; reflexivity|].
  intros Hin. apply list_elem_of_singleton in Hin. discriminate.
Qed.

(** C2 (amended).  When the backend rejects the delete of an expired
    object, the sweep is not aborted: it goes on over the rest of the
    listing and returns the objects that are not expired.  The object whose
    delete failed is not in the returned list; it stays in the store as it
    was, so the next listing holds it again and the next sweep retries the
    delete. *)
Theorem sweep_failed_delete (E : Env) (files : list file) (w : World)
    (f : file) r w' :
  f ∈ files ->
  now w - date f > 2 * taskExpirationMillis (cfg E) ->
  (forall w0, rejects E w0 (DELETE (url f)) = true) ->
  deleteExpiredFiles E files w = (r, w') ->
  let kept := List.filter
                (fun g => negb (spec_expired (now w)
                                  (taskExpirationMillis (cfg E)) g)) files in
  r = Normal kept
  /\ (f ∉ kept)
  /\ (url f ∈ deletes (trace w'))
  /\ store w' !! url f = store w !! url f.
Proof.
  intros Hin Hold Hrej Hrun kept.
  destruct (deleteExpiredFiles_spec E files w) as (w1 & Heq & Hs).
  rewrite Heq in Hrun. injection Hrun as <- <-.
  destruct Hs as (_ & _ & _ & _ & Hd & _ & _ & _ & _ & Hkeep & _).
  split; [|split; [|split]].
  - f_equal. apply filter_ext_in. intros g. now rewrite expired_spec.
  - intros Hk. apply list_elem_of_In, filter_In in Hk as [_ Hk].
    unfold spec_expired in Hk. rewrite bool_decide_eq_true_2 in Hk by lia.
    discriminate.
  - rewrite Hd, elem_of_app. right. apply list_elem_of_fmap. exists f.
    split; [reflexivity|]. apply list_elem_of_In, filter_In.
    split; [now apply list_elem_of_In|]. apply expired_iff. lia.
  - now apply Hkeep.
Qed.

Lemma sweep_failed_delete_witness :
  let E := Toy.env Toy.short_cfg Toy.reject_deletes Toy.failing in
  let run := deleteExpiredFiles E [Toy.old_file; Toy.young_file]
               Toy.aged_world in
  run.1 = Normal [Toy.young_file]
  /\ (Toy.old_file ∉ [Toy.young_file])
  /\ ("799-a.in.dat" ∈ deletes (trace run.2))
  /\ store run.2 !! "799-a.in.dat" = Some "x".
Proof.
  intros E run.
  apply (sweep_failed_delete E [Toy.old_file; Toy.young_file] Toy.aged_world
           Toy.old_file run.1 run.2).
  - apply list_elem_of_here.
  - vm_compute. reflexivity.
  - intros w0. reflexivity.
  - apply surjective_pairing.
Defined.

(** *** Server: running one task *)

Section ServerFacts.
Variable E : Env.

Lemma task_file_url_ok t d k s f w :
  task_slot t d = Some s -> JS.get s k = Some f ->
  task_file_url t d k w = (Normal (url f), w).
Proof.
  intros Hs Hf. unfold task_file_url, task_file.
  rewrite bind_unfold, Hs. unfold ret. now rewrite Hf.
Qed.

Lemma downloadFile_ok u data w :
  rejects E w (GET u) = false -> store w !! u = Some data ->
  downloadFile E u w
  = (Normal u, log (Sent (GET u) true) (with_tmp w (<[u := data]> (tmp w)))).
Proof. intros Hr Hs. unfold downloadFile. now rewrite Hr, Hs. Qed.

Lemma readFileSync_ok p d w :
  tmp w !! p = Some d -> readFileSync p w = (Normal d, w).
Proof. intros H. unfold readFileSync. now rewrite H. Qed.

Lemma unlinkSync_ok p d w :
  tmp w !! p = Some d ->
  unlinkSync p w = (Normal tt, with_tmp w (delete p (tmp w))).
Proof. intros H. unfold unlinkSync. now rewrite H. Qed.

Lemma upload_ok u d w :
  rejects E w (PUT u d) = false ->
  upload E u d w
  = (Normal tt, log (Sent (PUT u d) true) (with_store w (<[u := d]> (store w)))).
Proof. intros H. unfold upload. now rewrite H. Qed.

Lemma fetched_tmp_in fd fs data sg w :
  url fd <> url fs -> tmp (fetched fd fs data sg w) !! url fd = Some data.
Proof.
  intros Hne. simpl. rewrite lookup_delete_ne by congruence.
  rewrite lookup_insert_ne by congruence. apply lookup_insert_eq.
Qed.

Lemma runTask_fetch t fd fs data sg w :
  ready E t fd fs data sg w ->
  runTask E t w
  = (if verify E data sg (clientPublicKey (cfg E))
     then
       let outFile := JS.replace ".in.dat" ".out.dat" (url fd) in
       try_catch
         (execSync E (url fd) outFile ;;
          created ← existsSync outFile;
          (if (created : bool) then ret tt
           else throw (Error "Output file was not created") : M unit) ;;
          unlinkSync (url fd) ;;
          uploadTaskResult E t (Some outFile) "" ;;
          unlinkSync outFile)
         (on_failure E t (url fd))
     else
       unlinkSync (url fd) ;;
       uploadTaskResult E t None "Bad signature") (fetched fd fs data sg w).
Proof.
  intros ((s & Hin & Hd & Hs) & Hne & Hsd & Hss & Hget).
  unfold runTask.
  rewrite bind_unfold, (task_file_url_ok t dir_in Dat s fd) by assumption.
  rewrite bind_unfold, (downloadFile_ok _ data) by auto.
  rewrite bind_unfold, (task_file_url_ok t dir_in Sig s fs) by assumption.
  rewrite bind_unfold, (downloadFile_ok _ sg) by auto.
  rewrite bind_unfold, (readFileSync_ok _ sg) by (simpl; apply lookup_insert_eq).
  rewrite bind_unfold, (unlinkSync_ok _ sg) by (simpl; apply lookup_insert_eq).
  rewrite bind_unfold.
  change (with_tmp _ _) with (fetched fd fs data sg w).
  rewrite (readFileSync_ok _ data) by now apply fetched_tmp_in.
  reflexivity.
Qed.


Lemma puts_cons e t :
  puts (e :: t)
  = puts t ++ match e with Sent (PUT u d) _ => [(u, d)] | _ => [] end.
Proof.
  unfold puts. simpl. destruct e as [[]|]; simpl;
    rewrite ?reverse_cons, ?app_nil_r; reflexivity.
Qed.

Lemma deletes_cons e t :
  deletes (e :: t)
  = deletes t ++ match e with Sent (DELETE u) _ => [u] | _ => [] end.
Proof.
  unfold deletes. simpl. destruct e as [[]|]; simpl;
    rewrite ?reverse_cons, ?app_nil_r; reflexivity.
Qed.

Lemma execs_cons e t :
  execs (e :: t)
  = execs t ++ match e with Exec i o => [(i, o)] | _ => [] end.
Proof.
  unfold execs. simpl. destruct e as [[]|]; simpl;
    rewrite ?reverse_cons, ?app_nil_r; reflexivity.
Qed.

Lemma uploadTaskResult_error t msg w :
  (forall w0 u d, rejects E w0 (PUT u d) = false) ->
  uploadTaskResult E t None msg w = (Normal tt, published E t msg w).
Proof.
  intros Hput. unfold uploadTaskResult.
  rewrite bind_unfold. unfold ret at 1. cbv beta iota.
  rewrite bind_unfold, upload_ok by auto.
  rewrite upload_ok by auto. reflexivity.
Qed.

(** The branch of [runTask] for an input whose signature does not
    verify. *)
Lemma runTask_bad_signature t fd fs data sg w :
  ready E t fd fs data sg w ->
  verify E data sg (clientPublicKey (cfg E)) = false ->
  (forall w0 u d, rejects E w0 (PUT u d) = false) ->
  runTask E t w
  = (Normal tt,
     published E t "Bad signature"
       (with_tmp (fetched fd fs data sg w)
                 (delete (url fd) (tmp (fetched fd fs data sg w))))).
Proof.
  intros Hready Hv Hput. rewrite (runTask_fetch t fd fs data sg w Hready), Hv.
  destruct Hready as (_ & Hne & _).
  rewrite bind_unfold, (unlinkSync_ok _ data) by now apply fetched_tmp_in.
  now apply uploadTaskResult_error.
Qed.

Lemma try_body_fails t inFile outFile data w :
  cmd_fails E w inFile outFile ->
  tmp w !! inFile = Some data ->
  let w3 := (execSync E inFile outFile w).2 in
  (execSync E inFile outFile ;;
   created ← existsSync outFile;
   (if (created : bool) then ret tt
    else throw (Error "Output file was not created") : M unit) ;;
   unlinkSync inFile ;;
   uploadTaskResult E t (Some outFile) "" ;;
   unlinkSync outFile) w
  = (Throw (failure E w inFile outFile), w3)
  /\ store w3 = store w /\ retries w3 = retries w /\ now w3 = now w
  /\ trace w3 = Exec inFile outFile :: trace w
  /\ is_Some (tmp w3 !! inFile).
Proof.
  intros Hfail Hin w3. subst w3. rewrite bind_unfold.
  unfold execSync, failure, cmd_fails in *.
  destruct (command E w inFile outFile) as [ok wr msg]; simpl in *.
  assert (is_Some (tmp (match wr with
                        | Some d => with_tmp w (<[outFile := d]> (tmp w))
                        | None => w
                        end) !! inFile)) as Htmp.
  { destruct wr as [d|]; simpl; [|eauto].
    destruct (decide (outFile = inFile)) as [->|Hne].
    - rewrite lookup_insert_eq. eauto.
    - rewrite lookup_insert_ne by assumption. eauto. }
  destruct ok.
  - destruct Hfail as [?|[-> Hnone]]; [discriminate|]. simpl.
    rewrite bind_unfold. unfold existsSync. simpl.
    rewrite bool_decide_eq_false_2
      by (rewrite Hnone; intros [? ?]; discriminate).
    rewrite bind_unfold. unfold throw. simpl. auto 10.
  - destruct wr; simpl; auto 10.
Qed.

(** One attempt on a task whose signature verifies and whose command
    fails: below the retry budget only the counter moves; once the budget
    is used up the local input file is removed and the signed error is
    published. *)
Lemma runTask_failed_attempt t fd fs data sg w :
  ready E t fd fs data sg w ->
  verify E data sg (clientPublicKey (cfg E)) = true ->
  (forall w0, cmd_fails E w0 (url fd) (JS.replace ".in.dat" ".out.dat" (url fd))) ->
  (forall w0 u d, rejects E w0 (PUT u d) = false) ->
  let id := task_id t in
  let c := default 0 (retries w !! id) in
  exists w',
    runTask E t w = (Normal tt, w')
    /\ deletes (trace w') = deletes (trace w)
    /\ length (execs (trace w')) = S (length (execs (trace w)))
    /\ if c >=? commandRetries (cfg E)
       then exists msg,
           store w' = store (published E t msg w)
           /\ puts (trace w') = puts (trace (published E t msg w))
           /\ retries w' = delete id (retries w)
           /\ tmp w' !! url fd = None
       else store w' = store w
            /\ puts (trace w') = puts (trace w)
            /\ retries w' = <[id := c + 1]> (retries w)
            /\ is_Some (tmp w' !! url fd).
Proof.
  intros Hready Hv Hfail Hput id c.
  rewrite (runTask_fetch t fd fs data sg w Hready), Hv. cbv zeta.
  destruct Hready as (_ & Hne & _).
  set (w2 := fetched fd fs data sg w).
  set (outFile := JS.replace ".in.dat" ".out.dat" (url fd)).
  destruct (try_body_fails t (url fd) outFile data w2 (Hfail w2)
              (fetched_tmp_in fd fs data sg w Hne))
    as (Hbody & Hst & Hre & Hnow & Htr & [d Htmp]).
  unfold try_catch. rewrite Hbody.
  set (w3 := (execSync E (url fd) outFile w2).2) in *.
  unfold on_failure. rewrite Hre. change (retries w2) with (retries w).
  fold id. fold c.
  destruct (c >=? commandRetries (cfg E)).
  - rewrite bind_unfold, (unlinkSync_ok _ d) by exact Htmp.
    rewrite uploadTaskResult_error by exact Hput.
    eexists. split; [reflexivity|]. simpl.
    rewrite !puts_cons, !deletes_cons, !execs_cons, Htr, Hst.
    rewrite !puts_cons, !deletes_cons, !execs_cons. simpl.
    rewrite !deletes_cons, !execs_cons, !puts_cons, !app_nil_r.
    repeat split.
    + rewrite length_app. simpl. lia.
    + exists (exn_toString (failure E w2 (url fd) outFile)).
      split; [reflexivity|]. split; [|split].
      * unfold published. simpl. now rewrite !puts_cons.
      * apply delete_insert_eq.
      * apply lookup_delete_eq.
  - eexists. split; [reflexivity|]. simpl.
    rewrite Htr, Hst, !puts_cons, !deletes_cons, !execs_cons. simpl.
    rewrite !deletes_cons, !execs_cons, !puts_cons, !app_nil_r.
    repeat split; eauto. rewrite length_app. simpl. lia.
Qed.

Lemma ready_store t fd fs data sg w w' :
  store w' = store w -> ready E t fd fs data sg w -> ready E t fd fs data sg w'.
Proof. unfold ready. intros ->. tauto. Qed.

(** While the retry budget lasts, failed attempts leave the store as it
    was and count up. *)
Lemma attempts_within_budget t fd fs data sg w (k : nat) :
  ready E t fd fs data sg w ->
  verify E data sg (clientPublicKey (cfg E)) = true ->
  (forall w0, cmd_fails E w0 (url fd) (JS.replace ".in.dat" ".out.dat" (url fd))) ->
  (forall w0 u d, rejects E w0 (PUT u d) = false) ->
  retries w !! task_id t = None ->
  Z.of_nat k <= commandRetries (cfg E) ->
  exists wk,
    attempts E t k w = (Normal tt, wk)
    /\ store wk = store w
    /\ puts (trace wk) = puts (trace w)
    /\ deletes (trace wk) = deletes (trace w)
    /\ length (execs (trace wk)) = (length (execs (trace w)) + k)%nat
    /\ default 0 (retries wk !! task_id t) = Z.of_nat k
    /\ ((1 <= k)%nat ->
        is_Some (tmp wk !! url fd)
        /\ retries wk !! task_id t = Some (Z.of_nat k)).
Proof.
  intros Hready Hv Hfail Hput Hfresh. induction k as [|k IH]; intros Hk.
  - exists w. rewrite Hfresh. repeat split; auto; lia.
  - destruct IH as (wk & Hrun & Hst & Hp & Hd & He & Hc & _); [lia|].
    destruct (runTask_failed_attempt t fd fs data sg wk
                (ready_store _ _ _ _ _ _ _ Hst Hready) Hv Hfail Hput)
      as (w' & Hrun' & Hd' & He' & Hcase).
    cbv zeta in Hcase. rewrite Hc in Hcase.
    destruct (Z.geb_spec (Z.of_nat k) (commandRetries (cfg E))); [lia|].
    destruct Hcase as (Hst' & Hp' & Hr' & Htmp').
    exists w'. simpl. rewrite bind_unfold, Hrun, Hrun'.
    rewrite Hst', Hp', Hd', He', Hr', lookup_insert_eq. simpl.
    repeat split; auto; try lia. f_equal. lia.
Qed.

(** **** The events of [runTask], whatever path it takes *)

Lemma extends_refl P w : extends P w w.
Proof. exists []. split; [reflexivity|constructor]. Qed.

Lemma extends_trans P w1 w2 w3 :
  extends P w1 w2 -> extends P w2 w3 -> extends P w1 w3.
Proof.
  intros (e1 & H1 & F1) (e2 & H2 & F2). exists (e2 ++ e1).
  rewrite H2, H1, app_assoc. split; [reflexivity|]. now apply Forall_app.
Qed.

Lemma extends_log (P : event -> Prop) e w w' :
  P e -> trace w' = trace w -> extends P w (log e w').
Proof.
  intros He Ht. exists [e]. simpl. rewrite Ht. split; [reflexivity|].
  now constructor.
Qed.

Lemma extends_same (P : event -> Prop) w w' :
  trace w' = trace w -> extends P w w'.
Proof. intros Ht. exists []. split; [exact Ht|constructor]. Qed.

Lemma causes_ret {A} P (a : A) : causes P (ret a).
Proof. intros w r w' [= <- <-]. apply extends_refl. Qed.

Lemma causes_throw {A} P e : causes P (throw e : M A).
Proof. intros w r w' [= <- <-]. apply extends_refl. Qed.

Lemma causes_bind {A B} P (c : M A) (k : A -> M B) :
  causes P c ->
  (forall a w w1, c w = (Normal a, w1) -> causes P (k a)) ->
  causes P (c ≫= k).
Proof.
  intros Hc Hk w r w'. rewrite bind_unfold.
  destruct (c w) as [[a|e] w1] eqn:Hcw.
  - intros Hrun. eapply extends_trans; [eapply Hc, Hcw|].
    eapply Hk; eauto.
  - intros [= <- <-]. eapply Hc, Hcw.
Qed.

Lemma causes_try_catch {A} P (c : M A) (h : exn -> M A) :
  causes P c -> (forall e, causes P (h e)) -> causes P (try_catch c h).
Proof.
  intros Hc Hh w r w'. unfold try_catch.
  destruct (c w) as [[a|e] w1] eqn:Hcw.
  - intros [= <- <-]. eapply Hc, Hcw.
  - intros Hrun. eapply extends_trans; [eapply Hc, Hcw|]. eapply Hh, Hrun.
Qed.

Lemma causes_local {A} P (c : M A) :
  (forall w r w', c w = (r, w') -> trace w' = trace w) -> causes P c.
Proof. intros H w r w' Hrun. apply extends_same. eapply H, Hrun. Qed.

Lemma causes_readFileSync P p : causes P (readFileSync p).
Proof.
  apply causes_local. intros w r w'. unfold readFileSync.
  destruct (tmp w !! p); now intros [= <- <-].
Qed.

Lemma causes_unlinkSync P p : causes P (unlinkSync p).
Proof.
  apply causes_local. intros w r w'. unfold unlinkSync.
  destruct (tmp w !! p); now intros [= <- <-].
Qed.

Lemma causes_existsSync P p : causes P (existsSync p).
Proof. apply causes_local. intros w r w'. now intros [= <- <-]. Qed.

Lemma causes_timeout P ms : causes P (timeout ms).
Proof. apply causes_local. intros w r w'. now intros [= <- <-]. Qed.

Lemma causes_task_file_url P t d k : causes P (task_file_url t d k).
Proof.
  apply causes_local. intros w r w'. unfold task_file_url, task_file.
  rewrite bind_unfold. destruct (task_slot t d) as [s|]; [|now intros [= <- <-]].
  unfold ret. destruct (JS.get s k); now intros [= <- <-].
Qed.

Lemma causes_downloadFile (P : event -> Prop) u :
  (forall b, P (Sent (GET u) b)) -> causes P (downloadFile E u).
Proof.
  intros HP w r w'. unfold downloadFile.
  destruct (rejects E w (GET u)); [|destruct (store w !! u)];
    intros [= <- <-]; now apply extends_log.
Qed.

Lemma causes_upload (P : event -> Prop) u d :
  (forall b, P (Sent (PUT u d) b)) -> causes P (upload E u d).
Proof.
  intros HP w r w'. unfold upload.
  destruct (rejects E w (PUT u d)); intros [= <- <-]; now apply extends_log.
Qed.

Lemma causes_execSync (P : event -> Prop) i o :
  P (Exec i o) -> causes P (execSync E i o).
Proof.
  intros HP w r w'. unfold execSync.
  destruct (exit_ok (command E w i o)); intros [= <- <-];
    apply extends_log; auto; now destruct (written (command E w i o)).
Qed.

Create HintDb effects.

#[local] Hint Resolve causes_ret causes_throw causes_readFileSync
  causes_unlinkSync causes_existsSync causes_timeout causes_task_file_url
  causes_downloadFile causes_upload causes_execSync : effects.
#[local] Hint Extern 1 (runTask_event _ _) => simpl; eauto : effects.

(** One statement of a sequence: its own events are settled from the hint
    database, the rest of the sequence is left as the goal. *)
Ltac next_statement :=
  apply causes_bind; [auto with effects | intros ? _ _ _].

Lemma causes_uploadTaskResult t outFile error :
  causes (runTask_event t) (uploadTaskResult E t outFile error).
Proof.
  unfold uploadTaskResult. apply causes_bind.
  - destruct outFile; auto with effects.
  - intros data _ _ _. next_statement. auto with effects.
Qed.

Lemma causes_on_failure t inFile e :
  causes (runTask_event t) (on_failure E t inFile e).
Proof.
  intros w r w'. unfold on_failure.
  destruct (_ >=? _).
  - intros Hrun.
    assert (causes (runTask_event t)
              (unlinkSync inFile ;; uploadTaskResult E t None (exn_toString e)))
      as Hc by (next_statement; apply causes_uploadTaskResult).
    apply Hc in Hrun. exact Hrun.
  - intros [= <- <-]. now apply extends_same.
Qed.

#[local] Hint Resolve causes_uploadTaskResult causes_on_failure : effects.

Lemma task_file_url_value t d k w u w' :
  task_file_url t d k w = (Normal u, w') ->
  exists s f, task_slot t d = Some s /\ JS.get s k = Some f /\ u = url f.
Proof.
  unfold task_file_url, task_file. rewrite bind_unfold.
  destruct (task_slot t d) as [s|]; [|discriminate].
  unfold ret. destruct (JS.get s k) as [f|] eqn:Hf; [|discriminate].
  intros [= <- _]. eauto.
Qed.

Lemma downloadFile_value u w p w' :
  downloadFile E u w = (Normal p, w') -> p = u.
Proof.
  unfold downloadFile. destruct (rejects E w (GET u)); [discriminate|].
  destruct (store w !! u); [|discriminate]. now intros [= <- _].
Qed.

(** On every path [runTask] sends no delete and no listing, uploads only
    output objects of its task, and runs the command only on the task's
    downloaded input. *)
Lemma runTask_effects t : causes (runTask_event t) (runTask E t).
Proof.
  unfold runTask.
  apply causes_bind; [auto with effects|].
  intros inUrl w0 w1 (s & fd & Hs & Hfd & ->)%task_file_url_value.
  apply causes_bind; [auto with effects|].
  intros inFile w2 w3 ->%downloadFile_value.
  do 5 next_statement.
  destruct (verify E _ _ _).
  - apply causes_try_catch; [|auto with effects].
    next_statement.
    apply causes_bind; [auto with effects|intros created _ _ _].
    apply causes_bind; [destruct created; auto with effects|intros _ _ _ _].
    do 2 next_statement. auto with effects.
  - next_statement. auto with effects.
Qed.

End ServerFacts.

(** C8 as stated fails: the input below is signed with a key that is not
    the client's; [runTask] publishes the signed error, yet the input data
    object is still in the store and no delete was sent. *)
Lemma bad_signature_counterexample :
  let E := Toy.env Toy.toy_cfg Toy.accept_all Toy.hello in
  let run := runTask E Toy.submitted_task Toy.forged_world in
  verify E "alice" "alice/evil" (clientPublicKey (cfg E)) = false
  /\ run.1 = Normal tt
  /\ store run.2 !! "1000-ab12.out.err" = Some "Bad signature"
  /\ store run.2 !! url Toy.in_dat = Some "alice"
  /\ store run.2 !! url Toy.in_dat <> None
  /\ deletes (trace run.2) = [].
Proof. vm_compute. repeat split; try reflexivity. discriminate. Qed.

(** C8 (amended).  For a task whose input signature does not verify
    against the configured client public key, [runTask] does not run the
    external command and does not touch the retry counters: it removes its
    downloaded copy of the input data and publishes the signed text
    "Bad signature" as [out.err] and [out.sig].  It sends no delete: the
    input objects stay in the store. *)
Theorem bad_signature_short_circuit (E : Env) (t : task) (fd fs : file)
    (data sg : string) (w : World) r w' :
  ready E t fd fs data sg w ->
  verify E data sg (clientPublicKey (cfg E)) = false ->
  (forall w0 u d, rejects E w0 (PUT u d) = false) ->
  runTask E t w = (r, w') ->
  let errUrl := getTaskFileUrl (task_date t) (task_id t) dir_out Err in
  let sigUrl := getTaskFileUrl (task_date t) (task_id t) dir_out Sig in
  let signature := sign E "Bad signature" (serverPrivateKey (cfg E)) in
  r = Normal tt
  /\ execs (trace w') = execs (trace w)
  /\ retries w' = retries w
  /\ puts (trace w')
     = puts (trace w) ++ [(errUrl, "Bad signature"); (sigUrl, signature)]
  /\ store w'
     = <[sigUrl := signature]> (<[errUrl := "Bad signature"]> (store w))
  /\ deletes (trace w') = deletes (trace w)
  /\ tmp w' !! url fd = None.
Proof.
  intros Hready Hv Hput Hrun errUrl sigUrl signature.
  rewrite (runTask_bad_signature E t fd fs data sg w Hready Hv Hput) in Hrun.
  injection Hrun as <- <-. simpl.
  rewrite !puts_cons, !deletes_cons, !execs_cons, !app_nil_r, <- app_assoc.
  repeat split; auto. apply lookup_delete_eq.
Qed.

Lemma bad_signature_short_circuit_witness :
  let E := Toy.env Toy.toy_cfg Toy.accept_all Toy.hello in
  let run := runTask E Toy.submitted_task Toy.forged_world in
  run.1 = Normal tt
  /\ execs (trace run.2) = []
  /\ retries run.2 = ∅
  /\ puts (trace run.2)
     = [("1000-ab12.out.err", "Bad signature");
        ("1000-ab12.out.sig", "Bad signature/sk")]
  /\ store run.2
     = <["1000-ab12.out.sig" := "Bad signature/sk"]>
         (<["1000-ab12.out.err" := "Bad signature"]> (store Toy.forged_world))
  /\ deletes (trace run.2) = []
  /\ tmp run.2 !! "1000-ab12.in.dat" = None.
Proof.
  intros E run.
  apply (bad_signature_short_circuit E Toy.submitted_task Toy.in_dat Toy.in_sig
           "alice" "alice/evil" Toy.forged_world run.1 run.2).
  - split; [|split; [|split; [|split]]].
    + exists [(Dat, Toy.in_dat); (Sig, Toy.in_sig)]. repeat split; reflexivity.
    + discriminate.
    + reflexivity.
    + reflexivity.
    + intros w0 u. reflexivity.
  - reflexivity.
  - intros w0 u d. reflexivity.
  - apply surjective_pairing.
Defined.

(** The same run through the whole loop of the server (listing, sweep,
    selection, [runTask], sleep) with [commandRetries = 2]: nothing is
    published by the first two iterations, the third publishes the error,
    and later iterations find no pending task and run nothing. *)
Example server_loop_retries :
  let E := Toy.env Toy.toy_cfg Toy.accept_all Toy.failing in
  let after n := (server_loop E n Toy.submitted_world).2 in
  puts (trace (after 2%nat)) = []
  /\ length (execs (trace (after 2%nat))) = 2%nat
  /\ puts (trace (after 3%nat))
     = [("1000-ab12.out.err", "Error: Command failed");
        ("1000-ab12.out.sig", "Error: Command failed/sk")]
  /\ puts (trace (after 6%nat)) = puts (trace (after 3%nat))
  /\ length (execs (trace (after 6%nat))) = 3%nat.
Proof. vm_compute. repeat split; reflexivity. Qed.

(** C1 as stated fails: with [commandRetries = 2] and a command that fails
    on every attempt, the third attempt publishes the signed error; both
    input objects are still in the store afterwards and no delete was
    sent. *)
Lemma retry_exhaustion_counterexample :
  let E := Toy.env Toy.toy_cfg Toy.accept_all Toy.failing in
  let run := attempts E Toy.submitted_task 3 Toy.submitted_world in
  commandRetries (cfg E) = 2
  /\ run.1 = Normal tt
  /\ store run.2 !! "1000-ab12.out.err" = Some "Error: Command failed"
  /\ store run.2 !! url Toy.in_dat = Some "alice"
  /\ store run.2 !! url Toy.in_sig = Some "alice/ck"
  /\ store run.2 !! url Toy.in_dat <> None
  /\ deletes (trace run.2) = [].
Proof. vm_compute. repeat split; try reflexivity. discriminate. Qed.

(** C1 (amended).  For a task whose command fails on every attempt and a
    retry budget [commandRetries = N]: each of the first [N] failing
    attempts publishes nothing, deletes nothing and keeps the downloaded
    input, so the task stays pending; the [N+1]-th failing attempt removes
    the local copy of the input, publishes exactly one signed [out.err]
    with its [out.sig], and drops the task's retry counter.  No attempt
    deletes the input objects from the store. *)
Theorem retry_exhaustion (E : Env) (t : task) (fd fs : file)
    (data sg : string) (w : World) (N : nat) :
  ready E t fd fs data sg w ->
  verify E data sg (clientPublicKey (cfg E)) = true ->
  (forall w0, cmd_fails E w0 (url fd) (JS.replace ".in.dat" ".out.dat" (url fd))) ->
  (forall w0 u d, rejects E w0 (PUT u d) = false) ->
  retries w !! task_id t = None ->
  commandRetries (cfg E) = Z.of_nat N ->
  let errUrl := getTaskFileUrl (task_date t) (task_id t) dir_out Err in
  let sigUrl := getTaskFileUrl (task_date t) (task_id t) dir_out Sig in
  (forall k, (1 <= k <= N)%nat ->
     exists wk,
       attempts E t k w = (Normal tt, wk)
       /\ store wk = store w
       /\ puts (trace wk) = puts (trace w)
       /\ deletes (trace wk) = deletes (trace w)
       /\ length (execs (trace wk)) = (length (execs (trace w)) + k)%nat
       /\ is_Some (tmp wk !! url fd)
       /\ retries wk !! task_id t = Some (Z.of_nat k))
  /\ (exists msg w',
        attempts E t (S N) w = (Normal tt, w')
        /\ store w'
           = <[sigUrl := sign E msg (serverPrivateKey (cfg E))]>
               (<[errUrl := msg]> (store w))
        /\ puts (trace w')
           = puts (trace w)
             ++ [(errUrl, msg); (sigUrl, sign E msg (serverPrivateKey (cfg E)))]
        /\ deletes (trace w') = deletes (trace w)
        /\ length (execs (trace w')) = (length (execs (trace w)) + S N)%nat
        /\ tmp w' !! url fd = None
        /\ retries w' !! task_id t = None).
Proof.
  intros Hready Hv Hfail Hput Hfresh HN errUrl sigUrl. split.
  - intros k Hk.
    destruct (attempts_within_budget E t fd fs data sg w k Hready Hv Hfail
                Hput Hfresh) as (wk & Hrun & Hst & Hp & Hd & He & _ & Hk1);
      [lia|].
    destruct Hk1 as [Htmp Hr]; [lia|]. exists wk. auto 10.
  - destruct (attempts_within_budget E t fd fs data sg w N Hready Hv Hfail
                Hput Hfresh) as (wN & Hrun & Hst & Hp & Hd & He & Hc & _);
      [lia|].
    destruct (runTask_failed_attempt E t fd fs data sg wN
                (ready_store E _ _ _ _ _ _ _ Hst Hready) Hv Hfail Hput)
      as (w' & Hrun' & Hd' & He' & Hcase).
    cbv zeta in Hcase. rewrite Hc, HN in Hcase.
    destruct (Z.geb_spec (Z.of_nat N) (Z.of_nat N)); [|lia].
    destruct Hcase as (msg & Hst' & Hp' & Hr' & Htmp').
    exists msg, w'. simpl. rewrite bind_unfold, Hrun, Hrun'.
    rewrite Hst', Hp', Hd', He', Hr', lookup_delete_eq.
    unfold published. simpl. rewrite !puts_cons, Hst, Hp, Hd, He, <- app_assoc.
    repeat split; auto; lia.
Qed.

Lemma retry_exhaustion_witness :
  let E := Toy.env Toy.toy_cfg Toy.accept_all Toy.failing in
  let w := Toy.submitted_world in
  let t := Toy.submitted_task in
  (forall k, (1 <= k <= 2)%nat ->
     exists wk,
       attempts E t k w = (Normal tt, wk)
       /\ store wk = store w
       /\ puts (trace wk) = []
       /\ deletes (trace wk) = []
       /\ length (execs (trace wk)) = k
       /\ is_Some (tmp wk !! "1000-ab12.in.dat")
       /\ retries wk !! "ab12" = Some (Z.of_nat k))
  /\ (exists msg w',
        attempts E t 3 w = (Normal tt, w')
        /\ store w'
           = <["1000-ab12.out.sig" := Toy.toy_sign msg "sk"]>
               (<["1000-ab12.out.err" := msg]> (store w))
        /\ puts (trace w')
           = [("1000-ab12.out.err", msg);
              ("1000-ab12.out.sig", Toy.toy_sign msg "sk")]
        /\ deletes (trace w') = []
        /\ length (execs (trace w')) = 3%nat
        /\ tmp w' !! "1000-ab12.in.dat" = None
        /\ retries w' !! "ab12" = None).
Proof.
  intros E w t.
  apply (retry_exhaustion E t Toy.in_dat Toy.in_sig "alice" "alice/ck" w 2).
  - split; [|split; [|split; [|split]]].
    + exists [(Dat, Toy.in_dat); (Sig, Toy.in_sig)]. repeat split; reflexivity.
    + discriminate.
    + reflexivity.
    + reflexivity.
    + intros w0 u. reflexivity.
  - reflexivity.
  - intros w0. left. reflexivity.
  - intros w0 u d. reflexivity.
  - reflexivity.
  - reflexivity.
Defined.

(** *** Client: consuming a resolved task *)

Section ClientFacts.
Variable E : Env.

Lemma task_file_url_throws t d k w e w' :
  task_file_url t d k w = (Throw e, w') -> e = TypeError.
Proof.
  unfold task_file_url, task_file. rewrite bind_unfold.
  destruct (task_slot t d) as [s|]; [|now intros [= <- _]].
  unfold ret. destruct (JS.get s k); [discriminate|now intros [= <- _]].
Qed.

Lemma downloadFile_throws u w e w' :
  downloadFile E u w = (Throw e, w') -> e = HttpError (GET u).
Proof.
  unfold downloadFile. destruct (rejects E w (GET u)); [now intros [= <- _]|].
  destruct (store w !! u); [discriminate|now intros [= <- _]].
Qed.

Lemma readFileSync_throws p w e w' :
  readFileSync p w = (Throw e, w') -> e = FsError p.
Proof.
  unfold readFileSync. destruct (tmp w !! p); [discriminate|now intros [= <- _]].
Qed.

Lemma unlinkSync_throws p w e w' :
  unlinkSync p w = (Throw e, w') -> e = FsError p.
Proof.
  unfold unlinkSync. destruct (tmp w !! p); [discriminate|now intros [= <- _]].
Qed.

(** A loop of deletes either deletes every file of the list or stops at a
    rejected delete; it never adds an object to the store. *)
Lemma delete_each_spec (l : list file) w r w' :
  for_each l (fun f => deleteFile E (url f)) w = (r, w') ->
  (forall u, store w !! u = None -> store w' !! u = None)
  /\ ((r = Normal tt /\ forall f, f ∈ l -> store w' !! url f = None)
      \/ exists u, r = Throw (HttpError (DELETE u))).
Proof.
  revert w. induction l as [|f l IH]; intros w; simpl.
  - intros [= <- <-]. split; [auto|]. left. split; [reflexivity|].
    intros f Hf. inversion Hf.
  - rewrite bind_unfold. unfold deleteFile at 1.
    destruct (rejects E w (DELETE (url f))).
    + intros [= <- <-]. simpl. split; [auto|]. right. eauto.
    + intros Hrun. apply IH in Hrun as [Hmono Hcase]. simpl in Hmono.
      split.
      * intros u Hu. apply Hmono.
        destruct (decide (url f = u)) as [->|Hne];
          [apply lookup_delete_eq|now rewrite lookup_delete_ne].
      * destruct Hcase as [[-> Hall]|Hex]; [left|now right].
        split; [reflexivity|]. intros g Hg.
        apply elem_of_cons in Hg as [->|Hg]; [|now apply Hall].
        apply Hmono. apply lookup_delete_eq.
Qed.

Lemma cleanup_spec t w r w' :
  cleanup E t w = (r, w') ->
  (r = Normal tt
   /\ forall d s k f, task_slot t d = Some s -> JS.get s k = Some f ->
                      store w' !! url f = None)
  \/ exists u, r = Throw (HttpError (DELETE u)).
Proof.
  unfold cleanup. simpl. rewrite bind_unfold.
  assert (forall (s : slots) k f, JS.get s k = Some f -> f ∈ JS.values s)
    as Hval.
  { intros s k f Hg. apply get_Some_elem_of in Hg. unfold JS.values.
    apply list_elem_of_fmap. exists (k, f). auto. }
  destruct (task_in t) as [si|] eqn:Hin.
  - destruct (for_each (JS.values si) _ w) as [[[]|e] w1] eqn:H1.
    + apply delete_each_spec in H1 as [Hm1 [[_ Hall1]|[u [=]]]].
      rewrite bind_unfold.
      destruct (task_out t) as [so|] eqn:Hout.
      * destruct (for_each (JS.values so) _ w1) as [[[]|e] w2] eqn:H2.
        -- apply delete_each_spec in H2 as [Hm2 [[_ Hall2]|[u [=]]]].
           unfold ret. intros [= <- <-]. left. split; [reflexivity|].
           intros [] s k f Hs Hg; simpl in Hs; rewrite ?Hin, ?Hout in Hs;
             injection Hs as <-; eauto.
        -- apply delete_each_spec in H2 as [_ [[[=] _]|[u [= ->]]]].
           intros [= <- <-]. right. eauto.
      * unfold ret. intros [= <- <-]. left. split; [reflexivity|].
        intros [] s k f Hs Hg; simpl in Hs; rewrite ?Hin, ?Hout in Hs;
          [injection Hs as <-; eauto|discriminate].
    + apply delete_each_spec in H1 as [_ [[[=] _]|[u [= ->]]]].
      intros [= <- <-]. right. eauto.
  - unfold ret at 1. cbv beta iota. rewrite bind_unfold.
    destruct (task_out t) as [so|] eqn:Hout.
    + destruct (for_each (JS.values so) _ w) as [[[]|e] w2] eqn:H2.
      * apply delete_each_spec in H2 as [Hm2 [[_ Hall2]|[u [=]]]].
        unfold ret. intros [= <- <-]. left. split; [reflexivity|].
        intros [] s k f Hs Hg; simpl in Hs; rewrite ?Hin, ?Hout in Hs;
          [discriminate|injection Hs as <-; eauto].
      * apply delete_each_spec in H2 as [_ [[[=] _]|[u [= ->]]]].
        intros [= <- <-]. right. eauto.
    + unfold ret. intros [= <- <-]. left. split; [reflexivity|].
      intros [] s k f Hs Hg; simpl in Hs; rewrite ?Hin, ?Hout in Hs;
        discriminate.
Qed.

End ClientFacts.

(** A whole exchange: the client submits "alice", one iteration of the
    server runs the greeting command, the client's next poll finds the
    result, verifies it and cleans up; the store is empty afterwards. *)
Example end_to_end :
  let E := Toy.env Toy.toy_cfg Toy.accept_all Toy.hello in
  let session : M (string * string) :=
    dt ← submit E "alice" "ab12";
    server_iteration E ;;
    found ← poll E 3 dt "ab12";
    match found with
    | Some t => receive E t
    | None => throw TypeError
    end in
  let run := session (Toy.empty_world 1000) in
  run.1 = Normal ("1000-ab12.out.dat", "Hello, alice!")
  /\ map_to_list (store run.2) = [].
Proof. vm_compute. split; reflexivity. Qed.



(** *** Client: the poll loop *)

Section PollFacts.
Variable E : Env.

Lemma elem_of_convertUrls urls f :
  f ∈ convertUrls urls <-> url f ∈ urls /\ convertUrl (url f) = Some f.
Proof.
  unfold convertUrls. rewrite list_elem_of_omap. split.
  - intros (u & Hu & Hc). pose proof (convertUrl_url u f Hc) as ->. auto.
  - intros [Hu Hc]. eauto.
Qed.

Lemma elem_of_keys (m : gmap string string) u :
  u ∈ (map_to_list m).*1 <-> is_Some (m !! u).
Proof.
  rewrite list_elem_of_fmap. split.
  - intros ([u' d] & -> & Hin). apply elem_of_map_to_list in Hin. eauto.
  - intros [d Hd]. exists (u, d). split; [reflexivity|].
    now apply elem_of_map_to_list.
Qed.

(** What one listing (with its sweep) does and returns. *)
Lemma listFiles_spec w r w' :
  listFiles E w = (r, w') ->
  now w' = now w
  /\ puts (trace w') = puts (trace w)
  /\ (forall u, store w' !! u = None \/ store w' !! u = store w !! u)
  /\ (forall u, store w' !! u <> store w !! u ->
                exists f, convertUrl u = Some f /\ expired E (now w) f = true)
  /\ (forall files, r = Normal files ->
        forall f, f ∈ files ->
                  is_Some (store w !! url f) /\ convertUrl (url f) = Some f).
Proof.
  unfold listFiles. rewrite bind_unfold. unfold list_urls.
  destruct (rejects E w LIST).
  - intros [= <- <-]. simpl. rewrite puts_cons, app_nil_r.
    repeat split; auto; try congruence; discriminate.
  - set (w1 := log (Sent LIST true) w).
    set (files := convertUrls (map fst (map_to_list (store w)))).
    intros Hrun.
    destruct (deleteExpiredFiles_spec E files w1) as (w2 & Heq & Hs).
    rewrite Heq in Hrun. injection Hrun as <- <-.
    destruct Hs as (_ & _ & Hn & _ & _ & Hp & _ & Hmono & Hframe & _).
    simpl in *. rewrite puts_cons, app_nil_r in Hp.
    split; [exact Hn|]. split; [exact Hp|]. split; [exact Hmono|]. split.
    + intros u Hchg.
      destruct (decide (u ∈ url <$> List.filter (expired E (now w)) files))
        as [Hin|Hout]; [|now apply Hframe in Hout].
      apply list_elem_of_fmap in Hin as (f & -> & Hf).
      apply list_elem_of_In, filter_In in Hf as [Hf Hexp].
      apply list_elem_of_In, elem_of_convertUrls in Hf as [_ Hc]. eauto.
    + intros fs [= <-] f Hf.
      apply list_elem_of_In, filter_In in Hf as [Hf _].
      apply list_elem_of_In, elem_of_convertUrls in Hf as [Hu Hc].
      split; [|exact Hc]. now apply elem_of_keys.
Qed.

Lemma no_resolved files id :
  (forall f, f ∈ files -> taskId f = id -> inout f = dir_out -> ext f <> Sig) ->
  List.filter (resolved id) (toTasks files) = [].
Proof.
  intros Hnone.
  destruct (List.filter (resolved id) (toTasks files)) as [|t l] eqn:Hf;
    [reflexivity|exfalso].
  assert (In t (List.filter (resolved id) (toTasks files))) as Hin
    by (rewrite Hf; now left).
  apply filter_In in Hin as [Hin Hres]. apply list_elem_of_In in Hin.
  unfold resolved in Hres. apply andb_true_iff in Hres as [Hid Hout].
  apply bool_decide_eq_true_1 in Hid.
  destruct (task_out t) as [s|] eqn:Hs; [|discriminate].
  apply bool_decide_eq_true_1 in Hout as [f Hsig].
  apply elem_of_toTasks in Hin as (id' & g & Hg & Ht).
  pose proof (task_id_key _ _ _ _ Hg Ht) as Hkey.
  destruct (to_task_foldl _ _ _ _ Hg Ht) as (sg & _ & _ & ->).
  simpl in *.
  assert (slot_of (foldl add_file [] files) id' dir_out Sig = Some f) as Hslot.
  { unfold slot_of, side_of. rewrite Hg. simpl. rewrite Hs. exact Hsig. }
  rewrite slot_foldl in Hslot.
  apply last_listed_Some in Hslot as (Hf' & Hi & Hd & Hk).
  apply (Hnone f Hf'); congruence.
Qed.

Lemma poll_timed_out n dt id w :
  taskExpirationMillis (cfg E) < now w - dt ->
  poll E (S n) dt id w = (Throw (Error "Timed out"), w).
Proof.
  intros Hlate. simpl. rewrite bind_unfold. unfold Date_now.
  destruct (Z.gtb_spec (now w - dt) (taskExpirationMillis (cfg E))); [|lia].
  reflexivity.
Qed.

(** A cycle that starts within the deadline and finds nothing sleeps,
    lists once and goes round again. *)
Lemma poll_cycle dt id w :
  unresolved (store w) id ->
  now w - dt <= taskExpirationMillis (cfg E) ->
  (forall n, poll E (S n) dt id w = poll E n dt id (after_cycle E w))
  /\ now (after_cycle E w) = now w + delay (pollMillis (cfg E))
  /\ unresolved (store (after_cycle E w)) id
  /\ puts (trace (after_cycle E w)) = puts (trace w)
  /\ (forall u, store (after_cycle E w) !! u <> store w !! u ->
        exists f, convertUrl u = Some f
                  /\ expired E (now w + delay (pollMillis (cfg E))) f = true).
Proof.
  intros Hunres Hearly. unfold after_cycle, timeout. simpl.
  set (w1 := with_now w (now w + delay (pollMillis (cfg E)))).
  destruct (listFiles E w1) as [r w2] eqn:Hl.
  destruct (listFiles_spec w1 r w2 Hl) as (Hn & Hp & Hmono & Hchg & Hfiles).
  assert (unresolved (store w2) id) as Hunres2.
  { intros u f Hu. destruct (Hmono u) as [Hnone|Hsame].
    - rewrite Hnone in Hu. destruct Hu as [? [=]].
    - rewrite Hsame in Hu. now apply Hunres. }
  simpl in *. split; [|auto].
  intros n. rewrite bind_unfold. unfold Date_now.
  destruct (Z.gtb_spec (now w - dt) (taskExpirationMillis (cfg E))); [lia|].
  rewrite bind_unfold. unfold timeout. fold w1.
  rewrite bind_unfold. unfold try_catch. rewrite bind_unfold, Hl.
  destruct r as [files|e]; [|reflexivity].
  unfold ret at 1. cbv beta iota.
  rewrite no_resolved; [reflexivity|].
  intros f Hf. destruct (Hfiles files eq_refl f Hf) as [Hst Hc].
  now apply (Hunres (url f) f).
Qed.

Lemma delay_pos ms : 1 <= delay ms.
Proof.
  unfold delay. destruct (Z.leb_spec 1 ms); simpl; [|lia].
  destruct (ms <=? 2147483647); lia.
Qed.

(** A loop whose task never resolves ends with the time-out; until then
    it sends no upload, and its sweeps reach only objects older than
    [dt + delay - taskExpirationMillis]. *)
Lemma poll_terminates dt id (m : nat) w :
  unresolved (store w) id ->
  taskExpirationMillis (cfg E) - (now w - dt) < Z.of_nat m ->
  exists w',
    (forall n, (m < n)%nat ->
               poll E n dt id w = (Throw (Error "Timed out"), w'))
    /\ taskExpirationMillis (cfg E) < now w' - dt
    /\ puts (trace w') = puts (trace w)
    /\ (forall u f, convertUrl u = Some f ->
          dt + delay (pollMillis (cfg E)) - taskExpirationMillis (cfg E)
          <= date f ->
          store w' !! u = store w !! u).
Proof.
  revert w. induction m as [|m IH]; intros w Hunres Hm.
  - exists w. split; [|split; [lia|auto]].
    intros [|n] Hn; [lia|]. apply poll_timed_out. lia.
  - destruct (Z.le_gt_cases (now w - dt) (taskExpirationMillis (cfg E)))
      as [Hearly|Hlate].
    + pose proof (delay_pos (pollMillis (cfg E))) as Hdelay.
      destruct (poll_cycle dt id w Hunres Hearly)
        as (Heq & Hn1 & Hun1 & Hp1 & Hchg1).
      destruct (IH (after_cycle E w) Hun1) as (w' & Hrun & Hlate' & Hp' & Hkeep');
        [lia|].
      exists w'. split; [|split; [exact Hlate'|split]].
      * intros [|n] Hn; [lia|]. rewrite Heq. apply Hrun. lia.
      * congruence.
      * intros u f Hc Hdate. rewrite (Hkeep' u f Hc Hdate).
        destruct (decide (store (after_cycle E w) !! u = store w !! u))
          as [Hsame|Hdiff]; [exact Hsame|exfalso].
        destruct (Hchg1 u Hdiff) as (f' & Hc' & Hexp).
        rewrite Hc in Hc'. injection Hc' as <-.
        apply expired_iff in Hexp. lia.
    + exists w. split; [|split; [lia|auto]].
      intros [|n] Hn; [lia|]. apply poll_timed_out. lia.
Qed.

End PollFacts.



(** *** Server: which task an iteration runs *)

Lemma elem_of_pending t tasks :
  t ∈ pending tasks <-> t ∈ tasks /\ task_out t = None.
Proof.
  unfold pending. rewrite list_elem_of_In, filter_In, <- list_elem_of_In.
  destruct (task_out t); simpl; intuition discriminate.
Qed.

Lemma pending_no_output files t :
  t ∈ pending (toTasks files) ->
  forall f, f ∈ files -> taskId f = task_id t -> inout f = dir_in.
Proof.
  intros [Ht Hout]%elem_of_pending f Hf Hid.
  apply elem_of_toTasks in Ht as (id & g & Hg & Ht).
  pose proof (task_id_key _ _ _ _ Hg Ht) as Hkey.
  destruct (to_task_foldl _ _ _ _ Hg Ht) as (sg & _ & _ & ->).
  simpl in *. subst id. destruct (inout f) eqn:Hio; [reflexivity|].
  assert (is_Some (side_of (foldl add_file [] files) (taskId sg) dir_out))
    as [s Hs] by (apply side_foldl; eauto).
  unfold side_of in Hs. rewrite Hg in Hs. simpl in Hs. congruence.
Qed.



(** ** Part III. Further properties of the code *)

(** *** Names *)

(** X1.  [getTaskFileUrl] gives different names to different roles: for
    epoch timestamps and task ids that are word tokens, two equal names
    have the same timestamp, task id, direction and kind. *)
Theorem getTaskFileUrl_injective t1 id1 io1 ex1 t2 id2 io2 ex2 :
  0 <= t1 -> 0 <= t2 -> word_token id1 = true -> word_token id2 = true ->
  getTaskFileUrl t1 id1 io1 ex1 = getTaskFileUrl t2 id2 io2 ex2 ->
  t1 = t2 /\ id1 = id2 /\ io1 = io2 /\ ex1 = ex2.
Proof.
  intros H1 H2 Hw1 Hw2 Heq.
  pose proof (convertUrl_getTaskFileUrl t1 id1 io1 ex1 H1 Hw1) as D1.
  pose proof (convertUrl_getTaskFileUrl t2 id2 io2 ex2 H2 Hw2) as D2.
  rewrite Heq, D2 in D1. injection D1 as -> -> -> ->. auto.
Qed.

Lemma getTaskFileUrl_injective_witness :
  word_token "ab12" = true
  /\ getTaskFileUrl 1000 "ab12" dir_out Sig
     <> getTaskFileUrl 1000 "ab12" dir_out Err
  /\ getTaskFileUrl 1000 "ab12" dir_in Dat
     <> getTaskFileUrl 1000 "ab1" dir_in Dat.
Proof.
  split; [reflexivity|]. split; intros Heq.
  - destruct (getTaskFileUrl_injective 1000 "ab12" dir_out Sig
                1000 "ab12" dir_out Err) as (_ & _ & _ & Hk);
      [lia | lia | reflexivity | reflexivity | exact Heq | discriminate Hk].
  - destruct (getTaskFileUrl_injective 1000 "ab12" dir_in Dat
                1000 "ab1" dir_in Dat) as (_ & Hid & _);
      [lia | lia | reflexivity | reflexivity | exact Heq | discriminate Hid].
Defined.

Lemma digits_value_zero ds :
  JS.digits_value (String "0" ds) = JS.digits_value ds.
Proof.
  unfold JS.digits_value. simpl.
  destruct (NilEmpty.uint_of_string ds); reflexivity.
Qed.

(** X2.  The decoder reads the timestamp as a number: a name with one
    more leading zero decodes to the same timestamp, task id, direction and
    kind, so two different names can stand for the same slot of a task. *)
Theorem leading_zero_same_slot u f :
  convertUrl u = Some f ->
  convertUrl ("0" +:+ u)
  = Some (mkFile (date f) (taskId f) (inout f) (ext f) ("0" +:+ u)).
Proof.
  intros (ds & id & io & ex & -> & Hds & Hd & Hid & Hw & ->)%convertUrl_inv.
  simpl. rewrite <- digits_value_zero.
  apply (convertUrl_fields (String "0" ds) id io ex); auto; discriminate.
Qed.

Lemma leading_zero_same_slot_witness :
  convertUrl "007-ab.in.sig" = Some (mkFile 7 "ab" dir_in Sig "007-ab.in.sig").
Proof.
  exact (leading_zero_same_slot "07-ab.in.sig"
           (mkFile 7 "ab" dir_in Sig "07-ab.in.sig") eq_refl).
Defined.

(** X3.  A name outside the grammar in the listing changes neither the
    decoded files nor the assembled tasks. *)
Theorem undecodable_name_ignored (l1 l2 : list string) (u : string) :
  ~ matches_grammar u ->
  convertUrls (l1 ++ u :: l2) = convertUrls (l1 ++ l2)
  /\ toTasks (convertUrls (l1 ++ u :: l2)) = toTasks (convertUrls (l1 ++ l2)).
Proof.
  intros Hu.
  assert (convertUrl u = None) as Hnone.
  { destruct (convertUrl u) eqn:Hc; [|reflexivity].
    exfalso. apply Hu, convertUrl_matches. eauto. }
  assert (convertUrls (l1 ++ u :: l2) = convertUrls (l1 ++ l2)) as Heq.
  { unfold convertUrls. rewrite !omap_app. simpl. now rewrite Hnone. }
  split; [exact Heq|now rewrite Heq].
Qed.

Lemma undecodable_name_ignored_witness :
  toTasks (convertUrls ["10-a.in.dat"; "index.html"; "10-a.in.sig"])
  = toTasks (convertUrls ["10-a.in.dat"; "10-a.in.sig"]).
Proof.
  apply (undecodable_name_ignored ["10-a.in.dat"] ["10-a.in.sig"] "index.html").
  intros Hm. apply convertUrl_matches in Hm. destruct Hm as [f Hf].
  vm_compute in Hf. discriminate.
Defined.

(** *** Assembler *)



(** *** The path of the command's output *)

Lemma all_chars_app p a b :
  all_chars p (a +:+ b) = all_chars p a && all_chars p b.
Proof.
  induction a as [|c a IH]; [reflexivity|].
  rewrite append_cons. simpl. rewrite IH. now rewrite andb_assoc.
Qed.

Lemma all_chars_impl (p q : ascii -> bool) s :
  (forall c, p c = true -> q c = true) ->
  all_chars p s = true -> all_chars q s = true.
Proof.
  intros Hpq. induction s as [|c s IH]; simpl; [reflexivity|].
  intros [Hc Hs]%andb_true_iff. rewrite (Hpq c Hc). auto.
Qed.

Lemma word_not_dot c : is_word c = true -> c <> "."%char.
Proof. intros Hc ->. discriminate. Qed.

Lemma digit_is_word c : is_digit c = true -> is_word c = true.
Proof.
  unfold is_digit, is_word. intros ->. now rewrite orb_true_r.
Qed.

Lemma append_assoc_str (a b c : string) : (a +:+ b) +:+ c = a +:+ b +:+ c.
Proof.
  induction a as [|x a IH]; [reflexivity|].
  rewrite !append_cons. now rewrite IH.
Qed.

Lemma replace_cons_other rep c s :
  c <> "."%char ->
  JS.replace ".in.dat" rep (String c s)
  = String c (JS.replace ".in.dat" rep s).
Proof.
  intros Hc.
  assert (String.prefix ".in.dat" (String c s) = false) as Hp.
  { change (String.prefix ".in.dat" (String c s))
      with (if ascii_dec "." c then String.prefix "in.dat" s else false).
    destruct (ascii_dec "." c); congruence. }
  change (JS.replace ".in.dat" rep (String c s))
    with (if String.prefix ".in.dat" (String c s)
          then rep +:+ String.substring (String.length ".in.dat")
                 (String.length (String c s) - String.length ".in.dat")
                 (String c s)
          else String c (JS.replace ".in.dat" rep s)).
  now rewrite Hp.
Qed.

Lemma replace_past_stem stem :
  all_chars (fun c => negb (Ascii.eqb c ".")) stem = true ->
  JS.replace ".in.dat" ".out.dat" (stem +:+ ".in.dat") = stem +:+ ".out.dat".
Proof.
  induction stem as [|c stem IH]; [reflexivity|].
  intros H. cbn [all_chars] in H. apply andb_true_iff in H as [Hc Hs].
  rewrite !append_cons.
  rewrite replace_cons_other, (IH Hs); [reflexivity|].
  intros ->. discriminate.
Qed.



(** *** Rules for [keeps] and [raises] *)

Section KeepsFacts.
Context (R : World -> World -> Prop).
Hypothesis R_refl : forall w, R w w.
Hypothesis R_trans : forall w1 w2 w3, R w1 w2 -> R w2 w3 -> R w1 w3.

Lemma keeps_ret {A} (a : A) : keeps R (ret a).
Proof. intros w r w' [= <- <-]. apply R_refl. Qed.

Lemma keeps_throw {A} e : keeps R (throw e : M A).
Proof. intros w r w' [= <- <-]. apply R_refl. Qed.

Lemma keeps_bind {A B} (c : M A) (k : A -> M B) :
  keeps R c ->
  (forall a w w1, c w = (Normal a, w1) -> keeps R (k a)) ->
  keeps R (c ≫= k).
Proof.
  intros Hc Hk w r w'. rewrite bind_unfold.
  destruct (c w) as [[a|e] w1] eqn:Hcw.
  - intros Hrun. eapply R_trans; [eapply Hc, Hcw|]. eapply Hk; eauto.
  - intros [= <- <-]. eapply Hc, Hcw.
Qed.

Lemma keeps_try_catch {A} (c : M A) (h : exn -> M A) :
  keeps R c -> (forall e, keeps R (h e)) -> keeps R (try_catch c h).
Proof.
  intros Hc Hh w r w'. unfold try_catch.
  destruct (c w) as [[a|e] w1] eqn:Hcw.
  - intros [= <- <-]. eapply Hc, Hcw.
  - intros Hrun. eapply R_trans; [eapply Hc, Hcw|]. eapply Hh, Hrun.
Qed.

Lemma keeps_try_finally {A} (c : M A) (f : M unit) :
  keeps R c -> keeps R f -> keeps R (try_finally c f).
Proof.
  intros Hc Hf w r w'. unfold try_finally.
  destruct (c w) as [r0 w1] eqn:Hcw.
  destruct (f w1) as [[[]|e] w2] eqn:Hfw; intros [= <- <-];
    (eapply R_trans; [eapply Hc, Hcw|eapply Hf, Hfw]).
Qed.

Lemma keeps_for_each {A} (l : list A) (body : A -> M unit) :
  (forall x, x ∈ l -> keeps R (body x)) -> keeps R (for_each l body).
Proof.
  induction l as [|x l IH]; intros Hb; simpl.
  - apply keeps_ret.
  - apply keeps_bind; [apply Hb, list_elem_of_here|].
    intros _ _ _ _. apply IH. intros y Hy. apply Hb. now apply list_elem_of_further.
Qed.
End KeepsFacts.

Section RaisesFacts.
Context (P : exn -> Prop).

Lemma raises_ret {A} (a : A) : raises P (ret a).
Proof. intros w e w'. discriminate. Qed.

Lemma raises_throw {A} e : P e -> raises P (throw e : M A).
Proof. intros He w e' w' [= <- _]. exact He. Qed.

Lemma raises_bind {A B} (c : M A) (k : A -> M B) :
  raises P c ->
  (forall a w w1, c w = (Normal a, w1) -> raises P (k a)) ->
  raises P (c ≫= k).
Proof.
  intros Hc Hk w e w'. rewrite bind_unfold.
  destruct (c w) as [[a|e0] w1] eqn:Hcw.
  - intros Hrun. eapply Hk; eauto.
  - intros [= <- <-]. eapply Hc, Hcw.
Qed.

Lemma raises_try_catch {A} (c : M A) (h : exn -> M A) :
  (forall e, raises P (h e)) -> raises P (try_catch c h).
Proof.
  intros Hh w e w'. unfold try_catch.
  destruct (c w) as [[a|e0] w1]; [discriminate|]. apply Hh.
Qed.

Lemma raises_for_each {A} (l : list A) (body : A -> M unit) :
  (forall x, raises P (body x)) -> raises P (for_each l body).
Proof.
  intros Hb. induction l as [|x l IH]; simpl.
  - apply raises_ret.
  - apply raises_bind; [apply Hb|]. intros _ _ _ _. exact IH.
Qed.
End RaisesFacts.

(** *** [runTask] on every path *)

Section RunTaskFacts.
Variable E : Env.

Lemma touches_refl names id w : touches_only names id w w.
Proof. repeat split; auto. Qed.

Lemma touches_trans names id w1 w2 w3 :
  touches_only names id w1 w2 -> touches_only names id w2 w3 ->
  touches_only names id w1 w3.
Proof.
  intros (Hn1 & Hs1 & Hr1) (Hn2 & Hs2 & Hr2). repeat split.
  - congruence.
  - intros u Hu. now rewrite Hs2, Hs1.
  - intros id' Hid. now rewrite Hr2, Hr1.
Qed.

Lemma keeps_bind_t names id {A B} (c : M A) (k : A -> M B) :
  keeps (touches_only names id) c ->
  (forall a, keeps (touches_only names id) (k a)) ->
  keeps (touches_only names id) (c ≫= k).
Proof.
  intros Hc Hk.
  apply keeps_bind; [apply touches_trans|exact Hc|intros a _ _ _; apply Hk].
Qed.

(** A step that leaves the clock, the store and the retry table alone. *)
Lemma keeps_local names id {A} (c : M A) :
  (forall w r w', c w = (r, w') ->
     now w' = now w /\ store w' = store w /\ retries w' = retries w) ->
  keeps (touches_only names id) c.
Proof.
  intros H w r w' Hrun. destruct (H _ _ _ Hrun) as (Hn & Hs & Hr).
  unfold touches_only. rewrite Hn, Hs, Hr. auto.
Qed.

Lemma local_readFileSync names id p :
  keeps (touches_only names id) (readFileSync p).
Proof.
  apply keeps_local. intros w r w'. unfold readFileSync.
  destruct (tmp w !! p); intros [= <- <-]; auto.
Qed.

Lemma local_unlinkSync names id p :
  keeps (touches_only names id) (unlinkSync p).
Proof.
  apply keeps_local. intros w r w'. unfold unlinkSync.
  destruct (tmp w !! p); intros [= <- <-]; auto.
Qed.

Lemma local_existsSync names id p :
  keeps (touches_only names id) (existsSync p).
Proof. apply keeps_local. intros w r w' [= <- <-]; auto. Qed.

Lemma local_task_file_url names id t d k :
  keeps (touches_only names id) (task_file_url t d k).
Proof.
  apply keeps_local. intros w r w'. unfold task_file_url, task_file.
  rewrite bind_unfold. destruct (task_slot t d) as [s|]; [|intros [= <- <-]; auto].
  unfold ret. destruct (JS.get s k); intros [= <- <-]; auto.
Qed.

Lemma local_downloadFile names id u :
  keeps (touches_only names id) (downloadFile E u).
Proof.
  apply keeps_local. intros w r w'. unfold downloadFile.
  destruct (rejects E w (GET u)); [|destruct (store w !! u)];
    intros [= <- <-]; auto.
Qed.

Lemma local_execSync names id i o :
  keeps (touches_only names id) (execSync E i o).
Proof.
  apply keeps_local. intros w r w'. unfold execSync.
  destruct (exit_ok (command E w i o)); intros [= <- <-];
    destruct (written (command E w i o)); auto.
Qed.

Lemma keeps_upload (names : string -> Prop) id u d :
  names u -> keeps (touches_only names id) (upload E u d).
Proof.
  intros Hu w r w'. unfold upload.
  destruct (rejects E w (PUT u d)); intros [= <- <-];
    [repeat split; auto|].
  repeat split; auto. simpl. intros v Hv.
  apply lookup_insert_ne. congruence.
Qed.

Create HintDb frame.

#[local] Hint Resolve local_readFileSync local_unlinkSync local_existsSync
  local_task_file_url local_downloadFile local_execSync keeps_upload
  touches_refl : frame.
#[local] Hint Extern 1 (keeps _ (ret _)) =>
  apply keeps_ret; apply touches_refl : frame.
#[local] Hint Extern 1 (keeps _ (throw _)) =>
  apply keeps_throw; apply touches_refl : frame.
#[local] Hint Extern 1 (output_name _ _) => eexists; reflexivity : frame.

Ltac frame_step := apply keeps_bind_t; [auto with frame | intros ?].

Lemma keeps_uploadTaskResult t outFile error :
  keeps (touches_only (output_name t) (task_id t))
        (uploadTaskResult E t outFile error).
Proof.
  unfold uploadTaskResult. apply keeps_bind_t.
  - destruct outFile; auto with frame.
  - intros data. frame_step. auto with frame.
Qed.

Lemma keeps_on_failure t inFile e :
  keeps (touches_only (output_name t) (task_id t)) (on_failure E t inFile e).
Proof.
  intros w r w'. unfold on_failure.
  set (c := default 0 (retries w !! task_id t)).
  destruct (c >=? commandRetries (cfg E)).
  - intros Hrun.
    assert (keeps (touches_only (output_name t) (task_id t))
              (unlinkSync inFile ;; uploadTaskResult E t None (exn_toString e)))
      as Hk by (frame_step; apply keeps_uploadTaskResult).
    apply Hk in Hrun. eapply touches_trans; [|exact Hrun].
    repeat split; auto. simpl. intros id' Hid.
    rewrite lookup_delete_ne, lookup_insert_ne by congruence. reflexivity.
  - intros [= <- <-]. repeat split; auto. simpl. intros id' Hid.
    now rewrite lookup_insert_ne by congruence.
Qed.

Lemma runTask_frame t :
  keeps (touches_only (output_name t) (task_id t)) (runTask E t).
Proof.
  unfold runTask. do 7 frame_step.
  destruct (verify E _ _ _).
  - apply keeps_try_catch;
      [apply touches_trans| |intros; apply keeps_on_failure].
    apply keeps_bind_t; [auto with frame|intros _].
    apply keeps_bind_t; [auto with frame|intros created].
    apply keeps_bind_t; [destruct created; auto with frame|intros _].
    frame_step. apply keeps_bind_t; [apply keeps_uploadTaskResult|intros _].
    auto with frame.
  - frame_step. apply keeps_uploadTaskResult.
Qed.

Lemma no_deletes_appended t evs tr :
  Forall (runTask_event t) evs -> deletes (evs ++ tr) = deletes tr.
Proof.
  induction 1 as [|e evs He _ IH]; [reflexivity|]. simpl.
  rewrite deletes_cons, IH.
  destruct e as [[]|]; simpl in He; try apply app_nil_r. destruct He.
Qed.

End RunTaskFacts.



Section RunTaskPaths.
Variable E : Env.

Lemma raises_downloadFile u : raises io_error (downloadFile E u).
Proof. intros w e w' ->%downloadFile_throws. exact I. Qed.

Lemma raises_readFileSync p : raises io_error (readFileSync p).
Proof. intros w e w' ->%readFileSync_throws. exact I. Qed.

Lemma raises_unlinkSync p : raises io_error (unlinkSync p).
Proof. intros w e w' ->%unlinkSync_throws. exact I. Qed.

Lemma raises_upload u d : raises io_error (upload E u d).
Proof.
  intros w e w'. unfold upload.
  destruct (rejects E w (PUT u d)); [|discriminate].
  intros [= <- _]. exact I.
Qed.

Lemma raises_uploadTaskResult t outFile error :
  raises io_error (uploadTaskResult E t outFile error).
Proof.
  unfold uploadTaskResult. apply raises_bind.
  - destruct outFile; [apply raises_readFileSync|apply raises_ret].
  - intros data _ _ _. apply raises_bind; [apply raises_upload|].
    intros _ _ _ _. apply raises_upload.
Qed.

Lemma raises_on_failure t inFile e :
  raises io_error (on_failure E t inFile e).
Proof.
  intros w e' w'. unfold on_failure.
  destruct (_ >=? _); [|discriminate].
  apply (raises_bind io_error (unlinkSync inFile)
           (fun _ => uploadTaskResult E t None (exn_toString e))).
  - apply raises_unlinkSync.
  - intros _ _ _ _. apply raises_uploadTaskResult.
Qed.

(** A task that [toTasks] assembled has both input files in its record. *)
Lemma assembled_has_input files t :
  t ∈ toTasks files ->
  exists s fd fs, task_in t = Some s /\ JS.get s Dat = Some fd
                  /\ JS.get s Sig = Some fs.
Proof.
  intros (id & g & Hg & Ht)%elem_of_toTasks. unfold to_task in Ht.
  destruct (g_in g) as [s|] eqn:Hin; [|discriminate].
  destruct (JS.get s Sig) as [fs|] eqn:Hs; [|discriminate].
  destruct (JS.get s Dat) as [fd|] eqn:Hd; [|discriminate].
  injection Ht as <-. simpl. eauto 6.
Qed.

Lemma runTask_raises files t :
  t ∈ toTasks files -> raises io_error (runTask E t).
Proof.
  intros (s & fd & fs & Hin & Hd & Hs)%assembled_has_input. unfold runTask.
  apply raises_bind.
  { intros w e w' H. now rewrite (task_file_url_ok t dir_in Dat s fd) in H. }
  intros inUrl _ _ _. apply raises_bind; [apply raises_downloadFile|].
  intros inFile _ _ _. apply raises_bind.
  { intros w e w' H. now rewrite (task_file_url_ok t dir_in Sig s fs) in H. }
  intros sigUrl _ _ _. apply raises_bind; [apply raises_downloadFile|].
  intros sigFile _ _ _. apply raises_bind; [apply raises_readFileSync|].
  intros signature _ _ _. apply raises_bind; [apply raises_unlinkSync|].
  intros _ _ _ _. apply raises_bind; [apply raises_readFileSync|].
  intros data _ _ _. destruct (verify E _ _ _).
  - apply raises_try_catch. intros e. apply raises_on_failure.
  - apply raises_bind; [apply raises_unlinkSync|].
    intros _ _ _ _. apply raises_uploadTaskResult.
Qed.

(** What a run of the command leaves behind. *)
Lemma execSync_world i o w :
  let w' := (execSync E i o w).2 in
  store w' = store w /\ retries w' = retries w
  /\ trace w' = Exec i o :: trace w
  /\ (forall p, p <> o -> tmp w' !! p = tmp w !! p).
Proof.
  unfold execSync.
  destruct (exit_ok (command E w i o)), (written (command E w i o)); simpl;
    repeat split; auto; intros p Hp; now rewrite lookup_insert_ne.
Qed.

Lemma execSync_ok i o w :
  exit_ok (command E w i o) = true ->
  execSync E i o w = (Normal tt, (execSync E i o w).2).
Proof. unfold execSync. now intros ->. Qed.

End RunTaskPaths.



Section RunTaskSuccess.
Variable E : Env.

(** The [try] block of [runTask] up to the upload, for a command that exits
    with 0 and leaves a file at [outFile]. *)
Lemma try_body_runs (K : M unit) inFile outFile data out w :
  outFile <> inFile ->
  exit_ok (command E w inFile outFile) = true ->
  tmp w !! inFile = Some data ->
  tmp (execSync E inFile outFile w).2 !! outFile = Some out ->
  let w3 := (execSync E inFile outFile w).2 in
  (execSync E inFile outFile ;;
   created ← existsSync outFile;
   (if (created : bool) then ret tt
    else throw (Error "Output file was not created") : M unit) ;;
   unlinkSync inFile ;;
   K) w
  = K (with_tmp w3 (delete inFile (tmp w3))).
Proof.
  intros Hne Hexit Hin Hout w3.
  destruct (execSync_world E inFile outFile w) as (_ & _ & _ & Htmp).
  rewrite bind_unfold, execSync_ok by exact Hexit. fold w3.
  rewrite bind_unfold. unfold existsSync at 1. cbv beta iota.
  rewrite bool_decide_eq_true_2 by (unfold w3; rewrite Hout; eauto).
  rewrite bind_unfold. unfold ret at 1. cbv beta iota.
  rewrite bind_unfold, (unlinkSync_ok _ data); [reflexivity|].
  unfold w3. rewrite Htmp by congruence. exact Hin.
Qed.

Lemma uploadTaskResult_output t outFile out w :
  tmp w !! outFile = Some out ->
  uploadTaskResult E t (Some outFile) "" w
  = (upload E (getTaskFileUrl (task_date t) (task_id t) dir_out Dat) out ;;
     upload E (getTaskFileUrl (task_date t) (task_id t) dir_out Sig)
            (sign E out (serverPrivateKey (cfg E)))) w.
Proof.
  intros Hout. unfold uploadTaskResult.
  rewrite bind_unfold, (readFileSync_ok _ out) by exact Hout. reflexivity.
Qed.

End RunTaskSuccess.

(** X8.  The success path of [runTask].  For an input whose signature
    verifies and a command that exits with 0 and leaves [out] at the
    [OUTPUT] path, [runTask] returns normally after one run of the command
    and two uploads: [out] as the task's [out.dat], then its signature under
    the server key as [out.sig].  Nothing else in the store changes, both
    local files are removed, and the retry counter of the task is left as it
    was (a count from earlier failed attempts is not cleared). *)
Theorem runTask_publishes_result (E : Env) (t : task) (fd fs : file)
    (data sg out : string) (w : World) r w' :
  ready E t fd fs data sg w ->
  verify E data sg (clientPublicKey (cfg E)) = true ->
  let outFile := JS.replace ".in.dat" ".out.dat" (url fd) in
  let w2 := fetched fd fs data sg w in
  outFile <> url fd ->
  exit_ok (command E w2 (url fd) outFile) = true ->
  tmp (execSync E (url fd) outFile w2).2 !! outFile = Some out ->
  (forall w0 u d, rejects E w0 (PUT u d) = false) ->
  runTask E t w = (r, w') ->
  let datUrl := getTaskFileUrl (task_date t) (task_id t) dir_out Dat in
  let sigUrl := getTaskFileUrl (task_date t) (task_id t) dir_out Sig in
  let signature := sign E out (serverPrivateKey (cfg E)) in
  r = Normal tt
  /\ store w' = <[sigUrl := signature]> (<[datUrl := out]> (store w))
  /\ puts (trace w') = puts (trace w) ++ [(datUrl, out); (sigUrl, signature)]
  /\ execs (trace w') = execs (trace w) ++ [(url fd, outFile)]
  /\ deletes (trace w') = deletes (trace w)
  /\ retries w' = retries w
  /\ tmp w' !! url fd = None
  /\ tmp w' !! outFile = None.
Proof.
  intros Hready Hv outFile w2 Hne Hexit Hout Hput Hrun datUrl sigUrl signature.
  rewrite (runTask_fetch E t fd fs data sg w Hready), Hv in Hrun.
  cbv zeta in Hrun. fold outFile w2 in Hrun.
  destruct Hready as (_ & Hurl & _).
  destruct (execSync_world E (url fd) outFile w2) as (Hst & Hre & Htr & Htmp).
  unfold try_catch in Hrun.
  rewrite (try_body_runs E _ (url fd) outFile data out w2) in Hrun;
    [|assumption|assumption|now apply fetched_tmp_in|assumption].
  set (w3 := (execSync E (url fd) outFile w2).2) in *.
  rewrite bind_unfold, (uploadTaskResult_output E t outFile out) in Hrun
    by (simpl; now rewrite lookup_delete_ne).
  rewrite bind_unfold, upload_ok, upload_ok in Hrun by auto.
  rewrite (unlinkSync_ok _ out) in Hrun
    by (simpl; now rewrite lookup_delete_ne).
  injection Hrun as <- <-. simpl.
  rewrite Hst, Hre, Htr. simpl.
  rewrite ?puts_cons, ?execs_cons, ?deletes_cons. simpl.
  rewrite ?puts_cons, ?execs_cons, ?deletes_cons, ?app_nil_r, <- ?app_assoc.
  simpl. repeat split.
  - rewrite lookup_delete_ne by assumption. apply lookup_delete_eq.
  - apply lookup_delete_eq.
Qed.

Lemma runTask_publishes_result_witness :
  let E := Toy.env Toy.toy_cfg Toy.accept_all Toy.hello in
  let run := runTask E Toy.submitted_task
               (with_retries Toy.submitted_world {["ab12" := 1]}) in
  run.1 = Normal tt
  /\ store run.2 !! "1000-ab12.out.dat" = Some "Hello, alice!"
  /\ store run.2 !! "1000-ab12.out.sig" = Some "Hello, alice!/sk"
  /\ retries run.2 !! "ab12" = Some 1.
Proof.
  intros E run.
  destruct (runTask_publishes_result E Toy.submitted_task Toy.in_dat Toy.in_sig
              "alice" "alice/ck" "Hello, alice!"
              (with_retries Toy.submitted_world {["ab12" := 1]}) run.1 run.2)
    as (Hr & Hst & _ & _ & _ & Hre & _).
  - split; [exists [(Dat, Toy.in_dat); (Sig, Toy.in_sig)]; auto|].
    split; [discriminate|]. split; [reflexivity|]. split; [reflexivity|].
    reflexivity.
  - reflexivity.
  - discriminate.
  - reflexivity.
  - vm_compute. reflexivity.
  - reflexivity.
  - apply surjective_pairing.
  - split; [exact Hr|]. rewrite Hst, Hre. repeat split.
Defined.

(** X9.  A result whose signature cannot be uploaded.  When the command
    succeeds, the upload of [out.dat] is accepted and the upload of
    [out.sig] is rejected, the [catch] block of [runTask] runs with the
    local input file already removed: the store is left with [out.dat] and
    no [out.sig], and no error object is uploaded.  Below the retry budget
    the call returns normally with the counter advanced; at the budget the
    counter is cleared and the second [unlinkSync(inFile)] throws, so the
    call ends with the file-system error instead of publishing an error
    result. *)
Theorem runTask_signature_upload_rejected (E : Env) (t : task) (fd fs : file)
    (data sg out : string) (w : World) r w' :
  ready E t fd fs data sg w ->
  verify E data sg (clientPublicKey (cfg E)) = true ->
  let outFile := JS.replace ".in.dat" ".out.dat" (url fd) in
  let w2 := fetched fd fs data sg w in
  let datUrl := getTaskFileUrl (task_date t) (task_id t) dir_out Dat in
  let sigUrl := getTaskFileUrl (task_date t) (task_id t) dir_out Sig in
  let signature := sign E out (serverPrivateKey (cfg E)) in
  outFile <> url fd ->
  exit_ok (command E w2 (url fd) outFile) = true ->
  tmp (execSync E (url fd) outFile w2).2 !! outFile = Some out ->
  (forall w0, rejects E w0 (PUT datUrl out) = false) ->
  (forall w0, rejects E w0 (PUT sigUrl signature) = true) ->
  runTask E t w = (r, w') ->
  let c := default 0 (retries w !! task_id t) in
  store w' = <[datUrl := out]> (store w)
  /\ puts (trace w') = puts (trace w) ++ [(datUrl, out); (sigUrl, signature)]
  /\ tmp w' !! url fd = None
  /\ if c >=? commandRetries (cfg E)
     then r = Throw (FsError (url fd))
          /\ retries w' = delete (task_id t) (retries w)
     else r = Normal tt
          /\ retries w' = <[task_id t := c + 1]> (retries w).
Proof.
  intros Hready Hv outFile w2 datUrl sigUrl signature Hne Hexit Hout
    Hdat Hsig Hrun c.
  rewrite (runTask_fetch E t fd fs data sg w Hready), Hv in Hrun.
  cbv zeta in Hrun. fold outFile w2 in Hrun.
  destruct Hready as (_ & Hurl & _).
  destruct (execSync_world E (url fd) outFile w2) as (Hst & Hre & Htr & Htmp).
  unfold try_catch in Hrun.
  rewrite (try_body_runs E _ (url fd) outFile data out w2) in Hrun;
    [|assumption|assumption|now apply fetched_tmp_in|assumption].
  set (w3 := (execSync E (url fd) outFile w2).2) in *.
  rewrite bind_unfold, (uploadTaskResult_output E t outFile out) in Hrun
    by (simpl; now rewrite lookup_delete_ne).
  rewrite bind_unfold, upload_ok in Hrun by apply Hdat.
  unfold upload in Hrun. fold datUrl sigUrl signature in Hrun.
  rewrite Hsig in Hrun.
  unfold on_failure in Hrun. simpl in Hrun. rewrite Hre in Hrun.
  change (retries w2) with (retries w) in Hrun. fold c in Hrun.
  destruct (c >=? commandRetries (cfg E)).
  - rewrite bind_unfold in Hrun. unfold unlinkSync at 1 in Hrun.
    simpl in Hrun. rewrite lookup_delete_eq in Hrun.
    injection Hrun as <- <-. simpl. rewrite Hst, Htr. simpl.
    rewrite ?puts_cons. simpl. rewrite ?puts_cons, ?app_nil_r, <- ?app_assoc.
    simpl. repeat split.
    + apply lookup_delete_eq.
    + apply delete_insert_eq.
  - injection Hrun as <- <-. simpl. rewrite Hst, Htr. simpl.
    rewrite ?puts_cons. simpl. rewrite ?puts_cons, ?app_nil_r, <- ?app_assoc.
    simpl. repeat split. apply lookup_delete_eq.
Qed.

Lemma runTask_signature_upload_rejected_witness :
  let reject := fun (_ : World) r =>
                  match r with
                  | PUT u _ => String.eqb u "1000-ab12.out.sig"
                  | _ => false
                  end in
  let E := Toy.env Toy.toy_cfg reject Toy.hello in
  let first := runTask E Toy.submitted_task Toy.submitted_world in
  let last := runTask E Toy.submitted_task
                (with_retries Toy.submitted_world {["ab12" := 2]}) in
  (first.1 = Normal tt
   /\ store first.2 !! "1000-ab12.out.dat" = Some "Hello, alice!"
   /\ store first.2 !! "1000-ab12.out.sig" = None
   /\ retries first.2 !! "ab12" = Some 1)
  /\ (last.1 = Throw (FsError "1000-ab12.in.dat")
      /\ store last.2 !! "1000-ab12.out.err" = None
      /\ retries last.2 !! "ab12" = None).
Proof.
  intros reject E first last.
  assert (forall w0, ready E Toy.submitted_task Toy.in_dat Toy.in_sig
                       "alice" "alice/ck"
                       (with_retries Toy.submitted_world w0)) as Hready.
  { intros w0. split; [exists [(Dat, Toy.in_dat); (Sig, Toy.in_sig)]; auto|].
    split; [discriminate|]. split; [reflexivity|]. split; [reflexivity|].
    reflexivity. }
  split.
  - destruct (runTask_signature_upload_rejected E Toy.submitted_task
                Toy.in_dat Toy.in_sig "alice" "alice/ck" "Hello, alice!"
                Toy.submitted_world first.1 first.2 (Hready ∅) eq_refl)
      as (Hst & _ & _ & Hr & Hre);
      [discriminate|reflexivity|vm_compute; reflexivity|reflexivity
      |reflexivity|apply surjective_pairing|].
    split; [exact Hr|]. rewrite Hst, Hre. repeat split.
  - destruct (runTask_signature_upload_rejected E Toy.submitted_task
                Toy.in_dat Toy.in_sig "alice" "alice/ck" "Hello, alice!"
                (with_retries Toy.submitted_world {["ab12" := 2]})
                last.1 last.2 (Hready _) eq_refl)
      as (Hst & _ & _ & Hr & Hre);
      [discriminate|reflexivity|vm_compute; reflexivity|reflexivity
      |reflexivity|apply surjective_pairing|].
    split; [exact Hr|]. rewrite Hst, Hre. repeat split.
Defined.

(** *** Which objects a server and a client delete *)

Section DeleteFacts.
Variable E : Env.
Variable own : string -> Prop.

Lemma expired_name_mono T T' u :
  T <= T' -> expired_name E T u -> expired_name E T' u.
Proof.
  intros HT (f & Hc & Hexp). exists f. split; [exact Hc|].
  apply expired_iff. apply expired_iff in Hexp. lia.
Qed.

Lemma deletes_only_refl w : deletes_only E own w w.
Proof.
  split; [lia|]. exists []. rewrite app_nil_r. split; [reflexivity|].
  intros u Hu. inversion Hu.
Qed.

Lemma deletes_only_trans w1 w2 w3 :
  deletes_only E own w1 w2 -> deletes_only E own w2 w3 ->
  deletes_only E own w1 w3.
Proof.
  intros (Hn1 & ds1 & Hd1 & Ha1) (Hn2 & ds2 & Hd2 & Ha2).
  split; [lia|]. exists (ds1 ++ ds2).
  split; [now rewrite Hd2, Hd1, app_assoc|].
  intros u [Hu|Hu]%elem_of_app; [|auto].
  destruct (Ha1 u Hu) as [?|Hexp]; [auto|].
  right. now apply (expired_name_mono (now w2)).
Qed.

Lemma keeps_bind_d {A B} (c : M A) (k : A -> M B) :
  keeps (deletes_only E own) c ->
  (forall a, keeps (deletes_only E own) (k a)) ->
  keeps (deletes_only E own) (c ≫= k).
Proof.
  intros Hc Hk.
  apply keeps_bind; [apply deletes_only_trans|exact Hc|intros a _ _ _; apply Hk].
Qed.

(** A step that sends no delete and does not turn the clock back. *)
Lemma keeps_quiet {A} (c : M A) :
  (forall w r w', c w = (r, w') ->
     now w <= now w' /\ deletes (trace w') = deletes (trace w)) ->
  keeps (deletes_only E own) c.
Proof.
  intros H w r w' Hrun. destruct (H _ _ _ Hrun) as (Hn & Hd).
  split; [exact Hn|]. exists []. rewrite app_nil_r. split; [exact Hd|].
  intros u Hu. inversion Hu.
Qed.

Lemma quiet_readFileSync p : keeps (deletes_only E own) (readFileSync p).
Proof.
  apply keeps_quiet. intros w r w'. unfold readFileSync.
  destruct (tmp w !! p); intros [= <- <-]; split; auto; lia.
Qed.

Lemma quiet_unlinkSync p : keeps (deletes_only E own) (unlinkSync p).
Proof.
  apply keeps_quiet. intros w r w'. unfold unlinkSync.
  destruct (tmp w !! p); intros [= <- <-]; split; auto; simpl; lia.
Qed.

Lemma quiet_task_file t d k : keeps (deletes_only E own) (task_file t d k).
Proof.
  apply keeps_quiet. intros w r w'. unfold task_file.
  destruct (task_slot t d); intros [= <- <-]; split; auto; lia.
Qed.

Lemma quiet_task_file_url t d k :
  keeps (deletes_only E own) (task_file_url t d k).
Proof.
  unfold task_file_url. apply keeps_bind_d; [apply quiet_task_file|].
  intros [f|]; [apply keeps_ret|apply keeps_throw]; apply deletes_only_refl.
Qed.

Lemma quiet_downloadFile u : keeps (deletes_only E own) (downloadFile E u).
Proof.
  apply keeps_quiet. intros w r w'. unfold downloadFile.
  destruct (rejects E w (GET u)); [|destruct (store w !! u)];
    intros [= <- <-]; simpl; rewrite deletes_cons, app_nil_r; split; auto; lia.
Qed.

Lemma quiet_upload u d : keeps (deletes_only E own) (upload E u d).
Proof.
  apply keeps_quiet. intros w r w'. unfold upload.
  destruct (rejects E w (PUT u d)); intros [= <- <-]; simpl;
    rewrite deletes_cons, app_nil_r; split; auto; lia.
Qed.

Lemma quiet_timeout ms : keeps (deletes_only E own) (timeout ms).
Proof.
  apply keeps_quiet. intros w r w' [= <- <-]. simpl.
  pose proof (delay_pos ms). split; [lia|reflexivity].
Qed.

Lemma quiet_testSign a b c : keeps (deletes_only E own) (testSign E a b c).
Proof.
  apply keeps_quiet. intros w r w'. unfold testSign.
  destruct (negb _); [|destruct (verify E _ _ c)];
    intros [= <- <-]; split; auto; lia.
Qed.

Lemma quiet_runTask t : keeps (deletes_only E own) (runTask E t).
Proof.
  apply keeps_quiet. intros w r w' Hrun.
  destruct (runTask_effects E t _ _ _ Hrun) as (evs & Htr & Hall).
  destruct (runTask_frame E t _ _ _ Hrun) as (Hn & _).
  split; [lia|]. rewrite Htr. now apply (no_deletes_appended t).
Qed.

Lemma keeps_deleteFile u : own u -> keeps (deletes_only E own) (deleteFile E u).
Proof.
  intros Hu w r w' Hrun. split.
  - revert Hrun. unfold deleteFile.
    destruct (rejects E w (DELETE u)); intros [= <- <-]; simpl; lia.
  - exists [u]. split.
    + revert Hrun. unfold deleteFile.
      destruct (rejects E w (DELETE u)); intros [= <- <-]; simpl;
        now rewrite deletes_cons.
    + intros v ->%list_elem_of_singleton. now left.
Qed.

Lemma keeps_listFiles : keeps (deletes_only E own) (listFiles E).
Proof.
  intros w r w'. unfold listFiles. rewrite bind_unfold. unfold list_urls.
  destruct (rejects E w LIST).
  - intros [= <- <-]. split; [simpl; lia|]. exists [].
    simpl. rewrite deletes_cons. split; [reflexivity|].
    intros u Hu. inversion Hu.
  - set (w1 := log (Sent LIST true) w).
    set (files := convertUrls (map fst (map_to_list (store w)))).
    intros Hrun.
    destruct (deleteExpiredFiles_spec E files w1) as (w2 & Heq & Hs).
    rewrite Heq in Hrun. injection Hrun as <- <-.
    destruct Hs as (_ & _ & Hn & _ & Hd & _).
    simpl in Hn, Hd. rewrite deletes_cons, app_nil_r in Hd.
    split; [lia|]. eexists. split; [exact Hd|].
    intros u (f & -> & Hf)%list_elem_of_fmap. right.
    apply list_elem_of_In, filter_In in Hf as [Hf Hexp].
    apply list_elem_of_In, elem_of_convertUrls in Hf as [_ Hc].
    exists f. rewrite Hn. auto.
Qed.

Lemma server_iteration_deletes :
  keeps (deletes_only E own) (server_iteration E).
Proof.
  unfold server_iteration.
  apply keeps_try_catch;
    [apply deletes_only_trans| |intros; apply quiet_timeout].
  apply keeps_bind_d; [apply keeps_listFiles|intros files].
  apply keeps_bind_d; [|intros; apply quiet_timeout].
  destruct (head _); [apply quiet_runTask|].
  apply keeps_ret, deletes_only_refl.
Qed.

Lemma server_iteration_returns w :
  exists w', server_iteration E w = (Normal tt, w')
             /\ now w' = now w + delay (pollMillis (cfg E)).
Proof.
  unfold server_iteration, try_catch. rewrite bind_unfold.
  destruct (listFiles E w) as [[files|e] w1] eqn:Hl;
    destruct (listFiles_spec E w _ w1 Hl) as (Hn & _).
  - rewrite bind_unfold.
    destruct (head (pending (toTasks files))) as [t|].
    + destruct (runTask E t w1) as [[[]|e] w2] eqn:Hrun;
        destruct (runTask_frame E t _ _ _ Hrun) as (Hn2 & _);
        eexists; (split; [reflexivity|]); simpl; lia.
    + eexists. split; [reflexivity|]. simpl. lia.
  - eexists. split; [reflexivity|]. simpl. lia.
Qed.

Lemma server_loop_returns n w :
  exists w', server_loop E n w = (Normal tt, w')
             /\ now w' = now w + Z.of_nat n * delay (pollMillis (cfg E)).
Proof.
  revert w. induction n as [|n IH]; intros w.
  - exists w. split; [reflexivity|]. lia.
  - destruct (server_iteration_returns w) as (w1 & H1 & Hn1).
    destruct (IH w1) as (w' & H' & Hn').
    exists w'. cbn [server_loop]. rewrite bind_unfold, H1.
    split; [exact H'|]. lia.
Qed.

Lemma server_loop_deletes n : keeps (deletes_only E own) (server_loop E n).
Proof.
  induction n as [|n IH]; simpl.
  - apply keeps_ret, deletes_only_refl.
  - apply keeps_bind_d; [apply server_iteration_deletes|intros _; exact IH].
Qed.

End DeleteFacts.



Section SlotFacts.

Lemma elem_of_set_inv {K V} `{EqDecision K} (o : list (K * V)) k v kv :
  kv ∈ JS.set o k v -> kv = (k, v) \/ kv ∈ o.
Proof.
  induction o as [|[k' v'] o IH]; simpl.
  - intros ->%list_elem_of_singleton. now left.
  - destruct (decide (k = k')) as [->|Hne].
    + intros [->|Hin]%elem_of_cons; [now left|].
      right. now apply list_elem_of_further.
    + intros [->|Hin]%elem_of_cons; [right; apply list_elem_of_here|].
      destruct (IH Hin) as [->|Hin']; [now left|].
      right. now apply list_elem_of_further.
Qed.

(** Every file kept under a task id and a direction was listed with that
    id and that direction. *)
Lemma side_files files id d s kf :
  side_of (foldl add_file [] files) id d = Some s -> kf ∈ s ->
  kf.2 ∈ files /\ taskId kf.2 = id /\ inout kf.2 = d.
Proof.
  revert s. induction files as [|x files IH] using rev_ind; intros s.
  - discriminate.
  - rewrite foldl_snoc, side_add_file.
    destruct (decide (id = taskId x /\ d = inout x)) as [[-> ->]|Hne].
    + intros [= <-] [->|Hin]%elem_of_set_inv.
      * simpl. split; [|auto]. apply elem_of_app. right. apply list_elem_of_here.
      * destruct (side_of (foldl add_file [] files) (taskId x) (inout x))
          as [s0|] eqn:Hs0; simpl in Hin; [|inversion Hin].
        destruct (IH s0 eq_refl Hin) as (Hf & Hid & Hio).
        split; [|auto]. apply elem_of_app. now left.
    + intros Hs Hin. destruct (IH s Hs Hin) as (Hf & Hid & Hio).
      split; [|auto]. apply elem_of_app. now left.
Qed.

Lemma assembled_slot_files files t d s f :
  t ∈ toTasks files -> task_slot t d = Some s -> f ∈ JS.values s ->
  f ∈ files /\ taskId f = task_id t /\ inout f = d.
Proof.
  intros (id & g & Hg & Ht)%elem_of_toTasks Hs Hf.
  pose proof (task_id_key _ _ _ _ Hg Ht) as Hkey.
  destruct (to_task_foldl _ _ _ _ Hg Ht) as (sg & _ & _ & ->).
  simpl in Hkey. unfold JS.values in Hf.
  apply list_elem_of_fmap in Hf as (kf & -> & Hin).
  rewrite Hkey. apply (side_files files id d s kf); [|exact Hin].
  unfold side_of. rewrite Hg. simpl. now destruct d.
Qed.

End SlotFacts.

Section SessionFacts.
Variable E : Env.

(** What the poll loop can end with. *)
Lemma poll_outcome n dt id w r w' :
  poll E n dt id w = (r, w') ->
  match r with
  | Normal None =>
      (n = O /\ w' = w)
      \/ now w' - dt <= taskExpirationMillis (cfg E)
                        + delay (pollMillis (cfg E))
  | Normal (Some t) =>
      resolved id t = true
      /\ now w' - dt <= taskExpirationMillis (cfg E)
                        + delay (pollMillis (cfg E))
      /\ exists w0 w1 files,
          listFiles E w0 = (Normal files, w1) /\ t ∈ toTasks files
  | Throw e =>
      e = Error "Timed out" /\ taskExpirationMillis (cfg E) < now w' - dt
  end.
Proof.
  revert w. induction n as [|n IH]; intros w; simpl.
  - intros [= <- <-]. left. auto.
  - rewrite bind_unfold. unfold Date_now.
    destruct (Z.gtb_spec (now w - dt) (taskExpirationMillis (cfg E)))
      as [Hlate|Hearly].
    { intros [= <- <-]. split; [reflexivity|lia]. }
    rewrite bind_unfold. unfold timeout.
    set (w1 := with_now w (now w + delay (pollMillis (cfg E)))).
    rewrite bind_unfold. unfold try_catch. rewrite bind_unfold.
    destruct (listFiles E w1) as [[files|e] w2] eqn:Hl.
    + unfold ret at 1. cbv beta iota.
      destruct (head (List.filter (resolved id) (toTasks files)))
        as [t|] eqn:Hhead.
      * intros [= <- <-].
        apply head_Some_elem_of, list_elem_of_In, filter_In in Hhead
          as [Hin Hres].
        destruct (listFiles_spec E w1 _ w2 Hl) as (Hn & _).
        split; [exact Hres|]. split; [simpl in Hn; lia|].
        exists w1, w2, files. split; [exact Hl|]. now apply list_elem_of_In.
      * intros Hrun. apply IH in Hrun.
        destruct r as [[t|]|e]; auto.
        destruct Hrun as [[_ ->]|Hle]; [|now right].
        destruct (listFiles_spec E w1 _ w2 Hl) as (Hn & _).
        right. simpl in Hn. lia.
    + unfold ret at 1. cbv beta iota. intros Hrun. apply IH in Hrun.
      destruct r as [[t|]|e0]; auto.
      destruct Hrun as [[_ ->]|Hle]; [|now right]. right.
      destruct (listFiles_spec E w1 _ w2 Hl) as (Hn & _). simpl in Hn.
      lia.
Qed.

End SessionFacts.

Section SessionDeletes.
Variable E : Env.
Variable id : string.

Local Abbreviation own_or_expired := (deletes_only E (task_name id)).

Lemma keeps_cleanup files t :
  t ∈ toTasks files -> task_id t = id ->
  (forall f, f ∈ files -> convertUrl (url f) = Some f) ->
  keeps own_or_expired (cleanup E t).
Proof.
  intros Ht Hid Hdec. unfold cleanup.
  apply keeps_for_each;
    [apply deletes_only_refl|apply deletes_only_trans|intros d _].
  destruct (task_slot t d) as [s|] eqn:Hs;
    [|apply keeps_ret, deletes_only_refl].
  apply keeps_for_each;
    [apply deletes_only_refl|apply deletes_only_trans|intros f Hf].
  destruct (assembled_slot_files files t d s f Ht Hs Hf) as (Hin & Hfid & _).
  apply keeps_deleteFile. exists f. split; [now apply Hdec|congruence].
Qed.

Lemma keeps_poll n dt : keeps own_or_expired (poll E n dt id).
Proof.
  induction n as [|n IH]; simpl; [apply keeps_ret, deletes_only_refl|].
  apply keeps_bind_d.
  { apply keeps_quiet. intros w r w' [= <- <-]. split; [lia|reflexivity]. }
  intros t. destruct (_ >? _); [apply keeps_throw, deletes_only_refl|].
  apply keeps_bind_d; [apply quiet_timeout|intros _].
  apply keeps_bind_d.
  - apply keeps_try_catch;
      [apply deletes_only_trans| |intros; apply keeps_ret, deletes_only_refl].
    apply keeps_bind_d; [apply keeps_listFiles|].
    intros files. apply keeps_ret, deletes_only_refl.
  - intros [t0|]; [apply keeps_ret, deletes_only_refl|exact IH].
Qed.

Lemma keeps_receive files t :
  t ∈ toTasks files -> task_id t = id ->
  (forall f, f ∈ files -> convertUrl (url f) = Some f) ->
  keeps own_or_expired (receive E t).
Proof.
  intros Ht Hid Hdec. unfold receive.
  apply keeps_bind_d; [apply quiet_task_file_url|intros sigUrl].
  apply keeps_bind_d; [apply quiet_downloadFile|intros sigFile].
  apply keeps_bind_d; [apply quiet_readFileSync|intros signature].
  apply keeps_bind_d; [apply quiet_unlinkSync|intros _].
  apply keeps_try_finally;
    [apply deletes_only_trans| |now apply (keeps_cleanup files)].
  apply keeps_bind_d; [apply quiet_task_file|intros [datf|]].
  - apply keeps_bind_d; [apply quiet_downloadFile|intros outFile].
    apply keeps_bind_d; [apply quiet_readFileSync|intros outData].
    destruct (negb _);
      [apply keeps_throw, deletes_only_refl|apply keeps_ret, deletes_only_refl].
  - apply keeps_bind_d; [apply quiet_task_file|intros [errf|]];
      [|apply keeps_throw, deletes_only_refl].
    apply keeps_bind_d; [apply quiet_downloadFile|intros errFile].
    apply keeps_bind_d; [apply quiet_readFileSync|intros errData].
    apply keeps_bind_d; [apply quiet_unlinkSync|intros _].
    destruct (negb _); apply keeps_throw, deletes_only_refl.
Qed.

Lemma keeps_submit inputData : keeps own_or_expired (submit E inputData id).
Proof.
  unfold submit. apply keeps_bind_d.
  { apply keeps_quiet. intros w r w' [= <- <-]. split; [lia|reflexivity]. }
  intros dt. apply keeps_bind_d; [apply quiet_upload|intros _].
  apply keeps_bind_d; [apply quiet_upload|intros _].
  apply keeps_ret, deletes_only_refl.
Qed.

Lemma keeps_initialize : keeps own_or_expired (initialize E).
Proof.
  unfold initialize. apply keeps_bind_d.
  { apply keeps_quiet. intros w r w' [= <- <-]. split; [lia|reflexivity]. }
  intros [|]; [apply keeps_ret, deletes_only_refl|].
  apply keeps_bind_d; [apply quiet_testSign|intros _].
  apply keeps_quiet. intros w r w' [= <- <-]. split; [simpl; lia|reflexivity].
Qed.

Lemma keeps_runRemoteTask cycles inputData :
  keeps own_or_expired (runRemoteTask E cycles inputData id).
Proof.
  unfold runRemoteTask. apply keeps_bind_d.
  { apply keeps_quiet. intros w r w'.
    repeat match goal with
           | |- context [if ?b then _ else _] => destruct b
           end; intros [= <- <-]; split; auto; lia. }
  intros _. apply keeps_bind_d; [apply keeps_initialize|intros _].
  apply keeps_bind_d; [apply keeps_submit|intros dt].
  apply keeps_bind;
    [apply deletes_only_trans|apply keeps_poll|intros [t|] w w1 Hpoll].
  - apply poll_outcome in Hpoll as (Hres & _ & w0 & w2 & files & Hl & Ht).
    apply andb_true_iff in Hres as [Hid%bool_decide_eq_true_1 _].
    destruct (listFiles_spec E w0 _ w2 Hl) as (_ & _ & _ & _ & Hfiles).
    apply keeps_bind_d; [|intros; apply keeps_ret, deletes_only_refl].
    apply (keeps_receive files); [assumption|assumption|].
    intros f Hf. now apply (Hfiles files eq_refl f Hf).
  - apply keeps_ret, deletes_only_refl.
Qed.

End SessionDeletes.





Section ReceiveFacts.
Variable E : Env.

Lemma task_file_inv t d k w r w' :
  task_file t d k w = (r, w') ->
  w' = w
  /\ match r with
     | Normal o => exists s, task_slot t d = Some s /\ o = JS.get s k
     | Throw e => e = TypeError
     end.
Proof.
  unfold task_file. destruct (task_slot t d) as [s|];
    intros [= <- <-]; eauto.
Qed.

Lemma task_file_url_inv t d k w u w' :
  task_file_url t d k w = (Normal u, w') ->
  w' = w /\ exists s f, task_slot t d = Some s /\ JS.get s k = Some f
                        /\ u = url f.
Proof.
  unfold task_file_url. rewrite bind_unfold.
  destruct (task_file t d k w) as [[o|e] w1] eqn:Hf; [|discriminate].
  apply task_file_inv in Hf as (-> & s & Hs & ->).
  destruct (JS.get s k) as [f|] eqn:Hg; [|discriminate].
  intros [= <- <-]. eauto 6.
Qed.

Lemma downloadFile_inv u w p w' :
  downloadFile E u w = (Normal p, w') ->
  p = u /\ exists data,
      store w !! u = Some data
      /\ w' = log (Sent (GET u) true) (with_tmp w (<[u := data]> (tmp w))).
Proof.
  unfold downloadFile. destruct (rejects E w (GET u)); [discriminate|].
  destruct (store w !! u) as [data|]; [|discriminate].
  intros [= <- <-]. eauto.
Qed.

Lemma readFileSync_inv p w d w' :
  readFileSync p w = (Normal d, w') -> w' = w /\ tmp w !! p = Some d.
Proof.
  unfold readFileSync. destruct (tmp w !! p); [|discriminate].
  intros [= <- <-]. auto.
Qed.

Lemma unlinkSync_inv p w u w' :
  unlinkSync p w = (Normal u, w') -> w' = with_tmp w (delete p (tmp w)).
Proof.
  unfold unlinkSync. destruct (tmp w !! p); [|discriminate].
  now intros [= _ <-].
Qed.

(** The [finally] block leaves the local files alone. *)
Lemma cleanup_tmp t : keeps (fun w w' => tmp w' = tmp w) (cleanup E t).
Proof.
  assert (forall u, keeps (fun w w' => tmp w' = tmp w) (deleteFile E u)) as Hd.
  { intros u w r w'. unfold deleteFile.
    destruct (rejects E w (DELETE u)); now intros [= <- <-]. }
  unfold cleanup.
  apply keeps_for_each; [reflexivity|congruence|intros d _].
  destruct (task_slot t d); [|now intros w r w' [= <- <-]].
  apply keeps_for_each; [reflexivity|congruence|auto].
Qed.

(** The [try] block of the receiving part, after the signature [sg] has
    been read. *)
Lemma receive_body so sg w r w' :
  (dat ← ret (JS.get so Dat);
   match dat with
   | Some datf =>
       outFile ← downloadFile E (url datf);
       outData ← readFileSync outFile;
       if negb (verify E outData sg (serverPublicKey (cfg E)))
       then throw (Error "Received a result with a bad signature")
       else ret (outFile, outData)
   | None =>
       err ← ret (JS.get so Err);
       match err with
       | Some errf =>
           errFile ← downloadFile E (url errf);
           errData ← readFileSync errFile;
           unlinkSync errFile ;;
           if negb (verify E errData sg (serverPublicKey (cfg E)))
           then throw (Error "Received an error with a bad signature")
           else throw (Error errData)
       | None => throw (Error "No output or error file found")
       end
   end) w = (r, w') ->
  match r with
  | Normal (file, data) =>
      exists fdat, JS.get so Dat = Some fdat /\ file = url fdat
                   /\ store w !! url fdat = Some data
                   /\ verify E data sg (serverPublicKey (cfg E)) = true
                   /\ tmp w' !! file = Some data
  | Throw (Error msg) =>
      (exists fdat data,
          JS.get so Dat = Some fdat /\ store w !! url fdat = Some data
          /\ verify E data sg (serverPublicKey (cfg E)) = false
          /\ msg = "Received a result with a bad signature")
      \/ (JS.get so Dat = None
          /\ exists ferr data,
              JS.get so Err = Some ferr /\ store w !! url ferr = Some data
              /\ if verify E data sg (serverPublicKey (cfg E))
                 then msg = data
                 else msg = "Received an error with a bad signature")
      \/ (JS.get so Dat = None /\ JS.get so Err = None
          /\ msg = "No output or error file found")
  | Throw _ => True
  end.
Proof.
  rewrite bind_unfold. unfold ret at 1. cbv beta iota.
  destruct (JS.get so Dat) as [fdat|] eqn:Hdat.
  - rewrite bind_unfold.
    destruct (downloadFile E (url fdat) w) as [[outFile|e] w1] eqn:H1.
    2:{ intros [= <- <-]. now apply downloadFile_throws in H1 as ->. }
    apply downloadFile_inv in H1 as (-> & data & Hst & ->).
    rewrite bind_unfold, (readFileSync_ok _ data)
      by (simpl; apply lookup_insert_eq).
    destruct (verify E data sg _) eqn:Hv; simpl; intros [= <- <-].
    + exists fdat. repeat split; auto. simpl. apply lookup_insert_eq.
    + left. eauto 6.
  - rewrite bind_unfold. unfold ret at 1. cbv beta iota.
    destruct (JS.get so Err) as [ferr|] eqn:Herr.
    + rewrite bind_unfold.
      destruct (downloadFile E (url ferr) w) as [[errFile|e] w1] eqn:H1.
      2:{ intros [= <- <-]. now apply downloadFile_throws in H1 as ->. }
      apply downloadFile_inv in H1 as (-> & data & Hst & ->).
      rewrite bind_unfold, (readFileSync_ok _ data)
        by (simpl; apply lookup_insert_eq).
      rewrite bind_unfold, (unlinkSync_ok _ data)
        by (simpl; apply lookup_insert_eq).
      destruct (verify E data sg _) eqn:Hv; simpl; intros [= <- <-];
        right; left; (split; [reflexivity|]); exists ferr, data;
        rewrite Hv; auto.
    + intros [= <- <-]. right. right. auto.
Qed.

End ReceiveFacts.

(** X13.  The client hands over nothing it has not verified.  When the
    receiving part of [runRemoteTask] returns [{ file, data }], [data] is
    the content of the task's [out.dat] object, it verifies against the
    content of the task's [out.sig] object under the server's public key,
    and [file] is the local copy, still in place.  When it raises an
    [Error], the message is the content of the task's [out.err] object only
    if that content verifies (and the record has no [out.dat]); otherwise
    it is one of the three fixed messages, each for its own cause. *)
Theorem receive_returns_verified (E : Env) (t : task) (w : World) r w' :
  receive E t w = (r, w') ->
  let key := serverPublicKey (cfg E) in
  match r with
  | Normal (file, data) =>
      exists so fsig fdat sg,
        task_out t = Some so /\ JS.get so Sig = Some fsig
        /\ JS.get so Dat = Some fdat /\ file = url fdat
        /\ store w !! url fsig = Some sg
        /\ store w !! url fdat = Some data
        /\ verify E data sg key = true
        /\ tmp w' !! file = Some data
  | Throw (Error msg) =>
      exists so fsig sg,
        task_out t = Some so /\ JS.get so Sig = Some fsig
        /\ store w !! url fsig = Some sg
        /\ ((exists fdat data,
                JS.get so Dat = Some fdat /\ store w !! url fdat = Some data
                /\ verify E data sg key = false
                /\ msg = "Received a result with a bad signature")
            \/ (JS.get so Dat = None
                /\ exists ferr data,
                    JS.get so Err = Some ferr
                    /\ store w !! url ferr = Some data
                    /\ if verify E data sg key then msg = data
                       else msg = "Received an error with a bad signature")
            \/ (JS.get so Dat = None /\ JS.get so Err = None
                /\ msg = "No output or error file found"))
  | Throw _ => True
  end.
Proof.
  unfold receive. rewrite bind_unfold.
  destruct (task_file_url t dir_out Sig w) as [[sigUrl|e] w1] eqn:H1.
  2:{ intros [= <- <-]. now apply task_file_url_throws in H1 as ->. }
  apply task_file_url_inv in H1 as (-> & so & fsig & Hso & Hsig & ->).
  simpl in Hso. rewrite bind_unfold.
  destruct (downloadFile E (url fsig) w) as [[sigFile|e] w2] eqn:H2.
  2:{ intros [= <- <-]. now apply downloadFile_throws in H2 as ->. }
  apply downloadFile_inv in H2 as (-> & sg & Hst & ->).
  rewrite bind_unfold, (readFileSync_ok _ sg) by (simpl; apply lookup_insert_eq).
  rewrite bind_unfold, (unlinkSync_ok _ sg) by (simpl; apply lookup_insert_eq).
  unfold try_finally, task_file. cbn [task_slot]. rewrite Hso.
  match goal with
  | |- context [let '(_, _) := ?b ?w0 in _] =>
      destruct (b w0) as [r0 w5] eqn:Hb
  end.
  apply receive_body in Hb. simpl store in Hb.
  destruct (cleanup E t w5) as [[[]|e] w6] eqn:Hc.
  - intros [= <- <-]. cbv zeta.
    pose proof (cleanup_tmp E t _ _ _ Hc) as Htmp.
    destruct r0 as [[file data]|[]]; auto.
    + destruct Hb as (fdat & Hdat & -> & Hs & Hv & Ht).
      exists so, fsig, fdat, sg. rewrite Htmp. auto 10.
    + exists so, fsig, sg. auto.
  - intros [= <- <-]. cbv zeta.
    apply cleanup_spec in Hc as [[[=] _]|[u [= ->]]]. exact I.
Qed.

Lemma receive_returns_verified_witness :
  let E := Toy.env Toy.toy_cfg Toy.accept_all Toy.hello in
  let run := receive E Toy.resolved_task Toy.resolved_world in
  run.1 = Throw (Error "boom")
  /\ exists so fsig sg,
      task_out Toy.resolved_task = Some so /\ JS.get so Sig = Some fsig
      /\ store Toy.resolved_world !! url fsig = Some sg
      /\ verify E "boom" sg (serverPublicKey (cfg E)) = true.
Proof.
  intros E run.
  pose proof (receive_returns_verified E Toy.resolved_task Toy.resolved_world
                run.1 run.2 (surjective_pairing run)) as H.
  assert (run.1 = Throw (Error "boom")) as Hr by reflexivity.
  rewrite Hr in H. cbv zeta in H.
  destruct H as (so & fsig & sg & Hso & Hsig & Hst & Hcase).
  split; [exact Hr|]. exists so, fsig, sg.
  split; [exact Hso|]. split; [exact Hsig|]. split; [exact Hst|].
  injection Hso as <-.
  destruct Hcase as [(fdat & data & Hd & _)
                    |[(_ & ferr & data & _ & _ & Hv)|(_ & He & _)]].
  - discriminate Hd.
  - destruct (verify E data sg (serverPublicKey (cfg E))) eqn:Hver;
      [subst data; exact Hver|discriminate Hv].
  - discriminate He.
Defined.

(** *** What a listing returns *)

Lemma convertUrls_NoDup urls : NoDup urls -> NoDup (convertUrls urls).
Proof.
  unfold convertUrls. induction 1 as [|u urls Hu _ IH]; simpl; [constructor|].
  destruct (convertUrl u) as [f|] eqn:Hc; [|exact IH].
  constructor; [|exact IH].
  intros (u' & Hin & Hc')%list_elem_of_omap. apply Hu.
  apply convertUrl_url in Hc, Hc'. congruence.
Qed.

Lemma filter_NoDup {A} (p : A -> bool) (l : list A) :
  NoDup l -> NoDup (List.filter p l).
Proof.
  induction 1 as [|x l Hx _ IH]; simpl; [constructor|].
  destruct (p x); [|exact IH]. constructor; [|exact IH].
  rewrite list_elem_of_In, filter_In, <- list_elem_of_In. tauto.
Qed.

Section ListingFacts.
Variable E : Env.

Lemma listFiles_result w files w' :
  listFiles E w = (Normal files, w') ->
  let listed := convertUrls (map_to_list (store w)).*1 in
  files = List.filter (fun f => negb (expired E (now w) f)) listed
  /\ forall u, u ∉ url <$> List.filter (expired E (now w)) listed ->
               store w' !! u = store w !! u.
Proof.
  unfold listFiles. rewrite bind_unfold. unfold list_urls.
  destruct (rejects E w LIST); [discriminate|].
  set (listed := convertUrls _). intros Hrun.
  destruct (deleteExpiredFiles_spec E listed (log (Sent LIST true) w))
    as (w2 & Heq & Hs).
  rewrite Heq in Hrun. injection Hrun as <- <-.
  destruct Hs as (_ & _ & _ & _ & _ & _ & _ & _ & Hframe & _).
  split; [reflexivity|exact Hframe].
Qed.

Lemma listFiles_elem w files w' f :
  listFiles E w = (Normal files, w') ->
  f ∈ files <-> is_Some (store w !! url f) /\ convertUrl (url f) = Some f
                /\ expired E (now w) f = false.
Proof.
  intros [-> _]%listFiles_result.
  rewrite list_elem_of_In, filter_In, <- list_elem_of_In.
  rewrite elem_of_convertUrls, elem_of_keys, negb_true_iff. tauto.
Qed.

Lemma listFiles_survive w files w' f :
  listFiles E w = (Normal files, w') -> f ∈ files ->
  store w' !! url f = store w !! url f.
Proof.
  intros Hl Hf. pose proof (proj1 (listFiles_elem w files w' f Hl) Hf)
    as (_ & Hc & Hexp).
  apply listFiles_result in Hl as [_ Hframe]. apply Hframe.
  intros (g & Hu & Hg)%list_elem_of_fmap.
  apply list_elem_of_In, filter_In in Hg as [Hg Hexp'].
  apply list_elem_of_In, elem_of_convertUrls in Hg as [_ Hcg].
  rewrite <- Hu, Hc in Hcg. injection Hcg as <-. congruence.
Qed.

End ListingFacts.

(** X14.  What [listFiles] returns.  A listing that succeeds returns
    exactly the objects of the store whose names decode and whose timestamp
    is not below the sweep threshold, each of them once; undecodable names
    and expired objects are never returned, and every object it returns is
    still in the store, unchanged, when it returns. *)
Theorem listFiles_exact (E : Env) (w : World) (files : list file) w' :
  listFiles E w = (Normal files, w') ->
  (forall f, f ∈ files <->
             is_Some (store w !! url f) /\ convertUrl (url f) = Some f
             /\ date f >= now w - 2 * taskExpirationMillis (cfg E))
  /\ NoDup files
  /\ (forall f, f ∈ files -> store w' !! url f = store w !! url f).
Proof.
  intros Hl. split; [|split].
  - intros f. rewrite (listFiles_elem E w files w' f Hl).
    unfold expired. rewrite Z.ltb_ge.
    split; intros (? & ? & ?); repeat split; auto; lia.
  - apply listFiles_result in Hl as [-> _].
    apply filter_NoDup, convertUrls_NoDup, NoDup_fst_map_to_list.
  - intros f. apply (listFiles_survive E w files w' f Hl).
Qed.

Lemma listFiles_exact_witness :
  let E := Toy.env Toy.short_cfg Toy.accept_all Toy.hello in
  let run := listFiles E Toy.aged_world in
  exists files,
    run.1 = Normal files
    /\ (Toy.edge_file ∈ files) /\ (Toy.old_file ∉ files)
    /\ store run.2 !! "800-b.in.dat" = Some "y".
Proof.
  intros E run.
  assert (exists files, run = (Normal files, run.2)) as [files Hrun]
    by (vm_compute; eauto).
  destruct (listFiles_exact E Toy.aged_world files run.2 Hrun)
    as (Hin & _ & Hkeep).
  assert (Toy.edge_file ∈ files) as Hedge.
  { apply Hin. split; [vm_compute; eauto|]. split; [reflexivity|].
    vm_compute. discriminate. }
  exists files. split; [now rewrite Hrun|]. split; [exact Hedge|]. split.
  - intros (_ & _ & Hd)%Hin. vm_compute in Hd. now apply Hd.
  - exact (Hkeep Toy.edge_file Hedge).
Defined.

(** *** From submission to the server's pending list *)

Section SubmitFacts.
Variable E : Env.

Lemma submit_inv inputData id w dt w1 :
  submit E inputData id w = (Normal dt, w1) ->
  dt = now w /\ now w1 = now w
  /\ store w1
     = <[getTaskFileUrl (now w) id dir_in Sig
           := sign E inputData (clientPrivateKey (cfg E))]>
         (<[getTaskFileUrl (now w) id dir_in Dat := inputData]> (store w)).
Proof.
  unfold submit. rewrite bind_unfold. unfold Date_now.
  rewrite bind_unfold. unfold upload at 1.
  destruct (rejects E w _); [discriminate|].
  rewrite bind_unfold. unfold upload.
  destruct (rejects E _ _); [discriminate|].
  intros [= <- <-]. auto.
Qed.

End SubmitFacts.



(** *** Which listings resolve a session *)

Lemma filter_andb {A} (p q : A -> bool) (l : list A) :
  List.filter (fun x => p x && q x) l = List.filter q (List.filter p l).
Proof.
  induction l as [|x l IH]; simpl; [reflexivity|].
  destruct (p x); simpl; [destruct (q x)|]; now rewrite IH.
Qed.

Lemma assembled_out_sig files id g t :
  JS.get (foldl add_file [] files) id = Some g -> to_task g = Some t ->
  (s ← task_out t; JS.get s Sig) = last_listed files id dir_out Sig.
Proof.
  intros Hg Ht.
  destruct (to_task_foldl files id g t Hg Ht) as (sg & _ & _ & ->). simpl.
  rewrite <- slot_foldl. unfold slot_of, side_of. now rewrite Hg.
Qed.

Lemma resolved_listing files id :
  List.filter (resolved id) (toTasks files)
  = match JS.get (foldl add_file [] files) id ≫= to_task with
    | Some t =>
        if bool_decide (is_Some (last_listed files id dir_out Sig))
        then [t] else []
    | None => []
    end.
Proof.
  unfold resolved. rewrite (filter_andb (fun t => bool_decide (task_id t = id))).
  change (fun t => bool_decide (task_id t = id)) with (has_id id).
  rewrite toTasks_filter_id.
  destruct (JS.get (foldl add_file [] files) id) as [g|] eqn:Hg;
    [|reflexivity]. simpl.
  destruct (to_task g) as [t|] eqn:Ht; [|reflexivity]. simpl.
  rewrite <- (assembled_out_sig files id g t Hg Ht).
  destruct (task_out t) as [s|]; reflexivity.
Qed.





Section ReceiveProgress.
Variable E : Env.
Hypothesis accepts_get : forall w0 u, rejects E w0 (GET u) = false.
Hypothesis accepts_delete : forall w0 u, rejects E w0 (DELETE u) = false.

Lemma cleanup_returns t w :
  exists w', cleanup E t w = (Normal tt, w')
             /\ tmp w' = tmp w
             /\ forall d s k f, task_slot t d = Some s ->
                                JS.get s k = Some f ->
                                store w' !! url f = None.
Proof.
  assert (raises (fun _ => False) (cleanup E t)) as Hnever.
  { unfold cleanup. apply raises_for_each. intros d.
    destruct (task_slot t d); [|apply raises_ret].
    apply raises_for_each. intros f w0 e w1. unfold deleteFile.
    now rewrite accepts_delete. }
  destruct (cleanup E t w) as [[[]|e] w'] eqn:Hc.
  - exists w'. split; [reflexivity|].
    split; [exact (cleanup_tmp E t _ _ _ Hc)|].
    apply cleanup_spec in Hc as [[_ Hall]|[u [=]]]. exact Hall.
  - destruct (Hnever _ _ _ Hc).
Qed.

(** The receiving part up to its [try] block. *)
Lemma receive_prefix t so fsig sg w :
  task_out t = Some so -> JS.get so Sig = Some fsig ->
  store w !! url fsig = Some sg ->
  exists w4,
    store w4 = store w
    /\ receive E t w
       = try_finally
           (dat ← ret (JS.get so Dat);
            match dat with
            | Some datf =>
                outFile ← downloadFile E (url datf);
                outData ← readFileSync outFile;
                if negb (verify E outData sg (serverPublicKey (cfg E)))
                then throw (Error "Received a result with a bad signature")
                else ret (outFile, outData)
            | None =>
                err ← ret (JS.get so Err);
                match err with
                | Some errf =>
                    errFile ← downloadFile E (url errf);
                    errData ← readFileSync errFile;
                    unlinkSync errFile ;;
                    if negb (verify E errData sg (serverPublicKey (cfg E)))
                    then throw (Error "Received an error with a bad signature")
                    else throw (Error errData)
                | None => throw (Error "No output or error file found")
                end
            end)
           (cleanup E t) w4.
Proof.
  intros Hso Hsig Hst. eexists. split; [|unfold receive].
  2:{ rewrite bind_unfold, (task_file_url_ok t dir_out Sig so fsig)
        by assumption.
      rewrite bind_unfold, (downloadFile_ok E _ sg) by auto.
      rewrite bind_unfold, (readFileSync_ok _ sg)
        by (simpl; apply lookup_insert_eq).
      rewrite bind_unfold, (unlinkSync_ok _ sg)
        by (simpl; apply lookup_insert_eq).
      unfold task_file. cbn [task_slot]. rewrite Hso. reflexivity. }
  reflexivity.
Qed.

End ReceiveProgress.

(** X18.  The client delivers what the server published.  With a backend
    that serves downloads and deletes, the receiving part of
    [runRemoteTask] on a task whose record has [out.sig] and [out.dat]
    objects that verify under the server's public key returns the name and
    the content of [out.dat]; on a task with no [out.dat] and a verified
    [out.err] it raises an [Error] with the content of [out.err] as its
    message.  In both cases every object of the task record is deleted from
    the store before the call ends. *)
Theorem receive_delivers (E : Env) (t : task) (so : slots) (fsig : file)
    (sg : string) (w : World) :
  (forall w0 u, rejects E w0 (GET u) = false) ->
  (forall w0 u, rejects E w0 (DELETE u) = false) ->
  task_out t = Some so -> JS.get so Sig = Some fsig ->
  store w !! url fsig = Some sg ->
  let key := serverPublicKey (cfg E) in
  let cleaned w' :=
    forall d s k f, task_slot t d = Some s -> JS.get s k = Some f ->
                    store w' !! url f = None in
  (forall fdat data,
      JS.get so Dat = Some fdat -> store w !! url fdat = Some data ->
      verify E data sg key = true ->
      exists w', receive E t w = (Normal (url fdat, data), w')
                 /\ cleaned w' /\ tmp w' !! url fdat = Some data)
  /\ (forall ferr msg,
        JS.get so Dat = None -> JS.get so Err = Some ferr ->
        store w !! url ferr = Some msg ->
        verify E msg sg key = true ->
        exists w', receive E t w = (Throw (Error msg), w')
                   /\ cleaned w' /\ tmp w' !! url ferr = None).
Proof.
  intros Hget Hdel Hso Hsig Hst key cleaned.
  destruct (receive_prefix E Hget t so fsig sg w Hso Hsig Hst)
    as (w4 & Hst4 & ->).
  unfold try_finally. split.
  - intros fdat data Hdat Hsd Hv.
    rewrite bind_unfold. unfold ret at 1. cbv beta iota. rewrite Hdat.
    rewrite bind_unfold, (downloadFile_ok E _ data)
      by (rewrite ?Hst4; auto).
    rewrite bind_unfold, (readFileSync_ok _ data)
      by (simpl; apply lookup_insert_eq).
    fold key. rewrite Hv. cbn [negb]. unfold ret at 1.
    match goal with
    | |- context [cleanup E t ?w5] =>
        destruct (cleanup_returns E Hdel t w5) as (w' & -> & Htmp & Hall)
    end.
    exists w'. split; [reflexivity|]. split; [exact Hall|].
    rewrite Htmp. simpl. apply lookup_insert_eq.
  - intros ferr msg Hdat Herr Hse Hv.
    rewrite bind_unfold. unfold ret at 1. cbv beta iota. rewrite Hdat.
    rewrite bind_unfold. unfold ret at 1. cbv beta iota. rewrite Herr.
    rewrite bind_unfold, (downloadFile_ok E _ msg)
      by (rewrite ?Hst4; auto).
    rewrite bind_unfold, (readFileSync_ok _ msg)
      by (simpl; apply lookup_insert_eq).
    rewrite bind_unfold, (unlinkSync_ok _ msg)
      by (simpl; apply lookup_insert_eq).
    fold key. rewrite Hv. cbn [negb]. unfold throw at 1.
    match goal with
    | |- context [cleanup E t ?w5] =>
        destruct (cleanup_returns E Hdel t w5) as (w' & -> & Htmp & Hall)
    end.
    exists w'. split; [reflexivity|]. split; [exact Hall|].
    rewrite Htmp. simpl. apply lookup_delete_eq.
Qed.

Lemma receive_delivers_witness :
  let E := Toy.env Toy.toy_cfg Toy.accept_all Toy.hello in
  exists w', receive E Toy.resolved_task Toy.resolved_world
             = (Throw (Error "boom"), w')
             /\ store w' !! "1000-ab12.out.err" = None.
Proof.
  intros E.
  destruct (receive_delivers E Toy.resolved_task
              [(Err, Toy.out_err); (Sig, Toy.out_sig)] Toy.out_sig "boom/sk"
              Toy.resolved_world) as [_ Herr];
    [reflexivity|reflexivity|reflexivity|reflexivity|reflexivity|].
  destruct (Herr Toy.out_err "boom") as (w' & Hrun & Hclean & _);
    [reflexivity|reflexivity|reflexivity|reflexivity|].
  exists w'. split; [exact Hrun|].
  exact (Hclean dir_out _ Err Toy.out_err eq_refl eq_refl).
Defined.

(** *** A whole exchange *)

Lemma filter_all {A} (p : A -> bool) (l : list A) :
  (forall x, x ∈ l -> p x = true) -> List.filter p l = l.
Proof.
  induction l as [|x l IH]; intros Hp; simpl; [reflexivity|].
  rewrite (Hp x) by apply list_elem_of_here.
  rewrite IH; [reflexivity|]. intros y Hy. apply Hp.
  now apply list_elem_of_further.
Qed.

Lemma last_listed_unique files id d k f :
  f ∈ files -> taskId f = id -> inout f = d -> ext f = k ->
  (forall f', f' ∈ files -> taskId f' = id -> inout f' = d -> ext f' = k ->
              f' = f) ->
  last_listed files id d k = Some f.
Proof.
  intros Hf Hid Hio Hk Huniq.
  assert (has_object files id d k) as [f' Hf']%last_listed_is_Some
    by (exists f; auto).
  rewrite Hf'. f_equal.
  apply last_listed_Some in Hf' as (? & ? & ? & ?). now apply Huniq.
Qed.

Lemma last_listed_none files id d k :
  (forall f, f ∈ files -> ~ (taskId f = id /\ inout f = d /\ ext f = k)) ->
  last_listed files id d k = None.
Proof.
  intros Hnone. destruct (last_listed files id d k) as [f|] eqn:Hl;
    [|reflexivity].
  apply last_listed_Some in Hl as (Hf & ? & ? & ?).
  destruct (Hnone f Hf). auto.
Qed.

(** A listing whose files all bear one id, with both input files, makes
    one task. *)
Lemma toTasks_single files id :
  (forall f, f ∈ files -> taskId f = id) ->
  has_object files id dir_in Dat -> has_object files id dir_in Sig ->
  exists t sg,
    toTasks files = [t] /\ task_id t = id
    /\ last_listed files id dir_in Sig = Some sg /\ task_date t = date sg
    /\ (forall d k, (s ← task_slot t d; JS.get s k)
                    = last_listed files id d k)
    /\ (forall d, is_Some (task_slot t d)
                  <-> exists f, f ∈ files /\ taskId f = id /\ inout f = d).
Proof.
  intros Hall Hd Hs.
  destruct (to_task_complete files id Hd Hs) as (g & t & Hg & Ht).
  destruct (to_task_foldl files id g t Hg Ht) as (sg & Hsg & _ & Heq).
  pose proof (task_id_key files id g t Hg Ht) as Hkey.
  exists t, sg.
  assert (toTasks files = [t]) as Hone.
  { rewrite <- (filter_all (has_id id) (toTasks files)).
    - rewrite toTasks_filter_id, Hg. simpl. now rewrite Ht.
    - intros t' (id' & g' & Hg' & Ht')%elem_of_toTasks.
      destruct (to_task_foldl files id' g' t' Hg' Ht') as (sg' & Hsg' & _ & ->).
      apply last_listed_Some in Hsg' as (Hin' & _).
      unfold has_id. simpl. apply bool_decide_eq_true_2. now apply Hall. }
  split; [exact Hone|]. split; [exact Hkey|]. split; [exact Hsg|].
  subst t. simpl in *. split; [reflexivity|]. split.
  - intros d k. rewrite <- slot_foldl. unfold slot_of, side_of.
    rewrite Hg. now destruct d.
  - intros d. rewrite <- side_foldl. unfold side_of. rewrite Hg.
    now destruct d.
Qed.

Lemma outFile_name t id :
  0 <= t -> word_token id = true ->
  JS.replace ".in.dat" ".out.dat" (getTaskFileUrl t id dir_in Dat)
  = getTaskFileUrl t id dir_out Dat.
Proof.
  intros Ht Hid. unfold getTaskFileUrl.
  destruct (number_toString_digits t Ht) as (Hds & _ & _).
  apply andb_true_iff in Hid as [_ Hw].
  set (stem := JS.number_toString t +:+ "-" +:+ id).
  change (inout_str dir_in +:+ "." +:+ ext_str Dat) with "in.dat".
  change (inout_str dir_out +:+ "." +:+ ext_str Dat) with "out.dat".
  replace (JS.number_toString t +:+ "-" +:+ id +:+ "." +:+ "in.dat")
    with (stem +:+ ".in.dat")
    by (unfold stem; now rewrite !append_assoc_str).
  replace (JS.number_toString t +:+ "-" +:+ id +:+ "." +:+ "out.dat")
    with (stem +:+ ".out.dat")
    by (unfold stem; now rewrite !append_assoc_str).
  apply replace_past_stem. unfold stem. rewrite !all_chars_app.
  rewrite (all_chars_impl is_digit _ (JS.number_toString t)),
    (all_chars_impl is_word _ id); auto.
  - intros c Hc. destruct (Ascii.eqb_spec c "."); [|reflexivity].
    now apply word_not_dot in Hc.
  - intros c Hc%digit_is_word. destruct (Ascii.eqb_spec c "."); [|reflexivity].
    now apply word_not_dot in Hc.
Qed.

Section ExchangeFacts.
Variable E : Env.
Hypothesis accepts : forall w0 r, rejects E w0 r = false.

Lemma listFiles_returns w : exists files w', listFiles E w = (Normal files, w').
Proof.
  unfold listFiles. rewrite bind_unfold. unfold list_urls. rewrite accepts.
  match goal with
  | |- context [deleteExpiredFiles E ?fs ?w1] =>
      destruct (deleteExpiredFiles_spec E fs w1) as (w' & -> & _)
  end. eauto.
Qed.

Lemma submit_returns inputData id w :
  exists w1, submit E inputData id w = (Normal (now w), w1)
             /\ now w1 = now w
             /\ store w1
                = <[getTaskFileUrl (now w) id dir_in Sig
                      := sign E inputData (clientPrivateKey (cfg E))]>
                    (<[getTaskFileUrl (now w) id dir_in Dat := inputData]>
                       (store w)).
Proof.
  unfold submit. rewrite bind_unfold. unfold Date_now.
  rewrite bind_unfold, upload_ok by apply accepts.
  rewrite bind_unfold, upload_ok by apply accepts.
  eexists. split; [reflexivity|]. auto.
Qed.

Lemma server_iteration_runs w1 files w2 t w3 :
  listFiles E w1 = (Normal files, w2) ->
  head (pending (toTasks files)) = Some t ->
  runTask E t w2 = (Normal tt, w3) ->
  server_iteration E w1
  = (Normal tt, with_now w3 (now w3 + delay (pollMillis (cfg E)))).
Proof.
  intros Hl Hhead Hrun. unfold server_iteration, try_catch.
  now rewrite bind_unfold, Hl, Hhead, bind_unfold, Hrun.
Qed.

Lemma poll_finds n dt id w files w2 t :
  now w - dt <= taskExpirationMillis (cfg E) ->
  listFiles E (with_now w (now w + delay (pollMillis (cfg E))))
  = (Normal files, w2) ->
  head (List.filter (resolved id) (toTasks files)) = Some t ->
  poll E (S n) dt id w = (Normal (Some t), w2).
Proof.
  intros Hearly Hl Hhead. simpl. rewrite bind_unfold. unfold Date_now.
  destruct (Z.gtb_spec (now w - dt) (taskExpirationMillis (cfg E))); [lia|].
  rewrite bind_unfold. unfold timeout.
  rewrite bind_unfold. unfold try_catch. rewrite bind_unfold, Hl.
  unfold ret at 1. cbv beta iota. now rewrite Hhead.
Qed.

Lemma runTask_succeeds t fd fs data sg out w :
  ready E t fd fs data sg w ->
  verify E data sg (clientPublicKey (cfg E)) = true ->
  let outFile := JS.replace ".in.dat" ".out.dat" (url fd) in
  outFile <> url fd ->
  (forall w0, tmp w0 !! url fd = Some data ->
              exit_ok (command E w0 (url fd) outFile) = true
              /\ written (command E w0 (url fd) outFile) = Some out) ->
  exists w',
    runTask E t w = (Normal tt, w')
    /\ now w' = now w
    /\ store w'
       = <[getTaskFileUrl (task_date t) (task_id t) dir_out Sig
             := sign E out (serverPrivateKey (cfg E))]>
           (<[getTaskFileUrl (task_date t) (task_id t) dir_out Dat := out]>
              (store w)).
Proof.
  intros Hready Hv outFile Hne Hcmd.
  rewrite (runTask_fetch E t fd fs data sg w Hready), Hv. cbv zeta.
  fold outFile. destruct Hready as (_ & Hurl & _).
  set (w2 := fetched fd fs data sg w).
  destruct (Hcmd w2 (fetched_tmp_in fd fs data sg w Hurl)) as [Hexit Hwr].
  assert (tmp (execSync E (url fd) outFile w2).2 !! outFile = Some out) as Hout.
  { unfold execSync. rewrite Hexit, Hwr. simpl. apply lookup_insert_eq. }
  destruct (execSync_world E (url fd) outFile w2) as (Hst & _ & _ & Htmp).
  unfold try_catch.
  rewrite (try_body_runs E _ (url fd) outFile data out w2);
    [|assumption|assumption|now apply fetched_tmp_in|assumption].
  set (w3 := (execSync E (url fd) outFile w2).2) in *.
  rewrite bind_unfold, (uploadTaskResult_output E t outFile out)
    by (simpl; now rewrite lookup_delete_ne).
  rewrite bind_unfold, upload_ok, upload_ok by apply accepts.
  rewrite (unlinkSync_ok _ out) by (simpl; now rewrite lookup_delete_ne).
  eexists. split; [reflexivity|]. simpl. rewrite Hst.
  split; [|reflexivity].
  unfold w3, execSync. rewrite Hexit, Hwr. reflexivity.
Qed.

End ExchangeFacts.

Section ListingOf.
Variable E : Env.

(** The listing of a store whose decodable names are known and
    unexpired. *)
Lemma listing_of w files w' (known : list file) :
  listFiles E w = (Normal files, w') ->
  (forall u, is_Some (store w !! u) -> is_Some (convertUrl u) ->
             u ∈ url <$> known) ->
  (forall f, f ∈ known ->
             is_Some (store w !! url f) /\ convertUrl (url f) = Some f
             /\ expired E (now w) f = false) ->
  (forall f, f ∈ files <-> f ∈ known)
  /\ store w' = store w /\ now w' = now w.
Proof.
  intros Hl Honly Hknown.
  assert (forall f, is_Some (store w !! url f) -> convertUrl (url f) = Some f ->
                    f ∈ known) as Hin.
  { intros f Hs Hc.
    destruct (proj1 (list_elem_of_fmap _ _ _) (Honly (url f) Hs ltac:(eauto)))
      as (g & Hu & Hg).
    destruct (Hknown g Hg) as (_ & Hcg & _).
    rewrite <- Hu, Hc in Hcg. injection Hcg as ->. exact Hg. }
  split; [|split].
  - intros f. rewrite (listFiles_elem E w files w' f Hl). split.
    + intros (Hs & Hc & _). now apply Hin.
    + apply Hknown.
  - apply map_eq. intros u.
    apply listFiles_result in Hl as [_ Hframe]. apply Hframe.
    intros (f & -> & Hf)%list_elem_of_fmap.
    apply list_elem_of_In, filter_In in Hf as [Hf Hexp].
    apply list_elem_of_In, elem_of_convertUrls in Hf as [Hk Hc].
    apply elem_of_keys in Hk.
    destruct (Hknown f (Hin f Hk Hc)) as (_ & _ & Hexp'). congruence.
  - now destruct (listFiles_spec E w _ w' Hl) as (Hn & _).
Qed.

(** The [finally] block changes the store only at names of the task
    record. *)
Lemma cleanup_frame t w r w' u :
  cleanup E t w = (r, w') ->
  (forall d s f, task_slot t d = Some s -> f ∈ JS.values s -> u <> url f) ->
  store w' !! u = store w !! u.
Proof.
  intros Hc Hu.
  assert (keeps (fun w w' => store w' !! u = store w !! u) (cleanup E t))
    as Hk; [|exact (Hk _ _ _ Hc)].
  unfold cleanup.
  apply keeps_for_each; [reflexivity|congruence|intros d _].
  destruct (task_slot t d) as [s|] eqn:Hs; [|now intros w0 r0 w1 [= <- <-]].
  apply keeps_for_each; [reflexivity|congruence|intros f Hf].
  intros w0 r0 w1. unfold deleteFile.
  destruct (rejects E w0 (DELETE (url f))); intros [= <- <-]; [reflexivity|].
  simpl. apply lookup_delete_ne. intros Heq. now apply (Hu d s f Hs Hf).
Qed.

End ListingOf.

Section KnownStore.
Variable E : Env.

Lemma known_insert (st : gmap string string) (known : list file) f c :
  (forall u, is_Some (st !! u) -> is_Some (convertUrl u) ->
             u ∈ url <$> known) ->
  forall u, is_Some (<[url f := c]> st !! u) -> is_Some (convertUrl u) ->
            u ∈ url <$> (f :: known).
Proof.
  intros Hst u Hu Hc. rewrite fmap_cons.
  destruct (decide (u = url f)) as [->|Hne]; [apply list_elem_of_here|].
  apply list_elem_of_further. rewrite lookup_insert_ne in Hu by congruence.
  auto.
Qed.

Lemma listed_insert (st : gmap string string) (known : list file) f c T :
  (forall g, g ∈ known ->
             is_Some (st !! url g) /\ convertUrl (url g) = Some g
             /\ expired E T g = false) ->
  convertUrl (url f) = Some f -> expired E T f = false ->
  forall g, g ∈ f :: known ->
            is_Some (<[url f := c]> st !! url g) /\ convertUrl (url g) = Some g
            /\ expired E T g = false.
Proof.
  intros Hk Hc Hexp g [->|Hg]%elem_of_cons.
  - rewrite lookup_insert_eq. eauto.
  - destruct (Hk g Hg) as (Hs & ? & ?). split; [|auto].
    destruct (decide (url f = url g)) as [->|Hne];
      [rewrite lookup_insert_eq; eauto|now rewrite lookup_insert_ne].
Qed.

End KnownStore.

Lemma elem_of_list2 {A} (x a b : A) : x ∈ [a; b] -> x = a \/ x = b.
Proof.
  intros [->|[->|H]%elem_of_cons]%elem_of_cons; auto. inversion H.
Qed.

Lemma elem_of_list4 {A} (x a b c d : A) :
  x ∈ [a; b; c; d] -> x = a \/ x = b \/ x = c \/ x = d.
Proof.
  intros [->|[->|H%elem_of_list2]%elem_of_cons]%elem_of_cons; tauto.
Qed.

Ltac in_list :=
  repeat first [apply list_elem_of_here | apply list_elem_of_further].

(** X19.  End-to-end delivery.  On a store that holds no decodable name,
    with a backend that accepts every request, signature schemes in which
    each party's public key verifies what its private key signed, a poll
    delay within the expiration window, and a command that, given the
    submitted data at its [INPUT] path, exits with 0 and writes [out] to its
    [OUTPUT] path: when the server's iteration falls between the client's
    submission and its first poll, the client's first poll finds the result
    and the call returns the [out.dat] name of the task with [out] as its
    data; all four objects of the task are deleted and the store is as it
    was before the submission. *)
Theorem exchange_returns_output (E : Env) (n : nat)
    (inputData id out : string) (w : World) :
  (forall w0 r, rejects E w0 r = false) ->
  (forall d, verify E d (sign E d (clientPrivateKey (cfg E)))
                    (clientPublicKey (cfg E)) = true) ->
  (forall d, verify E d (sign E d (serverPrivateKey (cfg E)))
                    (serverPublicKey (cfg E)) = true) ->
  (forall u, is_Some (store w !! u) -> convertUrl u = None) ->
  0 <= now w -> word_token id = true ->
  delay (pollMillis (cfg E)) <= taskExpirationMillis (cfg E) ->
  let inFile := getTaskFileUrl (now w) id dir_in Dat in
  let outFile := getTaskFileUrl (now w) id dir_out Dat in
  (forall w0, tmp w0 !! inFile = Some inputData ->
              exit_ok (command E w0 inFile outFile) = true
              /\ written (command E w0 inFile outFile) = Some out) ->
  exists w',
    exchange E (S n) inputData id w = (Normal (Some (outFile, out)), w')
    /\ store w' = store w.
Proof.
  intros Hacc Hck Hsk Hjunk Hnow Hid Hdelay inFile outFile Hcmd.
  pose proof (delay_pos (pollMillis (cfg E))) as Hpos.
  set (pm := delay (pollMillis (cfg E))) in *.
  set (T := now w) in *.
  set (sigU := getTaskFileUrl T id dir_in Sig).
  set (osigU := getTaskFileUrl T id dir_out Sig).
  set (sg := sign E inputData (clientPrivateKey (cfg E))).
  set (osg := sign E out (serverPrivateKey (cfg E))).
  set (fd := mkFile T id dir_in Dat inFile).
  set (fs := mkFile T id dir_in Sig sigU).
  set (fod := mkFile T id dir_out Dat outFile).
  set (fos := mkFile T id dir_out Sig osigU).
  assert (convertUrl inFile = Some fd) as Hcd
    by now apply convertUrl_getTaskFileUrl.
  assert (convertUrl sigU = Some fs) as Hcs
    by now apply convertUrl_getTaskFileUrl.
  assert (convertUrl outFile = Some fod) as Hcod
    by now apply convertUrl_getTaskFileUrl.
  assert (convertUrl osigU = Some fos) as Hcos
    by now apply convertUrl_getTaskFileUrl.
  assert (forall u f g, convertUrl u = Some f -> f <> g ->
                        convertUrl u <> Some g) as Hdiff by congruence.
  assert (inFile <> sigU /\ inFile <> outFile /\ inFile <> osigU
          /\ sigU <> outFile /\ sigU <> osigU /\ outFile <> osigU)
    as (Hn1 & Hn2 & Hn3 & Hn4 & Hn5 & Hn6).
  { repeat split; intros Heq;
      [rewrite Heq, Hcs in Hcd|rewrite Heq, Hcod in Hcd
      |rewrite Heq, Hcos in Hcd|rewrite Heq, Hcod in Hcs
      |rewrite Heq, Hcos in Hcs|rewrite Heq, Hcos in Hcod]; discriminate. }
  assert (forall T', T' <= T + 2 * pm -> forall f, date f = T ->
                     expired E T' f = false) as Hfresh.
  { intros T' HT' f Hf. unfold expired. apply Z.ltb_ge. lia. }
  assert (forall u, is_Some (store w !! u) -> is_Some (convertUrl u) ->
                    u ∈ url <$> []) as Hbase.
  { intros u Hu [f Hf]. rewrite (Hjunk u Hu) in Hf. discriminate. }
  (* the submission *)
  destruct (submit_returns E Hacc inputData id w) as (w1 & Hsub & Hnw1 & Hs1).
  fold T inFile sigU sg in Hsub, Hs1, Hnw1.
  (* the server's listing *)
  destruct (listFiles_returns E Hacc w1) as (files1 & w2 & Hl1).
  destruct (listing_of E w1 files1 w2 [fs; fd] Hl1) as (Hin1 & Hs2 & Hnw2).
  { rewrite Hs1. apply (known_insert _ [fd] fs), (known_insert _ [] fd), Hbase. }
  { rewrite Hs1, Hnw1.
    apply (listed_insert E _ [fd] fs);
      [apply (listed_insert E _ [] fd)|exact Hcs|apply Hfresh; [lia|reflexivity]];
      [intros g Hg; inversion Hg|exact Hcd|apply Hfresh; [lia|reflexivity]]. }
  destruct (toTasks_single files1 id)
    as (t & sg1 & Hone & Htid & Hsg1 & Hdate & Hslots & Hsides).
  { intros f [->|[->|Hf]%elem_of_cons]%Hin1%elem_of_cons;
      [reflexivity|reflexivity|inversion Hf]. }
  { exists fd. split; [apply Hin1; in_list|auto]. }
  { exists fs. split; [apply Hin1; in_list|auto]. }
  assert (forall (files : list file) f d k,
            (forall g, g ∈ files -> g ∈ [fos; fod; fs; fd]) -> f ∈ files ->
            f ∈ [fos; fod; fs; fd] -> inout f = d -> ext f = k ->
            last_listed files id d k = Some f) as Hlast.
  { intros files f d k Hsub4 Hf Hf4 Hio Hk.
    apply last_listed_unique; auto.
    - apply elem_of_list4 in Hf4 as [->|[->|[->| ->]]]; reflexivity.
    - intros f' Hf' _ Hio' Hk'. apply Hsub4 in Hf'. subst d k.
      apply elem_of_list4 in Hf4 as [->|[->|[->| ->]]];
        apply elem_of_list4 in Hf' as [->|[->|[->| ->]]]; try reflexivity;
        simpl in *; congruence. }
  assert (forall g, g ∈ files1 -> g ∈ [fos; fod; fs; fd]) as Hsub1.
  { intros g [->| ->]%Hin1%elem_of_list2; in_list. }
  rewrite (Hlast files1 fs dir_in Sig) in Hsg1;
    [|exact Hsub1|apply Hin1; in_list|in_list|reflexivity|reflexivity].
  injection Hsg1 as <-. simpl in Hdate.
  pose proof (Hslots dir_in Dat) as Hsd.
  pose proof (Hslots dir_in Sig) as Hss.
  rewrite (Hlast files1 fd dir_in Dat) in Hsd;
    [|exact Hsub1|apply Hin1; in_list|in_list|reflexivity|reflexivity].
  rewrite (Hlast files1 fs dir_in Sig) in Hss;
    [|exact Hsub1|apply Hin1; in_list|in_list|reflexivity|reflexivity].
  simpl in Hsd, Hss.
  destruct (task_in t) as [s|] eqn:Htin; [|discriminate]. simpl in Hsd, Hss.
  assert (task_out t = None) as Htout.
  { destruct (task_out t) as [so|] eqn:Hto; [exfalso|reflexivity].
    destruct (proj1 (Hsides dir_out)) as (f & Hf & _ & Hio);
      [simpl; rewrite Hto; eauto|].
    apply Hin1, elem_of_list2 in Hf as [->| ->]; discriminate. }
  assert (head (pending (toTasks files1)) = Some t) as Hhead.
  { rewrite Hone. unfold pending. cbn [List.filter]. rewrite Htout.
    rewrite bool_decide_eq_false_2 by (intros [? [=]]). reflexivity. }
  (* the server runs the task *)
  destruct (runTask_succeeds E Hacc t fd fs inputData sg out w2)
    as (w3 & Hrun & Hnw3 & Hs3).
  { split; [exists s; auto|]. split; [exact Hn1|].
    rewrite Hs2, Hs1. simpl.
    split; [rewrite lookup_insert_ne by congruence; apply lookup_insert_eq|].
    split; [apply lookup_insert_eq|]. intros; apply Hacc. }
  { apply Hck. }
  { simpl. unfold inFile. rewrite outFile_name by assumption.
    fold outFile inFile. congruence. }
  { simpl. unfold inFile. rewrite outFile_name by assumption. exact Hcmd. }
  rewrite Hdate, Htid in Hs3. fold outFile osigU osg in Hs3.
  pose proof (server_iteration_runs E w1 files1 w2 t w3 Hl1 Hhead Hrun)
    as Hiter.
  fold pm in Hiter. set (w4 := with_now w3 (now w3 + pm)) in *.
  (* the client's poll *)
  set (w5 := with_now w4 (now w4 + pm)).
  destruct (listFiles_returns E Hacc w5) as (files2 & w6 & Hl2).
  assert (now w5 = T + 2 * pm) as Hnw5 by (simpl; lia).
  assert (store w5 = <[osigU := osg]> (<[outFile := out]>
                       (<[sigU := sg]> (<[inFile := inputData]> (store w)))))
    as Hs5 by (simpl; now rewrite Hs3, Hs2, Hs1).
  destruct (listing_of E w5 files2 w6 [fos; fod; fs; fd] Hl2)
    as (Hin2 & Hs6 & Hnw6).
  { rewrite Hs5.
    apply (known_insert _ [fod; fs; fd] fos), (known_insert _ [fs; fd] fod),
      (known_insert _ [fd] fs), (known_insert _ [] fd), Hbase. }
  { rewrite Hs5, Hnw5.
    apply (listed_insert E _ [fod; fs; fd] fos);
      [apply (listed_insert E _ [fs; fd] fod);
         [apply (listed_insert E _ [fd] fs);
            [apply (listed_insert E _ [] fd);
               [intros g Hg; inversion Hg|exact Hcd|]
            |exact Hcs|]
         |exact Hcod|]
      |exact Hcos|]; apply Hfresh; (lia || reflexivity). }
  destruct (toTasks_single files2 id)
    as (t' & sg2 & Hone' & Htid' & _ & _ & Hslots' & _).
  { intros f [->|[->|[->| ->]]]%Hin2%elem_of_list4; reflexivity. }
  { exists fd. split; [apply Hin2; in_list|auto]. }
  { exists fs. split; [apply Hin2; in_list|auto]. }
  assert (forall g, g ∈ files2 -> g ∈ [fos; fod; fs; fd]) as Hsub2
    by (intros g Hg; now apply Hin2).
  assert (forall f, f ∈ [fos; fod; fs; fd] ->
            (s0 ← task_slot t' (inout f); JS.get s0 (ext f)) = Some f)
    as Hrec.
  { intros f Hf. rewrite Hslots'.
    apply Hlast; auto. now apply Hin2. }
  pose proof (Hrec fos ltac:(in_list)) as Hros.
  pose proof (Hrec fod ltac:(in_list)) as Hrod.
  simpl in Hros, Hrod.
  destruct (task_out t') as [so|] eqn:Htout'; [|discriminate].
  simpl in Hros, Hrod.
  assert (head (List.filter (resolved id) (toTasks files2)) = Some t')
    as Hfound.
  { rewrite Hone'. cbn [List.filter]. unfold resolved.
    rewrite Htout', Hros, !bool_decide_eq_true_2 by eauto. reflexivity. }
  pose proof (poll_finds E n T id w4 files2 w6 t') as Hpoll.
  fold pm w5 in Hpoll. specialize (Hpoll ltac:(simpl; lia) Hl2 Hfound).
  (* the client receives *)
  destruct (receive_prefix E ltac:(intros; apply Hacc) t' so fos osg w6
              Htout' Hros)
    as (w7 & Hs7 & Hreceive).
  { rewrite Hs6, Hs5. apply lookup_insert_eq. }
  assert (store w7 !! outFile = Some out) as Hso.
  { rewrite Hs7, Hs6, Hs5, lookup_insert_ne by congruence.
    apply lookup_insert_eq. }
  unfold try_finally in Hreceive.
  rewrite bind_unfold in Hreceive. unfold ret at 1 in Hreceive.
  cbv beta iota in Hreceive. rewrite Hrod in Hreceive.
  rewrite bind_unfold, (downloadFile_ok E _ out) in Hreceive
    by (auto; apply Hacc).
  rewrite bind_unfold, (readFileSync_ok _ out) in Hreceive
    by (simpl; apply lookup_insert_eq).
  rewrite Hsk in Hreceive. cbn [negb] in Hreceive. unfold ret at 1 in Hreceive.
  match type of Hreceive with
  | context [cleanup E t' ?w8] =>
      destruct (cleanup_returns E ltac:(intros; apply Hacc) t' w8)
        as (w' & Hclean & _ & Hgone);
      pose proof (cleanup_frame E t' w8 (Normal tt) w') as Hframe;
      rewrite Hclean in Hreceive
  end.
  exists w'. split.
  - unfold exchange.
    rewrite bind_unfold, Hsub, bind_unfold, Hiter, bind_unfold, Hpoll.
    rewrite bind_unfold, Hreceive. reflexivity.
  - apply map_eq. intros u.
    destruct (decide (u ∈ [osigU; outFile; sigU; inFile])) as [Hu|Hu].
    + assert (store w !! u = None) as ->.
      { destruct (store w !! u) eqn:Hw; [|reflexivity].
        assert (convertUrl u = None) as Hnone by (apply Hjunk; eauto).
        apply elem_of_list4 in Hu as [->|[->|[->| ->]]]; congruence. }
      assert (exists f, f ∈ [fos; fod; fs; fd] /\ u = url f) as (f & Hf & ->).
      { apply elem_of_list4 in Hu as [->|[->|[->| ->]]];
          [exists fos|exists fod|exists fs|exists fd];
          (split; [in_list|reflexivity]). }
      specialize (Hrec f Hf).
      destruct (task_slot t' (inout f)) as [s0|] eqn:Hs0; [|discriminate].
      exact (Hgone (inout f) s0 (ext f) f Hs0 Hrec).
    + rewrite (Hframe u Hclean).
      * simpl. rewrite Hs7, Hs6, Hs5.
        rewrite !lookup_insert_ne
          by (intros Heq; apply Hu; rewrite <- Heq; in_list).
        reflexivity.
      * intros d s0 f Hs0 Hf Heq.
        assert (t' ∈ toTasks files2) as Ht'
          by (rewrite Hone'; apply list_elem_of_here).
        destruct (assembled_slot_files files2 t' d s0 f Ht' Hs0 Hf)
          as (Hf2 & _).
        apply Hu. subst u.
        apply Hin2, elem_of_list4 in Hf2 as [->|[->|[->| ->]]]; in_list.
Qed.

Lemma exchange_returns_output_witness :
  let E := Toy.env Toy.toy_cfg Toy.accept_all Toy.hello in
  exists w',
    exchange E 1 "alice" "ab12" (Toy.empty_world 1000)
    = (Normal (Some ("1000-ab12.out.dat", "Hello, alice!")), w')
    /\ store w' = ∅.
Proof.
  intros E.
  apply (exchange_returns_output E 0 "alice" "ab12" "Hello, alice!"
           (Toy.empty_world 1000)).
  - reflexivity.
  - intros d. apply String.eqb_refl.
  - intros d. apply String.eqb_refl.
  - intros u [d Hd]. simpl in Hd. rewrite lookup_empty in Hd. discriminate.
  - simpl. lia.
  - reflexivity.
  - vm_compute. discriminate.
  - intros w0 Hin. unfold E, Toy.env. cbn [command]. unfold Toy.hello.
    rewrite Hin. split; reflexivity.
Defined.

(** *** What the server runs the command on *)

Section ExecFacts.
Variable E : Env.

Local Abbreviation same_execs :=
  (fun w w' : World => execs (trace w') = execs (trace w)).

Lemma same_execs_bind {A B} (c : M A) (k : A -> M B) :
  keeps same_execs c -> (forall a, keeps same_execs (k a)) ->
  keeps same_execs (c ≫= k).
Proof.
  intros Hc Hk. apply keeps_bind; [congruence|exact Hc|intros a _ _ _; apply Hk].
Qed.

Lemma task_file_url_world t d k w r w' :
  task_file_url t d k w = (r, w') -> w' = w.
Proof.
  unfold task_file_url, task_file. rewrite bind_unfold.
  destruct (task_slot t d) as [s|]; [|now intros [= _ <-]].
  unfold ret. destruct (JS.get s k); now intros [= _ <-].
Qed.

Lemma same_execs_readFileSync p : keeps same_execs (readFileSync p).
Proof.
  intros w r w'. unfold readFileSync.
  destruct (tmp w !! p); now intros [= <- <-].
Qed.

Lemma same_execs_unlinkSync p : keeps same_execs (unlinkSync p).
Proof.
  intros w r w'. unfold unlinkSync.
  destruct (tmp w !! p); now intros [= <- <-].
Qed.

Lemma same_execs_upload u d : keeps same_execs (upload E u d).
Proof.
  intros w r w'. unfold upload.
  destruct (rejects E w (PUT u d)); intros [= <- <-]; simpl;
    now rewrite execs_cons, app_nil_r.
Qed.

Lemma same_execs_downloadFile u : keeps same_execs (downloadFile E u).
Proof.
  intros w r w'. unfold downloadFile.
  destruct (rejects E w (GET u)); [|destruct (store w !! u)];
    intros [= <- <-]; simpl; now rewrite execs_cons, app_nil_r.
Qed.

Lemma same_execs_uploadTaskResult t outFile error :
  keeps same_execs (uploadTaskResult E t outFile error).
Proof.
  unfold uploadTaskResult. apply same_execs_bind.
  - destruct outFile; [apply same_execs_readFileSync|].
    now intros w r w' [= <- <-].
  - intros data. apply same_execs_bind; [apply same_execs_upload|].
    intros _. apply same_execs_upload.
Qed.

Lemma same_execs_on_failure t inFile e :
  keeps same_execs (on_failure E t inFile e).
Proof.
  intros w r w'. unfold on_failure.
  destruct (_ >=? _); [|now intros [= <- <-]].
  intros Hrun.
  assert (keeps same_execs
            (unlinkSync inFile ;; uploadTaskResult E t None (exn_toString e)))
    as Hk.
  { apply same_execs_bind; [apply same_execs_unlinkSync|].
    intros _. apply same_execs_uploadTaskResult. }
  now apply Hk in Hrun.
Qed.

(** The [try] block of [runTask] with its [catch]: one run of the
    command, whatever follows. *)
Lemma guarded_run t inFile outFile w r w' :
  try_catch
    (execSync E inFile outFile ;;
     created ← existsSync outFile;
     (if (created : bool) then ret tt
      else throw (Error "Output file was not created") : M unit) ;;
     unlinkSync inFile ;;
     uploadTaskResult E t (Some outFile) "" ;;
     unlinkSync outFile)
    (on_failure E t inFile) w = (r, w') ->
  execs (trace w') = execs (trace w) ++ [(inFile, outFile)].
Proof.
  intros Hrun.
  assert (execs (trace (execSync E inFile outFile w).2)
          = execs (trace w) ++ [(inFile, outFile)]) as Hexec.
  { destruct (execSync_world E inFile outFile w) as (_ & _ & -> & _).
    now rewrite execs_cons. }
  rewrite <- Hexec. revert Hrun. unfold try_catch. rewrite bind_unfold.
  destruct (execSync E inFile outFile w) as [[[]|e] w1] eqn:Hx; simpl.
  2:{ apply same_execs_on_failure. }
  match goal with
  | |- context [match ?c w1 with _ => _ end] =>
      assert (keeps same_execs c) as Hk
  end.
  { apply same_execs_bind; [now intros w0 r0 w2 [= <- <-]|intros created].
    apply same_execs_bind;
      [destruct created; now intros w0 r0 w2 [= <- <-]|intros _].
    apply same_execs_bind; [apply same_execs_unlinkSync|intros _].
    apply same_execs_bind; [apply same_execs_uploadTaskResult|intros _].
    apply same_execs_unlinkSync. }
  match goal with
  | |- context [match ?c w1 with _ => _ end] =>
      destruct (c w1) as [[[]|e] w2] eqn:Hbody
  end.
  - intros [= <- <-]. exact (Hk _ _ _ Hbody).
  - intros Hrun. apply same_execs_on_failure in Hrun.
    rewrite Hrun. exact (Hk _ _ _ Hbody).
Qed.

End ExecFacts.

(** X20.  The server runs the command only on verified input.  A call of
    [runTask] runs the command at most once, and only when the content of
    the task's [in.dat] object verifies against the content of its
    [in.sig] object under the client's public key; the file at the [INPUT]
    path then holds exactly that content.  On every other path (a failed
    download, a bad signature) the command is not run. *)
Theorem runTask_runs_only_verified (E : Env) (t : task) (w : World) r w' :
  runTask E t w = (r, w') ->
  execs (trace w') = execs (trace w)
  \/ exists s fd fs data sg,
      task_in t = Some s /\ JS.get s Dat = Some fd /\ JS.get s Sig = Some fs
      /\ store w !! url fd = Some data /\ store w !! url fs = Some sg
      /\ verify E data sg (clientPublicKey (cfg E)) = true
      /\ tmp (fetched fd fs data sg w) !! url fd = Some data
      /\ execs (trace w')
         = execs (trace w)
           ++ [(url fd, JS.replace ".in.dat" ".out.dat" (url fd))].
Proof.
  assert (forall fd fs data sg,
            execs (trace (fetched fd fs data sg w)) = execs (trace w))
    as Hfetched.
  { intros. simpl. now rewrite !execs_cons, !app_nil_r. }
  unfold runTask. rewrite bind_unfold.
  destruct (task_file_url t dir_in Dat w) as [[inUrl|e] w1] eqn:H1.
  2:{ intros [= <- <-]. left.
      now rewrite (task_file_url_world t dir_in Dat _ _ _ H1). }
  apply task_file_url_inv in H1 as (-> & s & fd & Hs & Hd & ->).
  simpl in Hs. rewrite bind_unfold.
  destruct (downloadFile E (url fd) w) as [[inFile|e] w2] eqn:H2.
  2:{ intros [= <- <-]. left. exact (same_execs_downloadFile E _ _ _ _ H2). }
  apply downloadFile_inv in H2 as (-> & data & Hsd & ->).
  rewrite bind_unfold.
  match goal with
  | |- context [task_file_url t dir_in Sig ?w2] =>
      destruct (task_file_url t dir_in Sig w2) as [[sigUrl|e] w3] eqn:H3
  end.
  2:{ intros [= <- <-]. left.
      rewrite (task_file_url_world t dir_in Sig _ _ _ H3). simpl.
      now rewrite execs_cons, app_nil_r. }
  apply task_file_url_inv in H3 as (-> & s' & fs & Hs' & Hsg & ->).
  simpl in Hs'. rewrite Hs in Hs'. injection Hs' as <-.
  rewrite bind_unfold.
  match goal with
  | |- context [downloadFile E (url fs) ?w2] =>
      destruct (downloadFile E (url fs) w2) as [[sigFile|e] w4] eqn:H4
  end.
  2:{ intros [= <- <-]. left.
      rewrite (same_execs_downloadFile E _ _ _ _ H4). simpl.
      now rewrite execs_cons, app_nil_r. }
  apply downloadFile_inv in H4 as (-> & sg & Hss & ->). simpl in Hss.
  rewrite bind_unfold, (readFileSync_ok _ sg) by (simpl; apply lookup_insert_eq).
  rewrite bind_unfold, (unlinkSync_ok _ sg) by (simpl; apply lookup_insert_eq).
  rewrite bind_unfold.
  change (with_tmp _ _) with (fetched fd fs data sg w).
  destruct (readFileSync (url fd) (fetched fd fs data sg w))
    as [[data'|e] w5] eqn:H5.
  2:{ intros [= <- <-]. left.
      rewrite (same_execs_readFileSync _ _ _ _ H5). apply Hfetched. }
  apply readFileSync_inv in H5 as (-> & Htmp).
  assert (data' = data) as ->.
  { destruct (decide (url fd = url fs)) as [Heq|Hne].
    - simpl in Htmp. rewrite Heq, lookup_delete_eq in Htmp. discriminate.
    - rewrite (fetched_tmp_in fd fs data sg w Hne) in Htmp.
      now injection Htmp. }
  destruct (verify E data sg (clientPublicKey (cfg E))) eqn:Hv.
  - intros Hrun%guarded_run. right. exists s, fd, fs, data, sg.
    rewrite Hfetched in Hrun. auto 10.
  - intros Hrun. left. rewrite <- (Hfetched fd fs data sg).
    revert Hrun. apply same_execs_bind; [apply same_execs_unlinkSync|].
    intros _. apply same_execs_uploadTaskResult.
Qed.

Lemma runTask_runs_only_verified_witness :
  let E := Toy.env Toy.toy_cfg Toy.accept_all Toy.hello in
  let run := runTask E Toy.submitted_task Toy.forged_world in
  execs (trace run.2) = []
  /\ Toy.toy_verify "alice" "alice/evil" "ck" = false.
Proof.
  intros E run.
  destruct (runTask_runs_only_verified E Toy.submitted_task Toy.forged_world
              run.1 run.2 (surjective_pairing run))
    as [Hnone|(s & fd & fs & data & sg & Hs & Hd & Hsg & Hsd & Hss & Hv & _)].
  - split; [exact Hnone|reflexivity].
  - injection Hs as <-. injection Hd as <-. injection Hsg as <-.
    vm_compute in Hsd, Hss. injection Hsd as <-. injection Hss as <-.
    discriminate Hv.
Defined.
